(** * dodobot_serial_bridge: the serial packet protocol engine

    A shallow embedding of [dodobot_serial_bridge.cpp] (frame reception,
    checksum validation, sequence tracking, tab-segment tokenizing, category
    dispatch, outbound encoding, readiness handshake, clock offset) and the
    properties of it that the protocol description states. *)

From Stdlib Require Import ZArith Ascii String List Bool Lia.
Import ListNotations.
Open Scope Z_scope.

(** ** Bytes, strings and fixed-width integers *)

(** A [std::string] / [char] buffer is a list of 8-bit characters. *)
Definition str : Type := list ascii.

Definition lit (s : string) : str := list_ascii_of_string s.

(** [(uint8_t) c] *)
Definition byte_val (c : ascii) : Z := Z.of_N (N_of_ascii c).

(** Conversion to an unsigned integer type of [w] bits. *)
Definition wrap (w : Z) (z : Z) : Z := z mod 2 ^ w.
Definition u8 : Z -> Z := wrap 8.
Definition u16 : Z -> Z := wrap 16.
Definition u32 : Z -> Z := wrap 32.
Definition u64 : Z -> Z := wrap 64.

Definition INT_MIN : Z := - 2 ^ 31.
Definition INT_MAX : Z := 2 ^ 31 - 1.
Definition LONG_MIN : Z := - 2 ^ 63.
Definition LONG_MAX : Z := 2 ^ 63 - 1.
Definition ULONG_MAX : Z := 2 ^ 64 - 1.

Definition TAB : ascii := "009"%char.
Definition NUL : ascii := "000"%char.

Definition ascii_eqb (a b : ascii) : bool := Ascii.eqb a b.

(** ** The C/C++ library routines the bridge calls *)

Module Cstd.

(** Exceptions derived from [std::exception]: those of <stdexcept> thrown by
    [std::stoi] and friends, and the one the serial library throws when a
    port operation fails. *)
Inductive exn : Type :=
| invalid_argument
| out_of_range
| serial_failure.

(** [isspace] in the C locale. *)
Definition isspace (c : ascii) : bool :=
  let v := byte_val c in (v =? 32) || ((9 <=? v) && (v <=? 13)).

(** Value of a character as a digit in [base] (at most 36). *)
Definition digit_val (base : Z) (c : ascii) : option Z :=
  let v := byte_val c in
  let d := if (48 <=? v) && (v <=? 57) then v - 48
           else if (97 <=? v) && (v <=? 122) then v - 87
           else if (65 <=? v) && (v <=? 90) then v - 55
           else 36 in
  if d <? base then Some d else None.

Fixpoint skip_space (s : str) : str :=
  match s with
  | c :: t => if isspace c then skip_space t else s
  | [] => []
  end.

Definition take_sign (s : str) : bool * str :=
  match s with
  | c :: t => if ascii_eqb c "-" then (true, t)
              else if ascii_eqb c "+" then (false, t)
              else (false, s)
  | [] => (false, [])
  end.

(** A [0x]/[0X] prefix is consumed in base 16 only when a hex digit follows. *)
Definition skip_hex_prefix (s : str) : str :=
  match s with
  | z :: x :: h :: t =>
      if ascii_eqb z "0" && (ascii_eqb x "x" || ascii_eqb x "X")
      then match digit_val 16 h with Some _ => h :: t | None => s end
      else s
  | _ => s
  end.

(** Value of the longest prefix of digits. *)
Fixpoint scan_digits_from (base acc : Z) (s : str) : Z :=
  match s with
  | c :: t => match digit_val base c with
              | Some d => scan_digits_from base (acc * base + d) t
              | None => acc
              end
  | [] => acc
  end.

(** [None] when the text does not start with a digit: no conversion. *)
Definition scan_digits (base : Z) (s : str) : option Z :=
  match s with
  | c :: _ => match digit_val base c with
              | Some _ => Some (scan_digits_from base 0 s)
              | None => None
              end
  | [] => None
  end.

(** The subject sequence of [strtol]/[strtoul]: white space, an optional
    sign, in base 16 an optional prefix, then digits.  The result is the sign
    and the magnitude. *)
Definition strto (base : Z) (s : str) : option (bool * Z) :=
  let (neg, r) := take_sign (skip_space s) in
  let r := if base =? 16 then skip_hex_prefix r else r in
  match scan_digits base r with
  | Some v => Some (neg, v)
  | None => None
  end.

Definition signed_val (p : bool * Z) : Z :=
  let (neg, v) := p in if neg then - v else v.

(** [std::stoi(s)]: [strtol] in base 10, then the range of [int]. *)
Definition stoi (s : str) : exn + Z :=
  match strto 10 s with
  | None => inl invalid_argument
  | Some p => let v := signed_val p in
              if (INT_MIN <=? v) && (v <=? INT_MAX) then inr v else inl out_of_range
  end.

(** [std::stol(s)]: [long] has 64 bits (LP64). *)
Definition stol (s : str) : exn + Z :=
  match strto 10 s with
  | None => inl invalid_argument
  | Some p => let v := signed_val p in
              if (LONG_MIN <=? v) && (v <=? LONG_MAX) then inr v else inl out_of_range
  end.

(** [std::stoul(s, nullptr, base)]: a negated value wraps in [unsigned long]. *)
Definition stoul (base : Z) (s : str) : exn + Z :=
  match strto base s with
  | None => inl invalid_argument
  | Some (neg, v) =>
      if v <=? ULONG_MAX then inr (if neg then u64 (- v) else v) else inl out_of_range
  end.

(** Output of integers on a stream. *)
Definition digit_char (d : Z) : ascii :=
  if d <? 10 then ascii_of_N (Z.to_N (48 + d)) else ascii_of_N (Z.to_N (87 + d)).

Fixpoint digits_of (base : Z) (fuel : nat) (n : Z) (acc : str) : str :=
  match fuel with
  | O => acc
  | S f => let acc' := digit_char (n mod base) :: acc in
           if n / base =? 0 then acc' else digits_of base f (n / base) acc'
  end.

(** Enough fuel for every digit of [n] in any base of at least 2. *)
Definition digit_fuel (n : Z) : nat := S (Z.to_nat (Z.log2 n)).

(** [os << n] for an unsigned [n], decimal. *)
Definition put_unsigned (n : Z) : str := digits_of 10 (digit_fuel n) n [].

(** [os << i] for a signed [i], decimal. *)
Definition put_int (i : Z) : str :=
  if i <? 0 then "-"%char :: put_unsigned (- i) else put_unsigned i.

(** [os << std::hex << n] for a non-negative [int]: lower case, no prefix. *)
Definition put_hex (n : Z) : str := digits_of 16 (digit_fuel n) n [].

(** [s.find(c, from)] *)
Fixpoint find_char (c : ascii) (from : nat) (s : str) : option nat :=
  match s with
  | [] => None
  | x :: t =>
      match from with
      | O => if ascii_eqb x c then Some O else option_map S (find_char c O t)
      | S k => option_map S (find_char c k t)
      end
  end.

(** [s.substr(pos)] and [s.substr(pos, n)] for [pos <= s.length()]. *)
Definition substr_from (s : str) (pos : nat) : str := skipn pos s.
Definition substr (s : str) (pos n : nat) : str := firstn n (skipn pos s).

(** [std::string(const char* )]: the characters before the first NUL. *)
Fixpoint c_str (s : str) : str :=
  match s with
  | [] => []
  | c :: t => if ascii_eqb c NUL then [] else c :: c_str t
  end.

End Cstd.
Import Cstd.

(** ** Floating point

    [std::stof] and the [std::fixed << std::setprecision(4)] output of a
    [double] are taken as given operations on abstract types of C [float]
    and [double] values. *)

Class FloatModel : Type := {
  cfloat : Type;
  cdouble : Type;
  stof : str -> exn + cfloat;
  double_of_float : cfloat -> cdouble;
  double_zero : cdouble;
  put_fixed4 : cdouble -> str
}.

(** A model in which a floating-point value is carried as its decimal text. *)
Definition text_floats : FloatModel := {|
  cfloat := str;
  cdouble := str;
  stof := fun s => inr s;
  double_of_float := fun s => s;
  double_zero := ["0"%char];
  put_fixed4 := fun s => s
|}.

(** ** Wire constants *)

(** Modelled from the spec: the header that defines the packet markers is not
    among the sources; section 6 has a start marker of two fixed bytes and a
    stop marker of one byte distinct from them.  The values are the ones the
    bridge's own diagnostics name (0x12 and 0x34) and the end of line. *)
Definition PACKET_START_0 : ascii := "018"%char.
Definition PACKET_START_1 : ascii := "052"%char.
Definition PACKET_STOP : ascii := "010"%char.

(** Size of [_recvCharBuffer]. *)
Definition RECV_BUFFER_SIZE : nat := 4095.

(** Durations, in nanoseconds of [ros::Time]. *)
Definition wait_timeout : Z := 50000000.
Definition general_timeout : Z := 5000000000.
Definition write_timeout : Z := 1000000000.

Declare Scope bridge_scope.
Delimit Scope bridge_scope with bridge.

(** ** Data model *)

Section Model.
Context {FM : FloatModel}.

Record StructReadyState : Type := {
  robot_name : str;
  is_ready : bool;
  ready_time_ms : Z
}.

Record StructRobotState : Type := {
  state_time_ms : Z;
  is_active : bool;
  battery_ok : bool;
  motors_active : bool;
  loop_rate : cdouble
}.

(** A [ros::Time] computed by [getDeviceTime]: the host reference and the
    milliseconds added to it (the division by 1000.0 is left symbolic). *)
Record DeviceTime : Type := {
  host_reference : Z;
  plus_ms : Z
}.

(** Fields of the outgoing ROS messages that the parsers assign. *)
Inductive Slot : Type :=
| drive_stamp | drive_left_ticks | drive_right_ticks
| drive_left_speed_ticks_per_s | drive_right_speed_ticks_per_s
| drive_bump1 | drive_bump2
| fsr_stamp | fsr_left | fsr_right
| gripper_stamp | gripper_position
| linear_stamp | linear_position | linear_has_error | linear_is_homed | linear_is_active
| battery_stamp | battery_current | battery_voltage
| tilter_stamp | tilter_position.

Inductive Val : Type :=
| VUnset
| VStamp (t : DeviceTime)
| VInt (z : Z)
| VBool (b : bool)
| VFloat (f : cfloat).

Inductive Topic : Type :=
| gripper_pub | tilter_pub | linear_pub | battery_pub | drive_pub | bumper_pub | fsr_pub.

Inductive Level : Type := DEBUG | INFO | WARN | ERROR.

(** The diagnostics the bridge writes, one constructor per message. *)
Inductive LogLine : Type :=
| InvalidLength (buffer : str)
| ChecksumParseFailed (buffer : str) (e : exn)
| ChecksumFailed (calc recv : Z)
| PacketNumSegmentMissing
| PacketNumMismatch (recv local : Z)
| CategorySegmentMissing (buffer : str)
| ProcessPacketException (e : exn)
| NotEnoughSegments (n : Z) (buffer : str)
| DeviceMessage (msg : str)
| PacketReturnedError (packet_num : Z)
| PacketErrorReason (error_code : Z)
| ReceivedReady (name : str)
| InvalidFormat (c : ascii)
| WritingSignalAgain
| DeviceIsReady (name : str)
| NoReadySignal
| MainLoopException (e : exn)
| BufferDump (buffer : str)
| CheckingReady
| ReadPacketNum (n : Z)
| VoltageCurrent (voltage current : Val).

(** What can be thrown through the bridge's functions. *)
Inductive thrown : Type :=
| Std (e : exn)
| ReadyTimeoutException.

Record State : Type := {
  (* tokenizer *)
  _serialBuffer : str;
  _serialBufferIndex : nat;
  _currentBufferSegment : str;
  _currentSegmentNum : Z;
  (* sequence counters, unsigned long long *)
  _readPacketNum : Z;
  _writePacketNum : Z;
  (* device state *)
  readyState : StructReadyState;
  robotState : StructRobotState;
  (* clock offset *)
  deviceStartTime : Z;
  offsetTimeMs : Z;
  (* outgoing messages and what was published, newest first *)
  msgs : Slot -> Val;
  published : list (Topic * list Val);
  (* log, newest first *)
  ros_log : list (Level * LogLine);
  (* serial port: bytes received and not yet read; packets written, newest
     first, each with the count the port reported *)
  serial_rx : str;
  serial_tx : list (str * nat);
  serial_accepts : str -> nat;
  (* the environment: the k-th reading of ros::Time::now() and of ros::ok() *)
  ros_time : nat -> Z;
  time_reads : nat;
  ros_ok : nat -> bool;
  ok_reads : nat;
  (* rosconsole's throttle: whether the k-th throttled line is let through *)
  throttle_open : nat -> bool;
  throttle_asked : nat;
  (* the indeterminate content of the local [c2] of waitForPacketStart *)
  uninit_c2 : ascii
}.

Definition set_serialBuffer (v : str) (s : State) : State :=
  {| _serialBuffer := v; _serialBufferIndex := _serialBufferIndex s;
     _currentBufferSegment := _currentBufferSegment s;
     _currentSegmentNum := _currentSegmentNum s; _readPacketNum := _readPacketNum s;
     _writePacketNum := _writePacketNum s; readyState := readyState s;
     robotState := robotState s; deviceStartTime := deviceStartTime s;
     offsetTimeMs := offsetTimeMs s; msgs := msgs s; published := published s;
     ros_log := ros_log s; serial_rx := serial_rx s; serial_tx := serial_tx s;
     serial_accepts := serial_accepts s; ros_time := ros_time s;
     time_reads := time_reads s; ros_ok := ros_ok s; ok_reads := ok_reads s;
     throttle_open := throttle_open s; throttle_asked := throttle_asked s;
     uninit_c2 := uninit_c2 s |}.

Definition set_serialBufferIndex (v : nat) (s : State) : State :=
  {| _serialBuffer := _serialBuffer s; _serialBufferIndex := v;
     _currentBufferSegment := _currentBufferSegment s;
     _currentSegmentNum := _currentSegmentNum s; _readPacketNum := _readPacketNum s;
     _writePacketNum := _writePacketNum s; readyState := readyState s;
     robotState := robotState s; deviceStartTime := deviceStartTime s;
     offsetTimeMs := offsetTimeMs s; msgs := msgs s; published := published s;
     ros_log := ros_log s; serial_rx := serial_rx s; serial_tx := serial_tx s;
     serial_accepts := serial_accepts s; ros_time := ros_time s;
     time_reads := time_reads s; ros_ok := ros_ok s; ok_reads := ok_reads s;
     throttle_open := throttle_open s; throttle_asked := throttle_asked s;
     uninit_c2 := uninit_c2 s |}.

Definition set_currentBufferSegment (v : str) (s : State) : State :=
  {| _serialBuffer := _serialBuffer s; _serialBufferIndex := _serialBufferIndex s;
     _currentBufferSegment := v;
     _currentSegmentNum := _currentSegmentNum s; _readPacketNum := _readPacketNum s;
     _writePacketNum := _writePacketNum s; readyState := readyState s;
     robotState := robotState s; deviceStartTime := deviceStartTime s;
     offsetTimeMs := offsetTimeMs s; msgs := msgs s; published := published s;
     ros_log := ros_log s; serial_rx := serial_rx s; serial_tx := serial_tx s;
     serial_accepts := serial_accepts s; ros_time := ros_time s;
     time_reads := time_reads s; ros_ok := ros_ok s; ok_reads := ok_reads s;
     throttle_open := throttle_open s; throttle_asked := throttle_asked s;
     uninit_c2 := uninit_c2 s |}.

Definition set_currentSegmentNum (v : Z) (s : State) : State :=
  {| _serialBuffer := _serialBuffer s; _serialBufferIndex := _serialBufferIndex s;
     _currentBufferSegment := _currentBufferSegment s;
     _currentSegmentNum := v; _readPacketNum := _readPacketNum s;
     _writePacketNum := _writePacketNum s; readyState := readyState s;
     robotState := robotState s; deviceStartTime := deviceStartTime s;
     offsetTimeMs := offsetTimeMs s; msgs := msgs s; published := published s;
     ros_log := ros_log s; serial_rx := serial_rx s; serial_tx := serial_tx s;
     serial_accepts := serial_accepts s; ros_time := ros_time s;
     time_reads := time_reads s; ros_ok := ros_ok s; ok_reads := ok_reads s;
     throttle_open := throttle_open s; throttle_asked := throttle_asked s;
     uninit_c2 := uninit_c2 s |}.

Definition set_readPacketNum (v : Z) (s : State) : State :=
  {| _serialBuffer := _serialBuffer s; _serialBufferIndex := _serialBufferIndex s;
     _currentBufferSegment := _currentBufferSegment s;
     _currentSegmentNum := _currentSegmentNum s; _readPacketNum := v;
     _writePacketNum := _writePacketNum s; readyState := readyState s;
     robotState := robotState s; deviceStartTime := deviceStartTime s;
     offsetTimeMs := offsetTimeMs s; msgs := msgs s; published := published s;
     ros_log := ros_log s; serial_rx := serial_rx s; serial_tx := serial_tx s;
     serial_accepts := serial_accepts s; ros_time := ros_time s;
     time_reads := time_reads s; ros_ok := ros_ok s; ok_reads := ok_reads s;
     throttle_open := throttle_open s; throttle_asked := throttle_asked s;
     uninit_c2 := uninit_c2 s |}.

Definition set_writePacketNum (v : Z) (s : State) : State :=
  {| _serialBuffer := _serialBuffer s; _serialBufferIndex := _serialBufferIndex s;
     _currentBufferSegment := _currentBufferSegment s;
     _currentSegmentNum := _currentSegmentNum s; _readPacketNum := _readPacketNum s;
     _writePacketNum := v; readyState := readyState s;
     robotState := robotState s; deviceStartTime := deviceStartTime s;
     offsetTimeMs := offsetTimeMs s; msgs := msgs s; published := published s;
     ros_log := ros_log s; serial_rx := serial_rx s; serial_tx := serial_tx s;
     serial_accepts := serial_accepts s; ros_time := ros_time s;
     time_reads := time_reads s; ros_ok := ros_ok s; ok_reads := ok_reads s;
     throttle_open := throttle_open s; throttle_asked := throttle_asked s;
     uninit_c2 := uninit_c2 s |}.

Definition set_readyState (v : StructReadyState) (s : State) : State :=
  {| _serialBuffer := _serialBuffer s; _serialBufferIndex := _serialBufferIndex s;
     _currentBufferSegment := _currentBufferSegment s;
     _currentSegmentNum := _currentSegmentNum s; _readPacketNum := _readPacketNum s;
     _writePacketNum := _writePacketNum s; readyState := v;
     robotState := robotState s; deviceStartTime := deviceStartTime s;
     offsetTimeMs := offsetTimeMs s; msgs := msgs s; published := published s;
     ros_log := ros_log s; serial_rx := serial_rx s; serial_tx := serial_tx s;
     serial_accepts := serial_accepts s; ros_time := ros_time s;
     time_reads := time_reads s; ros_ok := ros_ok s; ok_reads := ok_reads s;
     throttle_open := throttle_open s; throttle_asked := throttle_asked s;
     uninit_c2 := uninit_c2 s |}.

Definition set_robotState (v : StructRobotState) (s : State) : State :=
  {| _serialBuffer := _serialBuffer s; _serialBufferIndex := _serialBufferIndex s;
     _currentBufferSegment := _currentBufferSegment s;
     _currentSegmentNum := _currentSegmentNum s; _readPacketNum := _readPacketNum s;
     _writePacketNum := _writePacketNum s; readyState := readyState s;
     robotState := v; deviceStartTime := deviceStartTime s;
     offsetTimeMs := offsetTimeMs s; msgs := msgs s; published := published s;
     ros_log := ros_log s; serial_rx := serial_rx s; serial_tx := serial_tx s;
     serial_accepts := serial_accepts s; ros_time := ros_time s;
     time_reads := time_reads s; ros_ok := ros_ok s; ok_reads := ok_reads s;
     throttle_open := throttle_open s; throttle_asked := throttle_asked s;
     uninit_c2 := uninit_c2 s |}.

Definition set_clock_offset (start offset : Z) (s : State) : State :=
  {| _serialBuffer := _serialBuffer s; _serialBufferIndex := _serialBufferIndex s;
     _currentBufferSegment := _currentBufferSegment s;
     _currentSegmentNum := _currentSegmentNum s; _readPacketNum := _readPacketNum s;
     _writePacketNum := _writePacketNum s; readyState := readyState s;
     robotState := robotState s; deviceStartTime := start;
     offsetTimeMs := offset; msgs := msgs s; published := published s;
     ros_log := ros_log s; serial_rx := serial_rx s; serial_tx := serial_tx s;
     serial_accepts := serial_accepts s; ros_time := ros_time s;
     time_reads := time_reads s; ros_ok := ros_ok s; ok_reads := ok_reads s;
     throttle_open := throttle_open s; throttle_asked := throttle_asked s;
     uninit_c2 := uninit_c2 s |}.

Definition set_msgs (v : Slot -> Val) (s : State) : State :=
  {| _serialBuffer := _serialBuffer s; _serialBufferIndex := _serialBufferIndex s;
     _currentBufferSegment := _currentBufferSegment s;
     _currentSegmentNum := _currentSegmentNum s; _readPacketNum := _readPacketNum s;
     _writePacketNum := _writePacketNum s; readyState := readyState s;
     robotState := robotState s; deviceStartTime := deviceStartTime s;
     offsetTimeMs := offsetTimeMs s; msgs := v; published := published s;
     ros_log := ros_log s; serial_rx := serial_rx s; serial_tx := serial_tx s;
     serial_accepts := serial_accepts s; ros_time := ros_time s;
     time_reads := time_reads s; ros_ok := ros_ok s; ok_reads := ok_reads s;
     throttle_open := throttle_open s; throttle_asked := throttle_asked s;
     uninit_c2 := uninit_c2 s |}.

Definition set_published (v : list (Topic * list Val)) (s : State) : State :=
  {| _serialBuffer := _serialBuffer s; _serialBufferIndex := _serialBufferIndex s;
     _currentBufferSegment := _currentBufferSegment s;
     _currentSegmentNum := _currentSegmentNum s; _readPacketNum := _readPacketNum s;
     _writePacketNum := _writePacketNum s; readyState := readyState s;
     robotState := robotState s; deviceStartTime := deviceStartTime s;
     offsetTimeMs := offsetTimeMs s; msgs := msgs s; published := v;
     ros_log := ros_log s; serial_rx := serial_rx s; serial_tx := serial_tx s;
     serial_accepts := serial_accepts s; ros_time := ros_time s;
     time_reads := time_reads s; ros_ok := ros_ok s; ok_reads := ok_reads s;
     throttle_open := throttle_open s; throttle_asked := throttle_asked s;
     uninit_c2 := uninit_c2 s |}.

Definition set_ros_log (v : list (Level * LogLine)) (s : State) : State :=
  {| _serialBuffer := _serialBuffer s; _serialBufferIndex := _serialBufferIndex s;
     _currentBufferSegment := _currentBufferSegment s;
     _currentSegmentNum := _currentSegmentNum s; _readPacketNum := _readPacketNum s;
     _writePacketNum := _writePacketNum s; readyState := readyState s;
     robotState := robotState s; deviceStartTime := deviceStartTime s;
     offsetTimeMs := offsetTimeMs s; msgs := msgs s; published := published s;
     ros_log := v; serial_rx := serial_rx s; serial_tx := serial_tx s;
     serial_accepts := serial_accepts s; ros_time := ros_time s;
     time_reads := time_reads s; ros_ok := ros_ok s; ok_reads := ok_reads s;
     throttle_open := throttle_open s; throttle_asked := throttle_asked s;
     uninit_c2 := uninit_c2 s |}.

Definition set_serial_rx (v : str) (s : State) : State :=
  {| _serialBuffer := _serialBuffer s; _serialBufferIndex := _serialBufferIndex s;
     _currentBufferSegment := _currentBufferSegment s;
     _currentSegmentNum := _currentSegmentNum s; _readPacketNum := _readPacketNum s;
     _writePacketNum := _writePacketNum s; readyState := readyState s;
     robotState := robotState s; deviceStartTime := deviceStartTime s;
     offsetTimeMs := offsetTimeMs s; msgs := msgs s; published := published s;
     ros_log := ros_log s; serial_rx := v; serial_tx := serial_tx s;
     serial_accepts := serial_accepts s; ros_time := ros_time s;
     time_reads := time_reads s; ros_ok := ros_ok s; ok_reads := ok_reads s;
     throttle_open := throttle_open s; throttle_asked := throttle_asked s;
     uninit_c2 := uninit_c2 s |}.

Definition set_serial_tx (v : list (str * nat)) (s : State) : State :=
  {| _serialBuffer := _serialBuffer s; _serialBufferIndex := _serialBufferIndex s;
     _currentBufferSegment := _currentBufferSegment s;
     _currentSegmentNum := _currentSegmentNum s; _readPacketNum := _readPacketNum s;
     _writePacketNum := _writePacketNum s; readyState := readyState s;
     robotState := robotState s; deviceStartTime := deviceStartTime s;
     offsetTimeMs := offsetTimeMs s; msgs := msgs s; published := published s;
     ros_log := ros_log s; serial_rx := serial_rx s; serial_tx := v;
     serial_accepts := serial_accepts s; ros_time := ros_time s;
     time_reads := time_reads s; ros_ok := ros_ok s; ok_reads := ok_reads s;
     throttle_open := throttle_open s; throttle_asked := throttle_asked s;
     uninit_c2 := uninit_c2 s |}.

Definition set_time_reads (v : nat) (s : State) : State :=
  {| _serialBuffer := _serialBuffer s; _serialBufferIndex := _serialBufferIndex s;
     _currentBufferSegment := _currentBufferSegment s;
     _currentSegmentNum := _currentSegmentNum s; _readPacketNum := _readPacketNum s;
     _writePacketNum := _writePacketNum s; readyState := readyState s;
     robotState := robotState s; deviceStartTime := deviceStartTime s;
     offsetTimeMs := offsetTimeMs s; msgs := msgs s; published := published s;
     ros_log := ros_log s; serial_rx := serial_rx s; serial_tx := serial_tx s;
     serial_accepts := serial_accepts s; ros_time := ros_time s;
     time_reads := v; ros_ok := ros_ok s; ok_reads := ok_reads s;
     throttle_open := throttle_open s; throttle_asked := throttle_asked s;
     uninit_c2 := uninit_c2 s |}.

Definition set_ok_reads (v : nat) (s : State) : State :=
  {| _serialBuffer := _serialBuffer s; _serialBufferIndex := _serialBufferIndex s;
     _currentBufferSegment := _currentBufferSegment s;
     _currentSegmentNum := _currentSegmentNum s; _readPacketNum := _readPacketNum s;
     _writePacketNum := _writePacketNum s; readyState := readyState s;
     robotState := robotState s; deviceStartTime := deviceStartTime s;
     offsetTimeMs := offsetTimeMs s; msgs := msgs s; published := published s;
     ros_log := ros_log s; serial_rx := serial_rx s; serial_tx := serial_tx s;
     serial_accepts := serial_accepts s; ros_time := ros_time s;
     time_reads := time_reads s; ros_ok := ros_ok s; ok_reads := v;
     throttle_open := throttle_open s; throttle_asked := throttle_asked s;
     uninit_c2 := uninit_c2 s |}.

Definition set_throttle_asked (v : nat) (s : State) : State :=
  {| _serialBuffer := _serialBuffer s; _serialBufferIndex := _serialBufferIndex s;
     _currentBufferSegment := _currentBufferSegment s;
     _currentSegmentNum := _currentSegmentNum s; _readPacketNum := _readPacketNum s;
     _writePacketNum := _writePacketNum s; readyState := readyState s;
     robotState := robotState s; deviceStartTime := deviceStartTime s;
     offsetTimeMs := offsetTimeMs s; msgs := msgs s; published := published s;
     ros_log := ros_log s; serial_rx := serial_rx s; serial_tx := serial_tx s;
     serial_accepts := serial_accepts s; ros_time := ros_time s;
     time_reads := time_reads s; ros_ok := ros_ok s; ok_reads := ok_reads s;
     throttle_open := throttle_open s; throttle_asked := v;
     uninit_c2 := uninit_c2 s |}.

(** ** Effects

    The member functions run on the bridge's state.  A call returns a value,
    throws, leaves the enclosing [void] function through a bare [return;],
    is still running when its step budget ends, or writes past the end of
    the receive buffer. *)

Inductive res (A : Type) : Type :=
| Ret (a : A) (s : State)
| Throw (e : thrown) (s : State)
| Leave (s : State)
| Running (s : State)
| Overrun (s : State).

Arguments Ret {A} a s.
Arguments Throw {A} e s.
Arguments Leave {A} s.
Arguments Running {A} s.
Arguments Overrun {A} s.

Definition M (A : Type) : Type := State -> res A.

Definition ret {A : Type} (a : A) : M A := fun s => Ret a s.

Definition bind {A B : Type} (m : M A) (k : A -> M B) : M B :=
  fun s =>
    match m s with
    | Ret a s' => k a s'
    | Throw e s' => Throw e s'
    | Leave s' => Leave s'
    | Running s' => Running s'
    | Overrun s' => Overrun s'
    end.

Notation "x <- c ;; k" := (bind c (fun x => k))
  (at level 61, c at next level, right associativity) : bridge_scope.
Notation "c ;; k" := (bind c (fun _ => k))
  (at level 61, right associativity) : bridge_scope.
Open Scope bridge_scope.

Definition throw {A : Type} (e : thrown) : M A := fun s => Throw e s.
Definition leave {A : Type} : M A := fun s => Leave s.
Definition running {A : Type} : M A := fun s => Running s.
Definition overrun {A : Type} : M A := fun s => Overrun s.
Definition gets {A : Type} (f : State -> A) : M A := fun s => Ret (f s) s.
Definition modify (f : State -> State) : M unit := fun s => Ret tt (f s).

(** A library call that may throw. *)
Definition lift {A : Type} (r : exn + A) : M A :=
  match r with
  | inl e => throw (Std e)
  | inr a => ret a
  end.

(** The body of a [void] function: [return;] ends it normally. *)
Definition void_call (m : M unit) : M unit :=
  fun s => match m s with Leave s' => Ret tt s' | r => r end.

(** [try { m } catch (exception& e) { h e }] *)
Definition try_catch {A : Type} (m : M A) (h : exn -> M A) : M A :=
  fun s => match m s with Throw (Std e) s' => h e s' | r => r end.

Definition log (l : Level) (line : LogLine) : M unit :=
  modify (fun s => set_ros_log ((l, line) :: ros_log s) s).

(** [ROS_INFO_THROTTLE(period, ...)]: rosconsole lets the line through unless
    it printed the same line less than [period] seconds ago; whether it does
    is the environment's next answer. *)
Definition log_throttle (period : Z) (l : Level) (line : LogLine) : M unit :=
  fun s =>
    let s1 := set_throttle_asked (S (throttle_asked s)) s in
    if throttle_open s (throttle_asked s)
    then Ret tt (set_ros_log ((l, line) :: ros_log s) s1)
    else Ret tt s1.

(** Modelled from the spec: the declarations of [_readPacketNum] and
    [_writePacketNum] are in the header, which is not among the sources;
    section 3 has them as counters of uint64 range. *)
Definition PACKET_NUM_BITS : Z := 64.

(** Modelled from the spec: the declaration of [offsetTimeMs] is in the
    header, which is not among the sources; section 3 has it as the device
    reference milliseconds, and [setStartTime] stores a [uint32_t] in it. *)
Definition OFFSET_BITS : Z := 32.

(** [_readPacketNum++] *)
Definition incr_readPacketNum : M unit :=
  modify (fun s => set_readPacketNum (wrap PACKET_NUM_BITS (_readPacketNum s + 1)) s).

(** [_writePacketNum++] *)
Definition incr_writePacketNum : M unit :=
  modify (fun s => set_writePacketNum (wrap PACKET_NUM_BITS (_writePacketNum s + 1)) s).

(** [ros::Time::now()] *)
Definition now : M Z :=
  fun s => Ret (ros_time s (time_reads s)) (set_time_reads (S (time_reads s)) s).

(** [ros::ok()] *)
Definition ok : M bool :=
  fun s => Ret (ros_ok s (ok_reads s)) (set_ok_reads (S (ok_reads s)) s).

(** [_serialRef.available()] *)
Definition available : M nat := gets (fun s => length (serial_rx s)).

(** [_serialRef.read(1).at(0)]: with nothing to read the string is empty and
    [at] throws. *)
Definition read1 : M ascii :=
  fun s =>
    match serial_rx s with
    | c :: rest => Ret c (set_serial_rx rest s)
    | [] => Throw (Std out_of_range) s
    end.

(** [_serialRef.write(packet)] on a port that takes the packet; the count it
    returns is not looked at. *)
Definition serial_write (packet : str) : M unit :=
  modify (fun s => set_serial_tx ((packet, serial_accepts s packet) :: serial_tx s) s).

(** [_serialRef.write(packet)] on a port that has failed: the serial library
    throws. *)
Definition serial_write_fails (packet : str) : M unit := throw (Std serial_failure).

(** ** Clock offset *)

Definition setStartTime (time_ms : Z) : M unit :=
  t <- now ;;
  modify (set_clock_offset t (wrap OFFSET_BITS time_ms)).

(** [deviceStartTime + ros::Duration((double)(time_ms - offsetTimeMs) / 1000.0)];
    the subtraction is done in unsigned 32-bit arithmetic. *)
Definition getDeviceTime (time_ms : Z) : M DeviceTime :=
  fun s => Ret {| host_reference := deviceStartTime s;
                  plus_ms := wrap OFFSET_BITS (time_ms - offsetTimeMs s) |} s.

(** ** Segment tokenizer *)

Definition getNextSegment : M bool :=
  fun s =>
    if (length (_serialBuffer s) <=? _serialBufferIndex s)%nat then
      Ret false (set_currentSegmentNum (-1) s)
    else
      let separator := find_char TAB (_serialBufferIndex s) (_serialBuffer s) in
      let s := set_currentSegmentNum (_currentSegmentNum s + 1) s in
      match separator with
      | None =>
          Ret true
            (set_serialBufferIndex (length (_serialBuffer s))
               (set_currentBufferSegment
                  (substr_from (_serialBuffer s) (_serialBufferIndex s)) s))
      | Some separator =>
          Ret true
            (set_serialBufferIndex (separator + 1)
               (set_currentBufferSegment
                  (substr (_serialBuffer s) (_serialBufferIndex s)
                     (separator - _serialBufferIndex s)) s))
      end.

Definition getSegmentNum : M Z := gets _currentSegmentNum.

(** Modelled from the spec: the macro [CHECK_SEGMENT] is defined in the
    header, which is not among the sources.  Section 4.4: a missing required
    segment aborts the category's decode and is reported as a segment-missing
    error; it takes the next segment and, when there is none, logs and
    returns from the function it stands in. *)
Definition CHECK_SEGMENT : M unit :=
  found <- getNextSegment ;;
  if found then ret tt
  else
    n <- getSegmentNum ;;
    b <- gets _serialBuffer ;;
    log ERROR (NotEnoughSegments (n + 1) b) ;;
    leave.

(** The current segment through [std::stoi], [std::stol], [std::stof]. *)
Definition seg_stoi : M Z := seg <- gets _currentBufferSegment ;; lift (stoi seg).
Definition seg_stol : M Z := seg <- gets _currentBufferSegment ;; lift (stol seg).
Definition seg_stof : M cfloat := seg <- gets _currentBufferSegment ;; lift (stof seg).

(** [(bool) i] *)
Definition to_bool (i : Z) : bool := negb (i =? 0).

(** ** Packet dispatcher *)

Definition str_eqb (a b : str) : bool :=
  if list_eq_dec ascii_dec a b then true else false.

Definition slot_index (k : Slot) : nat :=
  match k with
  | drive_stamp => 0 | drive_left_ticks => 1 | drive_right_ticks => 2
  | drive_left_speed_ticks_per_s => 3 | drive_right_speed_ticks_per_s => 4
  | drive_bump1 => 5 | drive_bump2 => 6
  | fsr_stamp => 7 | fsr_left => 8 | fsr_right => 9
  | gripper_stamp => 10 | gripper_position => 11
  | linear_stamp => 12 | linear_position => 13 | linear_has_error => 14
  | linear_is_homed => 15 | linear_is_active => 16
  | battery_stamp => 17 | battery_current => 18 | battery_voltage => 19
  | tilter_stamp => 20 | tilter_position => 21
  end%nat.

(** [msg.field = v] *)
Definition assign (k : Slot) (v : Val) : M unit :=
  modify (fun s =>
    set_msgs (fun k' => if (slot_index k' =? slot_index k)%nat then v else msgs s k') s).

(** [pub.publish(msg)]: the message's fields as they are now. *)
Definition publish (t : Topic) (fields : list Slot) : M unit :=
  modify (fun s => set_published ((t, map (msgs s) fields) :: published s) s).

Definition drive_msg : list Slot :=
  [drive_stamp; drive_left_ticks; drive_right_ticks; drive_left_speed_ticks_per_s;
   drive_right_speed_ticks_per_s; drive_bump1; drive_bump2].
Definition fsr_msg : list Slot := [fsr_stamp; fsr_left; fsr_right].
Definition gripper_msg : list Slot := [gripper_stamp; gripper_position].
Definition linear_msg : list Slot :=
  [linear_stamp; linear_position; linear_has_error; linear_is_homed; linear_is_active].
Definition battery_msg : list Slot := [battery_stamp; battery_current; battery_voltage].
Definition tilter_msg : list Slot := [tilter_stamp; tilter_position].

(** [robotState->field = v] *)
Definition set_state_time_ms (v : Z) (r : StructRobotState) : StructRobotState :=
  {| state_time_ms := v; is_active := is_active r; battery_ok := battery_ok r;
     motors_active := motors_active r; loop_rate := loop_rate r |}.
Definition set_is_active (v : bool) (r : StructRobotState) : StructRobotState :=
  {| state_time_ms := state_time_ms r; is_active := v; battery_ok := battery_ok r;
     motors_active := motors_active r; loop_rate := loop_rate r |}.
Definition set_battery_ok (v : bool) (r : StructRobotState) : StructRobotState :=
  {| state_time_ms := state_time_ms r; is_active := is_active r; battery_ok := v;
     motors_active := motors_active r; loop_rate := loop_rate r |}.
Definition set_motors_active (v : bool) (r : StructRobotState) : StructRobotState :=
  {| state_time_ms := state_time_ms r; is_active := is_active r;
     battery_ok := battery_ok r; motors_active := v; loop_rate := loop_rate r |}.
Definition set_loop_rate (v : cdouble) (r : StructRobotState) : StructRobotState :=
  {| state_time_ms := state_time_ms r; is_active := is_active r;
     battery_ok := battery_ok r; motors_active := motors_active r; loop_rate := v |}.

Definition on_robotState (f : StructRobotState -> StructRobotState) : M unit :=
  modify (fun s => set_robotState (f (robotState s)) s).

(** [readyState->field = v] *)
Definition set_robot_name (v : str) (r : StructReadyState) : StructReadyState :=
  {| robot_name := v; is_ready := is_ready r; ready_time_ms := ready_time_ms r |}.
Definition set_is_ready (v : bool) (r : StructReadyState) : StructReadyState :=
  {| robot_name := robot_name r; is_ready := v; ready_time_ms := ready_time_ms r |}.
Definition set_ready_time_ms (v : Z) (r : StructReadyState) : StructReadyState :=
  {| robot_name := robot_name r; is_ready := is_ready r; ready_time_ms := v |}.

Definition on_readyState (f : StructReadyState -> StructReadyState) : M unit :=
  modify (fun s => set_readyState (f (readyState s)) s).

Definition logPacketErrorCode (error_code packet_num : Z) : M unit :=
  log WARN (PacketReturnedError packet_num) ;;
  if (1 <=? error_code) && (error_code <=? 8)
  then log WARN (PacketErrorReason error_code)
  else ret tt.

Definition parseDrive : M unit :=
  void_call (
    CHECK_SEGMENT ;; t <- seg_stol ;; stamp <- getDeviceTime (u32 t) ;;
      assign drive_stamp (VStamp stamp) ;;
    CHECK_SEGMENT ;; v <- seg_stol ;; assign drive_left_ticks (VInt v) ;;
    CHECK_SEGMENT ;; v <- seg_stol ;; assign drive_right_ticks (VInt v) ;;
    CHECK_SEGMENT ;; f <- seg_stof ;; assign drive_left_speed_ticks_per_s (VFloat f) ;;
    CHECK_SEGMENT ;; f <- seg_stof ;; assign drive_right_speed_ticks_per_s (VFloat f) ;;
    publish drive_pub drive_msg).

Definition parseBumper : M unit :=
  void_call (
    CHECK_SEGMENT ;; t <- seg_stol ;; stamp <- getDeviceTime (u32 t) ;;
      assign drive_stamp (VStamp stamp) ;;
    CHECK_SEGMENT ;; v <- seg_stol ;; assign drive_bump1 (VInt v) ;;
    CHECK_SEGMENT ;; v <- seg_stol ;; assign drive_bump2 (VInt v) ;;
    publish bumper_pub drive_msg).

Definition parseFSR : M unit :=
  void_call (
    CHECK_SEGMENT ;; t <- seg_stol ;; stamp <- getDeviceTime (u32 t) ;;
      assign fsr_stamp (VStamp stamp) ;;
    CHECK_SEGMENT ;; v <- seg_stoi ;; assign fsr_left (VInt (u16 v)) ;;
    CHECK_SEGMENT ;; v <- seg_stoi ;; assign fsr_right (VInt (u16 v)) ;;
    publish fsr_pub fsr_msg).

Definition parseGripper : M unit :=
  void_call (
    CHECK_SEGMENT ;; t <- seg_stol ;; stamp <- getDeviceTime (u32 t) ;;
      assign gripper_stamp (VStamp stamp) ;;
    CHECK_SEGMENT ;; v <- seg_stoi ;; assign gripper_position (VInt v) ;;
    publish gripper_pub gripper_msg).

Definition parseLinear : M unit :=
  void_call (
    CHECK_SEGMENT ;; t <- seg_stol ;; stamp <- getDeviceTime (u32 t) ;;
      assign linear_stamp (VStamp stamp) ;;
    CHECK_SEGMENT ;; v <- seg_stoi ;; assign linear_position (VInt (u16 v)) ;;
    CHECK_SEGMENT ;; v <- seg_stoi ;; assign linear_has_error (VBool (to_bool v)) ;;
    CHECK_SEGMENT ;; v <- seg_stoi ;; assign linear_is_homed (VBool (to_bool v)) ;;
    CHECK_SEGMENT ;; v <- seg_stoi ;; assign linear_is_active (VBool (to_bool v)) ;;
    publish linear_pub linear_msg).

Definition parseBattery : M unit :=
  void_call (
    CHECK_SEGMENT ;; t <- seg_stol ;; stamp <- getDeviceTime (u32 t) ;;
      assign battery_stamp (VStamp stamp) ;;
    CHECK_SEGMENT ;; f <- seg_stof ;; assign battery_current (VFloat f) ;;
    CHECK_SEGMENT ;;
    CHECK_SEGMENT ;; f <- seg_stof ;; assign battery_voltage (VFloat f) ;;
    voltage <- gets (fun s => msgs s battery_voltage) ;;
    current <- gets (fun s => msgs s battery_current) ;;
    log_throttle 3 INFO (VoltageCurrent voltage current) ;;
    publish battery_pub battery_msg).

Definition parseTilter : M unit :=
  void_call (
    CHECK_SEGMENT ;; t <- seg_stol ;; stamp <- getDeviceTime (u32 t) ;;
      assign tilter_stamp (VStamp stamp) ;;
    CHECK_SEGMENT ;; v <- seg_stoi ;; assign tilter_position (VInt v) ;;
    publish tilter_pub tilter_msg).

Definition processSerialPacket (category : str) : M unit :=
  void_call (
    if str_eqb category (lit "txrx") then
      CHECK_SEGMENT ;; n <- seg_stol ;; let packet_num := u64 n in
      CHECK_SEGMENT ;; error_code <- seg_stoi ;;
      if negb (error_code =? 0) then logPacketErrorCode error_code packet_num
      else ret tt
    else if str_eqb category (lit "state") then
      CHECK_SEGMENT ;; v <- seg_stoi ;; on_robotState (set_state_time_ms (u32 v)) ;;
      CHECK_SEGMENT ;; v <- seg_stoi ;; on_robotState (set_is_active (to_bool v)) ;;
      CHECK_SEGMENT ;; v <- seg_stoi ;; on_robotState (set_battery_ok (to_bool v)) ;;
      CHECK_SEGMENT ;; v <- seg_stoi ;; on_robotState (set_motors_active (to_bool v)) ;;
      CHECK_SEGMENT ;; f <- seg_stof ;; on_robotState (set_loop_rate (double_of_float f))
    else if str_eqb category (lit "enc") then parseDrive
    else if str_eqb category (lit "bump") then parseBumper
    else if str_eqb category (lit "fsr") then parseFSR
    else if str_eqb category (lit "grip") then parseGripper
    else if str_eqb category (lit "linear") then parseLinear
    else if str_eqb category (lit "batt") then parseBattery
    else if str_eqb category (lit "tilt") then parseTilter
    else if str_eqb category (lit "ready") then
      CHECK_SEGMENT ;; v <- seg_stoi ;; on_readyState (set_ready_time_ms (u32 v)) ;;
      CHECK_SEGMENT ;; name <- gets _currentBufferSegment ;;
        on_readyState (set_robot_name name) ;;
      on_readyState (set_is_ready true) ;;
      log INFO (ReceivedReady name)
    else ret tt).

(** ** Frame receiver and packet validator *)

(** The checksum loops:
    [for (index = lo; index < hi; index++) calc_checksum += (uint8_t) buf.at(index);] *)
Definition checksum_loop (buf : str) (lo hi : nat) : Z :=
  fold_left (fun calc_checksum index => u8 (calc_checksum + byte_val (nth index buf NUL)))
    (seq lo (hi - lo)) 0.

Fixpoint waitForPacketStart_loop (fuel : nat) (wait_time : Z) (c2 : ascii)
    (msg_buffer : str) : M bool :=
  match fuel with
  | O => running
  | S fuel =>
      t <- now ;;
      if t - wait_time >? wait_timeout then ret false
      else
        n <- available ;;
        if (n <? 2)%nat then waitForPacketStart_loop fuel wait_time c2 msg_buffer
        else
          c1 <- read1 ;;
          if ascii_eqb c1 PACKET_START_0 then
            c2 <- read1 ;;
            if ascii_eqb c2 PACKET_START_1 then ret true
            else waitForPacketStart_loop fuel wait_time c2 msg_buffer
          else if ascii_eqb c1 PACKET_STOP || ascii_eqb c2 PACKET_STOP then
            log INFO (DeviceMessage msg_buffer) ;;
            ret false
          else waitForPacketStart_loop fuel wait_time c2 (msg_buffer ++ [c1])
  end.

Definition waitForPacketStart (fuel : nat) : M bool :=
  wait_time <- now ;;
  c2 <- gets uninit_c2 ;;
  waitForPacketStart_loop fuel wait_time c2 [].

(** The loop of [readSerial] that fills [_recvCharBuffer] up to the stop
    byte; [recv] is the buffer's content so far, its length [_recvCharIndex]. *)
Fixpoint readSerial_accumulate (fuel : nat) (recv : str) : M str :=
  match fuel with
  | O => running
  | S fuel =>
      n <- available ;;
      if (0 <? n)%nat then
        c <- read1 ;;
        if ascii_eqb c PACKET_STOP then
          if (length recv <? RECV_BUFFER_SIZE)%nat then ret recv else overrun
        else if (length recv <? RECV_BUFFER_SIZE)%nat
             then readSerial_accumulate fuel (recv ++ [c])
             else overrun
      else readSerial_accumulate fuel recv
  end.

(** The end of [readSerial], from [string category = _currentBufferSegment]
    on: the checksum is removed and the packet is processed. *)
Definition readSerial_dispatch (category : str) : M bool :=
  modify (fun s => set_serialBuffer
    (substr (_serialBuffer s) 0 (length (_serialBuffer s) - 2)) s) ;;
  processed <- try_catch (processSerialPacket category ;; ret true)
                 (fun e => log ERROR (ProcessPacketException e) ;; ret false) ;;
  if processed then
    incr_readPacketNum ;;
    ret true
  else ret false.

(** [readSerial] from the conversion of the received characters to
    [_serialBuffer] on. *)
Definition readSerial_decode (recv : str) : M bool :=
  modify (set_serialBuffer (c_str recv)) ;;
  buffer <- gets _serialBuffer ;;
  if (length buffer <? 5)%nat then
    log ERROR (InvalidLength buffer) ;;
    incr_readPacketNum ;;
    ret false
  else
    modify (set_serialBufferIndex 0) ;;
    let calc_checksum := checksum_loop buffer 0 (length buffer - 2) in
    match stoul 16 (substr_from buffer (length buffer - 2)) with
    | inl e =>
        log ERROR (ChecksumParseFailed buffer e) ;;
        ret false
    | inr v =>
        let recv_checksum := u16 v in
        if negb (calc_checksum =? recv_checksum) then
          log ERROR (ChecksumFailed calc_checksum recv_checksum) ;;
          log ERROR (BufferDump buffer) ;;
          incr_readPacketNum ;;
          ret false
        else
          found <- getNextSegment ;;
          if negb found then
            log ERROR PacketNumSegmentMissing ;;
            incr_readPacketNum ;;
            ret false
          else
            n <- seg_stoi ;;
            let recv_packet_num := u32 n in
            local <- gets _readPacketNum ;;
            (if negb (recv_packet_num =? local) then
               log ERROR (PacketNumMismatch recv_packet_num local) ;;
               log ERROR (BufferDump buffer) ;;
               modify (set_readPacketNum recv_packet_num)
             else ret tt) ;;
            found <- getNextSegment ;;
            if negb found then
              log ERROR (CategorySegmentMissing buffer) ;;
              incr_readPacketNum ;;
              ret false
            else
              category <- gets _currentBufferSegment ;;
              readSerial_dispatch category
    end.

Definition readSerial (fuel : nat) : M bool :=
  started <- waitForPacketStart fuel ;;
  if negb started then ret false
  else
    recv <- readSerial_accumulate fuel [] ;;
    readSerial_decode recv.

(** ** Frame encoder *)

(** One character of the format string with the argument it takes from the
    variable argument list. *)
Inductive Arg : Type :=
| ArgD (i : Z)
| ArgU (u : Z)
| ArgS (s : str)
| ArgF (f : cdouble)
| ArgInvalid (c : ascii).

Fixpoint writeSerial_formats (formats : list Arg) (sstream : str) : M str :=
  match formats with
  | [] => ret sstream
  | a :: formats =>
      let sstream := sstream ++ [TAB] in
      match a with
      | ArgD i => writeSerial_formats formats (sstream ++ put_int i)
      | ArgU u => writeSerial_formats formats (sstream ++ put_unsigned u)
      | ArgS s => writeSerial_formats formats (sstream ++ c_str s)
      | ArgF f => writeSerial_formats formats (sstream ++ put_fixed4 f)
      | ArgInvalid c =>
          log ERROR (InvalidFormat c) ;;
          writeSerial_formats formats sstream
      end
  end.

(** [writeSerial] on a port whose [write] is the operation [write]. *)
Definition writeSerial_through (write : str -> M unit) (name : str) (formats : list Arg)
    : M unit :=
  num <- gets _writePacketNum ;;
  let sstream := [PACKET_START_0; PACKET_START_1] ++ put_unsigned num ++ [TAB] ++ name in
  sstream <- writeSerial_formats formats sstream ;;
  let packet := sstream in
  let calc_checksum := checksum_loop packet 2 (length packet) in
  let sstream := if calc_checksum <? 16 then sstream ++ lit "0" else sstream in
  let sstream := sstream ++ put_hex calc_checksum in
  let sstream := sstream ++ [PACKET_STOP] in
  let packet := sstream in
  write packet ;;
  incr_writePacketNum.

Definition writeSerial (name : str) (formats : list Arg) : M unit :=
  writeSerial_through serial_write name formats.

(** ** Readiness handshake *)

Fixpoint checkReady_loop (fuel : nat) (begin_time write_time : Z) : M unit :=
  match fuel with
  | O => running
  | S fuel =>
      ready <- gets (fun s => is_ready (readyState s)) ;;
      if ready then ret tt
      else
        alive <- ok ;;
        if negb alive then ret tt
        else
          t <- now ;;
          if t - begin_time >? general_timeout then throw ReadyTimeoutException
          else
            t <- now ;;
            write_time <-
              (if t - write_time >? write_timeout then
                 log INFO WritingSignalAgain ;;
                 writeSerial (lit "?") [ArgS (lit "dodobot")] ;;
                 now
               else ret write_time) ;;
            n <- available ;;
            (if (2 <? n)%nat then readSerial fuel ;; ret tt else ret tt) ;;
            checkReady_loop fuel begin_time write_time
  end.

Definition checkReady (fuel : nat) : M unit :=
  log INFO CheckingReady ;;
  begin_time <- now ;;
  write_time <- now ;;
  writeSerial (lit "?") [ArgS (lit "dodobot")] ;;
  checkReady_loop fuel begin_time write_time ;;
  ready <- gets (fun s => is_ready (readyState s)) ;;
  if ready then
    t <- gets (fun s => ready_time_ms (readyState s)) ;;
    setStartTime t ;;
    name <- gets (fun s => robot_name (readyState s)) ;;
    log INFO (DeviceIsReady name)
  else log ERROR NoReadySignal.

(** ** Driving loop *)

Definition setActive (state : bool) : M unit :=
  if state then writeSerial (lit "<>") [ArgD 1] else writeSerial (lit "<>") [ArgD 0].

Definition setReporting (state : bool) : M unit :=
  if state then writeSerial (lit "[]") [ArgD 1] else writeSerial (lit "[]") [ArgD 0].

(** [setup] once the port is open. *)
Definition setup (fuel : nat) : M unit :=
  checkReady fuel ;;
  setActive true ;;
  setReporting true.

(** [while (_serialRef.available()) readSerial();] *)
Fixpoint loop_drain (fuel : nat) : M unit :=
  match fuel with
  | O => running
  | S fuel =>
      n <- available ;;
      if (0 <? n)%nat then readSerial fuel ;; loop_drain fuel else ret tt
  end.

Definition loop (fuel : nat) : M unit :=
  n <- available ;;
  (if (2 <? n)%nat then loop_drain fuel else ret tt) ;;
  num <- gets _readPacketNum ;;
  log_throttle 15 INFO (ReadPacketNum num).

(** The [while (ros::ok())] of [run]; the value is [exit_code]. *)
Fixpoint run_loop (fuel : nat) : M Z :=
  match fuel with
  | O => running
  | S fuel =>
      alive <- ok ;;
      if negb alive then ret 0
      else
        completed <- try_catch (loop fuel ;; ret true)
                       (fun e => log ERROR (MainLoopException e) ;; ret false) ;;
        if completed then run_loop fuel else ret 1
  end.

Definition run (fuel : nat) : M Z :=
  setup fuel ;;
  run_loop fuel.

End Model.

Arguments Ret {FM A} a s.
Arguments Throw {FM A} e s.
Arguments Leave {FM A} s.
Arguments Running {FM A} s.
Arguments Overrun {FM A} s.

Notation "x <- c ;; k" := (bind c (fun x => k))
  (at level 61, c at next level, right associativity) : bridge_scope.
Notation "c ;; k" := (bind c (fun _ => k))
  (at level 61, right associativity) : bridge_scope.
Open Scope bridge_scope.

(** ** The protocol as described, and states to run the bridge from *)

(** Characters that can travel inside one segment of a frame: no separator,
    no stop marker and no string terminator. *)
Definition wire_safe (c : ascii) : bool :=
  negb (ascii_eqb c TAB) && negb (ascii_eqb c PACKET_STOP) && negb (ascii_eqb c NUL).

Definition is_decimal_digit (c : ascii) : bool :=
  (48 <=? byte_val c) && (byte_val c <=? 57).

(** *** The digits of the wire format, written out

    Nothing here is shared with the stream output the encoder calls or with
    the conversions the validator calls. *)

(** A hexadecimal digit, lower case. *)
Definition hex_digit_of (d : Z) : ascii :=
  nth (Z.to_nat d) (lit "0123456789abcdef") "0"%char.

(** A byte as two hexadecimal digits, zero-padded below 0x10. *)
Definition two_hex_digits (c : Z) : str := [hex_digit_of (c / 16); hex_digit_of (c mod 16)].



(** The number a text of decimal digits stands for. *)
Definition decimal_value (t : str) : Z :=
  fold_left (fun a c => 10 * a + (byte_val c - 48)) t 0.

(** [t] is the decimal numeral of [n]: digits only, at least one, no leading
    zero except for zero itself. *)
Definition is_numeral (n : Z) (t : str) : bool :=
  match t with
  | [] => false
  | c :: rest =>
      forallb is_decimal_digit t
      && (negb (ascii_eqb c "0") || match rest with [] => true | _ => false end)
      && (decimal_value t =? n)
  end.

(** The numeral of a signed number: a minus sign before the numeral of the
    magnitude when it is negative. *)
Definition is_signed_numeral (i : Z) (t : str) : bool :=
  if i <? 0 then
    match t with
    | c :: u => ascii_eqb c "-" && is_numeral (- i) u
    | [] => false
    end
  else is_numeral i t.

(** [t] is what a C string [s] holds: the characters before its first NUL. *)
Definition is_c_string_of (s t : str) : bool :=
  forallb (fun c => negb (ascii_eqb c NUL)) t
  && str_eqb (firstn (length t) s) t
  && match nth_error s (length t) with
     | None => true
     | Some c => ascii_eqb c NUL
     end.

Section Described.
Context {FM : FloatModel}.

(** The state in which a call ends, however it ends. *)
Definition state_of {A : Type} (r : res A) : State :=
  match r with
  | Ret _ s | Throw _ s | Leave s | Running s | Overrun s => s
  end.

(** A call leaves an observation [f] of the state as it found it. *)
Definition keeps {X A : Type} (f : State -> X) (m : M A) : Prop :=
  forall s, f (state_of (m s)) = f s.

(** The packets handed to the serial port, oldest first. *)
Definition written (s : State) : list str := rev (map fst (serial_tx s)).

(** Sum of the characters of a text as unsigned bytes. *)
Definition sum_bytes (l : str) : Z := fold_right (fun c acc => byte_val c + acc) 0 l.

(** A byte as two hexadecimal digits, zero-padded. *)
Definition hex2 (c : Z) : str := [digit_char (c / 16); digit_char (c mod 16)].

(** The formatted text of a tagged argument. *)
Definition arg_text (a : Arg) : str :=
  match a with
  | ArgD i => put_int i
  | ArgU u => put_unsigned u
  | ArgS s => c_str s
  | ArgF f => put_fixed4 f
  | ArgInvalid _ => []
  end.

(** The log after the format string was gone through: one line for each
    character that is no format. *)
Fixpoint format_errors (formats : list Arg) (lines : list (Level * LogLine))
    : list (Level * LogLine) :=
  match formats with
  | [] => lines
  | ArgInvalid c :: formats => format_errors formats ((ERROR, InvalidFormat c) :: lines)
  | _ :: formats => format_errors formats lines
  end.

(** Section 4.7: sequence number, separator, command name, then for each
    argument a separator followed by its formatted text. *)
Definition described_payload (num : Z) (name : str) (args : list Arg) : str :=
  put_unsigned num ++ [TAB] ++ name ++ concat (map (fun a => TAB :: arg_text a) args).

(** Section 4.7: two start-marker bytes, the payload, a two-hex-digit
    checksum over every byte after the start markers, the stop marker. *)
Definition described_frame (num : Z) (name : str) (args : list Arg) : str :=
  [PACKET_START_0; PACKET_START_1]
    ++ described_payload num name args
    ++ hex2 (sum_bytes (described_payload num name args) mod 256)
    ++ [PACKET_STOP].

(** An argument holds a value of its tag's type. *)
Definition fits_tag (a : Arg) : bool :=
  match a with
  | ArgD i => (INT_MIN <=? i) && (i <=? INT_MAX)
  | ArgU u => (0 <=? u) && (u <? 2 ^ 32)
  | _ => true
  end.

(** Section 4.7 in its own words: [t] is the formatted text of the argument.
    The text of a float is the model's. *)
Definition described_arg (a : Arg) (t : str) : bool :=
  match a with
  | ArgD i => is_signed_numeral i t
  | ArgU u => is_numeral u t
  | ArgS s => is_c_string_of s t
  | ArgF f => str_eqb t (put_fixed4 f)
  | ArgInvalid _ => match t with [] => true | _ => false end
  end.

Fixpoint described_args (args : list Arg) (texts : list str) : bool :=
  match args, texts with
  | [], [] => true
  | a :: args, t :: texts => described_arg a t && described_args args texts
  | _, _ => false
  end.

(** The frame around a sequence number text, a name and argument texts. *)
Definition frame_of (num_text name : str) (texts : list str) : str :=
  let payload := num_text ++ TAB :: name ++ concat (map (fun t => TAB :: t) texts) in
  [PACKET_START_0; PACKET_START_1]
    ++ payload ++ two_hex_digits (sum_bytes payload mod 256) ++ [PACKET_STOP].

Definition is_described_frame (num : Z) (name : str) (args : list Arg) (frame : str)
    : Prop :=
  exists num_text texts,
    is_numeral num num_text = true
    /\ described_args args texts = true
    /\ frame = frame_of num_text name texts.

(** The tokenizer's variables after it has handed out [segment] and moved
    the cursor to [index]. *)
Definition advanced (s : State) (segment : str) (index : nat) : State :=
  set_serialBufferIndex index
    (set_currentBufferSegment segment
       (set_currentSegmentNum (_currentSegmentNum s + 1) s)).

(** The read counter after the received packet number was compared with it. *)
Definition resynced (recv_packet_num : Z) (s : State) : State :=
  if recv_packet_num =? _readPacketNum s then s
  else set_readPacketNum recv_packet_num
         (set_ros_log ((ERROR, BufferDump (_serialBuffer s))
                         :: (ERROR, PacketNumMismatch recv_packet_num (_readPacketNum s))
                         :: ros_log s) s).

(** [readSerial] from the search for the category segment on. *)
Definition readSerial_category (buffer : str) : M bool :=
  found <- getNextSegment ;;
  if negb found then
    log ERROR (CategorySegmentMissing buffer) ;;
    incr_readPacketNum ;;
    ret false
  else
    category <- gets _currentBufferSegment ;;
    readSerial_dispatch category.

(** The value a call returns, if it returns. *)
Definition returned {A : Type} (r : res A) : option A :=
  match r with
  | Ret a _ => Some a
  | _ => None
  end.

(** The readiness probe with sequence number [num]. *)
Definition probe_frame (num : Z) : str :=
  described_frame num (lit "?") [ArgS (lit "dodobot")].

(** From [s] to [s'] the port was handed probes and nothing else. *)
Definition probes_added (s s' : State) : Prop :=
  exists later,
    serial_tx s' = later ++ serial_tx s
    /\ Forall (fun p => exists num, fst p = probe_frame num) later.

Definition sends_probes {A : Type} (m : M A) : Prop :=
  forall s, probes_added s (state_of (m s)).

(** Segments on the wire: joined by the separator. *)
Fixpoint joined (texts : list str) : str :=
  match texts with
  | [] => []
  | [t] => t
  | t :: rest => t ++ TAB :: joined rest
  end.

(** A text that travels as one segment: not empty, no separator in it. *)
Definition segment_text (t : str) : bool :=
  match t with
  | [] => false
  | _ => forallb (fun c => negb (ascii_eqb c TAB)) t
  end.

(** The tokenizer's buffer is [pre ++ rest] with the cursor between them. *)
Definition at_cursor (s : State) (pre rest : str) : Prop :=
  _serialBuffer s = pre ++ rest /\ _serialBufferIndex s = length pre.

(** The integer fields of a state packet, in wire order, with the
    assignment each one gets. *)
Definition state_field_setters : list (Z -> StructRobotState -> StructRobotState) :=
  [ (fun v => set_state_time_ms (u32 v));
    (fun v => set_is_active (to_bool v));
    (fun v => set_battery_ok (to_bool v));
    (fun v => set_motors_active (to_bool v)) ].

(** The device state after the leading fields [vals] were stored. *)
Definition store_leading (vals : list Z) (r : StructRobotState) : StructRobotState :=
  fold_left (fun r fv => fst fv (snd fv) r) (combine state_field_setters vals) r.

(** The tokenizer's buffer with the checksum removed. *)
Definition stripped (s : State) : State :=
  set_serialBuffer (substr (_serialBuffer s) 0 (length (_serialBuffer s) - 2)) s.


(** The frame a call of the encoder handed to the port. *)
Definition sent_frame (r : res unit) : str :=
  match serial_tx (state_of r) with
  | (packet, _) :: _ => packet
  | [] => []
  end.

(** The first tab-separated segment of a text. *)
Definition first_segment (buffer : str) : str :=
  match find_char TAB 0 buffer with
  | Some k => substr buffer 0 k
  | None => buffer
  end.

(** The two trailing characters of a payload and what precedes them. *)
Definition checksum_field (buffer : str) : str := substr_from buffer (length buffer - 2).
Definition checksummed_part (buffer : str) : str := firstn (length buffer - 2) buffer.

(** The bridge as its constructor leaves it, on a port holding [rx], with a
    clock, a shutdown flag, a port behaviour and a log throttle;
    [robotState->time_ms] and the local [c2] are not initialised and start
    with the given values. *)
Definition DodobotSerialBridge (rx : str) (clock : nat -> Z) (alive : nat -> bool)
    (accepts : str -> nat) (throttle : nat -> bool) (time_ms0 : Z) (c2 : ascii) : State :=
  {| _serialBuffer := []; _serialBufferIndex := 0; _currentBufferSegment := [];
     _currentSegmentNum := -1; _readPacketNum := 0; _writePacketNum := 0;
     readyState := {| robot_name := []; is_ready := false; ready_time_ms := 0 |};
     robotState := {| state_time_ms := time_ms0; is_active := false;
                      battery_ok := false; motors_active := false;
                      loop_rate := double_zero |};
     deviceStartTime := clock O; offsetTimeMs := 0;
     msgs := fun _ => VUnset; published := []; ros_log := [];
     serial_rx := rx; serial_tx := []; serial_accepts := accepts;
     ros_time := clock; time_reads := 1; ros_ok := alive; ok_reads := 0;
     throttle_open := throttle; throttle_asked := 0;
     uninit_c2 := c2 |}.

End Described.

(** A bridge whose clock advances by one millisecond per reading, that is
    never shut down, whose port takes every byte, and on which a throttled
    line is let through the first time and held back from then on. *)
Definition bench (rx : str) : @State text_floats :=
  @DodobotSerialBridge text_floats rx (fun k => Z.of_nat k * 1000000) (fun _ => true)
    (@length ascii) (fun k => Nat.eqb k 0) 0 NUL.

(** A payload followed by its checksum as the device appends it. *)
Definition with_checksum (payload : str) : str :=
  payload ++ hex2 (sum_bytes payload mod 256).

Definition tabbed (fields : list string) : str :=
  match fields with
  | [] => []
  | f :: rest => lit f ++ concat (map (fun g => TAB :: lit g) rest)
  end.

(** A frame on the wire. *)
Definition framed (payload : str) : str :=
  [PACKET_START_0; PACKET_START_1] ++ payload ++ [PACKET_STOP].

(** Frames used below. *)

(** A state frame numbered 7 and complete, as the device sends it. *)
Definition state_frame_7 : str :=
  with_checksum (tabbed ["7"; "state"; "1500"; "1"; "1"; "1"; "30.5"]%string).

(** A frame numbered 5 whose state decode meets a segment that is no number. *)
Definition state_frame_5_bad : str :=
  framed (with_checksum (tabbed ["5"; "state"; "x"]%string)).

(** The same frame numbered 0, the number a new bridge expects. *)
Definition state_frame_0_bad : str :=
  framed (with_checksum (tabbed ["0"; "state"; "x"]%string)).

(** A frame with a valid checksum whose first segment is no number. *)
Definition frame_without_number : str :=
  framed (with_checksum (tabbed ["ab"; "state"; "1"]%string)).

(** A state frame numbered 0 that stops after its second field. *)
Definition state_frame_short : str :=
  with_checksum (tabbed ["0"; "state"; "1500"; "1"]%string).

(** A bridge about to decode the two fields ["1500"] and ["1"]. *)
Definition bench_at_fields : @State text_floats :=
  set_serialBuffer (tabbed ["1500"; "1"]%string) (bench []).

(** A ready frame as the encoder writes it, with a device time of 1500 and
    with one of 3000000000. *)
Definition ready_args (t : Z) : list (@Arg text_floats) := [ArgU t; ArgS (lit "dodo")].

Definition ready_frame (t : Z) : str :=
  sent_frame (writeSerial (lit "ready") (ready_args t) (bench [])).

(** A gripper frame as the encoder writes it, with the same device time. *)
Definition grip_frame (t : Z) : str :=
  sent_frame (writeSerial (lit "grip") [ArgU t; ArgD 5] (bench [])).

(** ** The command side of the bridge and a consumer of the tokenizer *)

Section Commands.
Context {FM : FloatModel}.

Definition motorsReady : M bool :=
  gets (fun s => is_ready (readyState s) && is_active (robotState s)
                 && motors_active (robotState s)).

Definition robotReady : M bool := gets (fun s => is_ready (readyState s)).

(** The warnings of the command functions, [ROS_WARN("Motors aren't ready!
    Skipping ...")] and [ROS_WARN("Robot isn't ready! Skipping ...")]; a
    command function returns the warnings it wrote. *)
Inductive Warning : Type :=
| MotorsNotReady (skipping : string)
| RobotNotReady (skipping : string).

(** [writeTilter(uint8_t command, uint8_t position)] *)
Definition writeTilter (command position : Z) : M (list Warning) :=
  let command := u8 command in
  let position := u8 position in
  ready <- motorsReady ;;
  if negb ready then ret [MotorsNotReady "writeTilter"]
  else if command <=? 2 then
    writeSerial (lit "tilter") [ArgD command] ;; ret []
  else
    writeSerial (lit "tilter") [ArgD command; ArgD position] ;; ret [].

(** [writeGripper(uint8_t command, uint8_t force_threshold)] *)
Definition writeGripper (command force_threshold : Z) : M (list Warning) :=
  let command := u8 command in
  let force_threshold := u8 force_threshold in
  ready <- motorsReady ;;
  if negb ready then ret [MotorsNotReady "writeGripper"]
  else if command =? 0 then
    writeSerial (lit "grip") [ArgD command] ;; ret []
  else
    writeSerial (lit "grip") [ArgD command; ArgD force_threshold] ;; ret [].

(** [writeDriveChassis(float speedA, float speedB)]; a [float] among the
    variable arguments is passed as a [double]. *)
Definition writeDriveChassis (speedA speedB : cfloat) : M (list Warning) :=
  ready <- motorsReady ;;
  if negb ready then ret [MotorsNotReady "writeDriveChassis"]
  else
    writeSerial (lit "drive")
      [ArgF (double_of_float speedA); ArgF (double_of_float speedB)] ;;
    ret [].

Definition writeK (kp_A ki_A kd_A kp_B ki_B kd_B speed_kA speed_kB : cfloat)
    : M (list Warning) :=
  ready <- robotReady ;;
  if negb ready then ret [RobotNotReady "writeK"]
  else
    writeSerial (lit "ks") [ArgD 0; ArgF (double_of_float kp_A)] ;;
    writeSerial (lit "ks") [ArgD 1; ArgF (double_of_float ki_A)] ;;
    writeSerial (lit "ks") [ArgD 2; ArgF (double_of_float kd_A)] ;;
    writeSerial (lit "ks") [ArgD 3; ArgF (double_of_float kp_B)] ;;
    writeSerial (lit "ks") [ArgD 4; ArgF (double_of_float ki_B)] ;;
    writeSerial (lit "ks") [ArgD 5; ArgF (double_of_float kd_B)] ;;
    writeSerial (lit "ks") [ArgD 6; ArgF (double_of_float speed_kA)] ;;
    writeSerial (lit "ks") [ArgD 7; ArgF (double_of_float speed_kB)] ;;
    ret [].

Definition softRestart : M unit := writeSerial (lit "<>") [ArgD 2].

(** A consumer of the tokenizer, as the parsers are one: segments are taken
    until [getNextSegment] finds none. *)
Fixpoint remaining_segments (fuel : nat) : M (list str) :=
  match fuel with
  | O => running
  | S fuel =>
      found <- getNextSegment ;;
      if found then
        segment <- gets _currentBufferSegment ;;
        rest <- remaining_segments fuel ;;
        ret (segment :: rest)
      else ret []
  end.

(** The segments a consumer gets out of the text [joined texts]: an empty
    text at the end is not one of them. *)
Definition delivered (texts : list str) : list str :=
  match last texts [TAB] with
  | [] => removelast texts
  | _ => texts
  end.

Definition tab_free (t : str) : bool := forallb (fun c => negb (ascii_eqb c TAB)) t.

(** A byte of a plain line of text from the device: neither the first
    start marker nor the stop marker. *)
Definition line_char (c : ascii) : bool :=
  negb (ascii_eqb c PACKET_START_0) && negb (ascii_eqb c PACKET_STOP).

(** A call ends by returning or by throwing a standard exception. *)
Definition returns_or_throws {A : Type} (r : res A) : Prop :=
  match r with
  | Ret _ _ | Throw (Std _) _ => True
  | _ => False
  end.

(** As [returns_or_throws], or by a bare [return;]. *)
Definition ends_in_function {A : Type} (r : res A) : Prop :=
  match r with
  | Ret _ _ | Throw (Std _) _ | Leave _ => True
  | _ => False
  end.

Definition stays_in_function {A : Type} (m : M A) : Prop :=
  forall s, ends_in_function (m s).

Definition returns_or_throws_always {A : Type} (m : M A) : Prop :=
  forall s, returns_or_throws (m s).

(** The categories [processSerialPacket] knows. *)
Definition known_categories : list str :=
  map lit ["txrx"; "state"; "enc"; "bump"; "fsr"; "grip"; "linear"; "batt"; "tilt";
           "ready"]%string.

Definition is_hex_digit (c : ascii) : bool :=
  match digit_val 16 c with Some _ => true | None => false end.

(** The last two characters of a text. *)
Fixpoint last_two (l : str) : option (ascii * ascii) :=
  match l with
  | [] => None
  | [_] => None
  | [a; b] => Some (a, b)
  | _ :: t => last_two t
  end.

(** A call keeps a property of the state that held when it began. *)
Definition preserves {A : Type} (P : State -> Prop) (m : M A) : Prop :=
  forall s, P s -> P (state_of (m s)).

(** The gains a call of [writeK] sends, in the order it sends them. *)
Definition gain_frames (num : Z) (gains : list cfloat) : list str :=
  map (fun ik => described_frame (wrap PACKET_NUM_BITS (num + Z.of_nat (fst ik)))
                   (lit "ks") [ArgD (Z.of_nat (fst ik)); ArgF (double_of_float (snd ik))])
      (combine (seq 0 (length gains)) gains).

(** Since [s0] nothing was read off the port, the device was not reported
    ready and the clock offset was not set. *)
Definition unanswered (s0 s : State) : Prop :=
  is_ready (readyState s) = false
  /\ serial_rx s = serial_rx s0
  /\ deviceStartTime s = deviceStartTime s0
  /\ offsetTimeMs s = offsetTimeMs s0.

(** A call of the handshake that ends, by returning, by the timeout or with
    its step budget, and has had no answer. *)
Definition ends_unanswered {A : Type} (s0 : State) (r : res A) : Prop :=
  match r with
  | Ret _ s' | Throw ReadyTimeoutException s' | Running s' => unanswered s0 s'
  | _ => False
  end.

End Commands.

(** A bridge that has seen the ready packet and a state packet with the
    device active and its motors on. *)
Definition bench_motors_on : @State text_floats :=
  set_robotState
    {| state_time_ms := 0; is_active := true; battery_ok := true;
       motors_active := true; loop_rate := @double_zero text_floats |}
    (set_readyState
       {| robot_name := lit "dodo"; is_ready := true; ready_time_ms := 0 |}
       (bench [])).

(** A bridge about to decode the given fields. *)
Definition bench_at (fields : list string) : @State text_floats :=
  set_serialBuffer (tabbed fields) (bench []).

(** An idle bridge on which [ros::ok()] is true [n] times and then false. *)
Definition bench_until (n : nat) : @State text_floats :=
  @DodobotSerialBridge text_floats [] (fun k => Z.of_nat k * 1000000)
    (fun i => (i <? n)%nat) (@length ascii) (fun k => Nat.eqb k 0) 0 NUL.

(** A frame body that fills the receive buffer. *)
Definition long_body : str := repeat "a"%char RECV_BUFFER_SIZE.


(** * Properties *)

(** ** Arithmetic of bytes and checksums *)

Lemma byte_val_range (c : ascii) : 0 <= byte_val c < 256.
Proof.
  unfold byte_val. pose proof (N_ascii_bounded c) as H. lia.
Qed.

Lemma wrap_range (w z : Z) : 0 <= w -> 0 <= wrap w z < 2 ^ w.
Proof.
  intros Hw. unfold wrap. apply Z.mod_pos_bound. apply Z.pow_pos_nonneg; lia.
Qed.

Lemma wrap_small (w z : Z) : 0 <= z < 2 ^ w -> wrap w z = z.
Proof.
  intros H. unfold wrap. apply Z.mod_small; assumption.
Qed.

Lemma sum_bytes_app (a b : str) : sum_bytes (a ++ b) = sum_bytes a + sum_bytes b.
Proof.
  induction a as [|c a IH]; simpl; [reflexivity | rewrite IH; lia].
Qed.

Lemma sum_bytes_nonneg (a : str) : 0 <= sum_bytes a.
Proof.
  induction a as [|c a IH]; simpl; [lia | pose proof (byte_val_range c); lia].
Qed.

(** The checksum loop over a stretch of the buffer adds up its bytes
    modulo 256. *)
Lemma checksum_fold (body pre post : str) (acc : Z) :
  fold_left
    (fun calc index => u8 (calc + byte_val (nth index (pre ++ body ++ post) NUL)))
    (seq (length pre) (length body)) acc
  = if (length body =? 0)%nat then acc else (acc + sum_bytes body) mod 256.
Proof.
  revert pre acc. induction body as [|c body IH]; intros pre acc.
  - reflexivity.
  - cbn [length seq fold_left Nat.eqb].
    rewrite app_nth2 by lia. rewrite Nat.sub_diag. cbn [app nth].
    replace (pre ++ c :: body ++ post) with ((pre ++ [c]) ++ body ++ post)
      by (rewrite <- app_assoc; reflexivity).
    replace (S (length pre)) with (length (pre ++ [c]))
      by (rewrite length_app; simpl; lia).
    rewrite IH. cbn [sum_bytes fold_right]. fold (sum_bytes body).
    unfold u8, wrap. change (2 ^ 8) with 256.
    destruct body as [|c' body']; cbn [length Nat.eqb].
    + cbn [sum_bytes fold_right]. f_equal. lia.
    + rewrite Zplus_mod_idemp_l. f_equal. lia.
Qed.

Lemma checksum_loop_sum (pre body post : str) :
  checksum_loop (pre ++ body ++ post) (length pre) (length pre + length body)
  = sum_bytes body mod 256.
Proof.
  unfold checksum_loop.
  replace (length pre + length body - length pre)%nat with (length body) by lia.
  rewrite checksum_fold. destruct body; reflexivity.
Qed.

Lemma checksum_loop_tail (pre body : str) :
  checksum_loop (pre ++ body) (length pre) (length (pre ++ body))
  = sum_bytes body mod 256.
Proof.
  rewrite length_app.
  rewrite <- (app_nil_r body) at 1. apply checksum_loop_sum.
Qed.

Lemma checksum_loop_front (buffer : str) :
  checksum_loop buffer 0 (length buffer - 2)
  = sum_bytes (checksummed_part buffer) mod 256.
Proof.
  unfold checksummed_part.
  pose proof (checksum_loop_sum [] (firstn (length buffer - 2) buffer)
                (skipn (length buffer - 2) buffer)) as H.
  cbn [app length Nat.add] in H. rewrite firstn_skipn in H.
  rewrite length_firstn in H.
  replace (Nat.min (length buffer - 2) (length buffer)) with (length buffer - 2)%nat
    in H by lia.
  exact H.
Qed.

(** Facts about the bytes below 256, checked one by one. *)
Lemma below_256 (P : Z -> bool) :
  forallb P (map Z.of_nat (seq 0 256)) = true ->
  forall c, 0 <= c < 256 -> P c = true.
Proof.
  intros H c Hc. rewrite forallb_forall in H. apply H.
  apply in_map_iff. exists (Z.to_nat c). split; [lia|].
  apply in_seq. lia.
Qed.

Lemma hex_padding (c : Z) :
  0 <= c < 256 ->
  (if c <? 16 then lit "0" else []) ++ put_hex c = hex2 c.
Proof.
  intros Hc.
  pose proof (below_256
    (fun c => str_eqb ((if c <? 16 then lit "0" else []) ++ put_hex c) (hex2 c))) as H.
  specialize (H ltac:(vm_compute; reflexivity) c Hc). cbv beta in H.
  unfold str_eqb in H. destruct (list_eq_dec _ _ _) as [E|]; [exact E | discriminate].
Qed.

Lemma stoul_hex2 (c : Z) : 0 <= c < 256 -> stoul 16 (hex2 c) = inr c.
Proof.
  intros Hc.
  pose proof (below_256
    (fun c => match stoul 16 (hex2 c) with inr v => v =? c | inl _ => false end)) as H.
  specialize (H ltac:(vm_compute; reflexivity) c Hc). cbv beta in H.
  destruct (stoul 16 (hex2 c)) as [|v]; [discriminate|].
  apply Z.eqb_eq in H. congruence.
Qed.

(** ** Frame encoder *)

Section Encoder.
Context {FM : FloatModel}.

Lemma set_ros_log_same (s : State) : set_ros_log (ros_log s) s = s.
Proof. destruct s; reflexivity. Qed.

(** The loop over the format string appends, for each argument, a separator
    and the argument's text; it touches nothing but the log. *)
Lemma writeSerial_formats_text (formats : list Arg) :
  forall (sstream : str) (s : State),
    writeSerial_formats formats sstream s
    = Ret (sstream ++ concat (map (fun a => TAB :: arg_text a) formats))
          (set_ros_log (format_errors formats (ros_log s)) s).
Proof.
  induction formats as [|a formats IH]; intros sstream s.
  - cbn. rewrite app_nil_r, set_ros_log_same. reflexivity.
  - cbn [writeSerial_formats map concat format_errors].
    assert (Happ : forall t : str,
      sstream ++ (TAB :: t) ++ concat (map (fun a => TAB :: arg_text a) formats)
      = ((sstream ++ [TAB]) ++ t) ++ concat (map (fun a => TAB :: arg_text a) formats)).
    { intros t. repeat rewrite <- app_assoc. reflexivity. }
    destruct a as [i|u|t|f|c]; cbn [arg_text]; try (rewrite IH, Happ; reflexivity).
    unfold bind, log, modify. rewrite IH, (Happ []), app_nil_r. reflexivity.
Qed.

(** What one call of the encoder does to the bridge. *)
Lemma writeSerial_effect (name : str) (args : list Arg) (s : State) :
  writeSerial name args s
  = Ret tt
      (set_writePacketNum (wrap PACKET_NUM_BITS (_writePacketNum s + 1))
         (set_serial_tx
            ((described_frame (_writePacketNum s) name args,
              serial_accepts s (described_frame (_writePacketNum s) name args))
               :: serial_tx s)
            (set_ros_log (format_errors args (ros_log s)) s))).
Proof.
  unfold writeSerial, writeSerial_through.
  unfold bind at 1. unfold gets at 1. cbv beta iota.
  unfold bind at 1. rewrite writeSerial_formats_text. cbv beta iota.
  set (payload := described_payload (_writePacketNum s) name args).
  assert (Hpacket :
    ([PACKET_START_0; PACKET_START_1] ++ put_unsigned (_writePacketNum s)
       ++ [TAB] ++ name) ++ concat (map (fun a => TAB :: arg_text a) args)
    = [PACKET_START_0; PACKET_START_1] ++ payload).
  { unfold payload, described_payload. repeat rewrite <- app_assoc. reflexivity. }
  rewrite Hpacket.
  pose proof (checksum_loop_tail [PACKET_START_0; PACKET_START_1] payload) as Hsum.
  change (length [PACKET_START_0; PACKET_START_1]) with 2%nat in Hsum.
  rewrite Hsum.
  set (c := sum_bytes payload mod 256).
  assert (Hc : 0 <= c < 256) by (apply Z.mod_pos_bound; lia).
  assert (Hframe :
    ((if c <? 16
      then ([PACKET_START_0; PACKET_START_1] ++ payload) ++ lit "0"
      else [PACKET_START_0; PACKET_START_1] ++ payload) ++ put_hex c) ++ [PACKET_STOP]
    = described_frame (_writePacketNum s) name args).
  { unfold described_frame. fold payload. fold c.
    rewrite <- (hex_padding c Hc).
    destruct (c <? 16); repeat rewrite <- app_assoc; reflexivity. }
  rewrite Hframe. reflexivity.
Qed.

End Encoder.

(** ** What the receiving side leaves alone *)

Section Frame.
Context {FM : FloatModel}.
Context {X : Type} (f : State -> X).

Lemma keeps_ret {A : Type} (a : A) : keeps f (ret a).
Proof. intros s; reflexivity. Qed.

Lemma keeps_throw {A : Type} (e : thrown) : keeps f (@throw _ A e).
Proof. intros s; reflexivity. Qed.

Lemma keeps_leave {A : Type} : keeps f (@leave _ A).
Proof. intros s; reflexivity. Qed.

Lemma keeps_running {A : Type} : keeps f (@running _ A).
Proof. intros s; reflexivity. Qed.

Lemma keeps_overrun {A : Type} : keeps f (@overrun _ A).
Proof. intros s; reflexivity. Qed.

Lemma keeps_gets {A : Type} (g : State -> A) : keeps f (gets g).
Proof. intros s; reflexivity. Qed.

Lemma keeps_bind {A B : Type} (m : M A) (k : A -> M B) :
  keeps f m -> (forall a, keeps f (k a)) -> keeps f (bind m k).
Proof.
  intros Hm Hk s. unfold bind. specialize (Hm s).
  destruct (m s) as [a s'| | | |]; simpl in *; try assumption.
  rewrite Hk. assumption.
Qed.

Lemma keeps_modify (g : State -> State) :
  (forall s, f (g s) = f s) -> keeps f (modify g).
Proof. intros H s. apply H. Qed.

Lemma keeps_lift {A : Type} (r : exn + A) : keeps f (lift r).
Proof. destruct r; intros s; reflexivity. Qed.

Lemma keeps_void_call (m : M unit) : keeps f m -> keeps f (void_call m).
Proof.
  intros H s. unfold void_call. specialize (H s).
  destruct (m s); simpl in *; assumption.
Qed.

Lemma keeps_try_catch {A : Type} (m : M A) (h : exn -> M A) :
  keeps f m -> (forall e, keeps f (h e)) -> keeps f (try_catch m h).
Proof.
  intros Hm Hh s. unfold try_catch. specialize (Hm s).
  destruct (m s) as [| [e|] s' | | |]; simpl in *; try assumption.
  rewrite Hh. assumption.
Qed.

Ltac keeps_step :=
  cbv zeta;
  match goal with
  | |- keeps _ (bind _ _) => apply keeps_bind; [| intros ?]
  | |- keeps _ (ret _) => apply keeps_ret
  | |- keeps _ (throw _) => apply keeps_throw
  | |- keeps _ leave => apply keeps_leave
  | |- keeps _ running => apply keeps_running
  | |- keeps _ overrun => apply keeps_overrun
  | |- keeps _ (gets _) => apply keeps_gets
  | |- keeps _ (lift _) => apply keeps_lift
  | |- keeps _ (void_call _) => apply keeps_void_call
  | |- keeps _ (try_catch _ _) => apply keeps_try_catch; [| intros ?]
  | |- keeps _ (if ?b then _ else _) => destruct b
  | |- keeps _ (match ?x with _ => _ end) => destruct x
  | H : keeps _ ?m |- keeps _ ?m => exact H
  | H : forall a, keeps _ (?m a) |- keeps _ (?m _) => apply H
  | H : forall a b, keeps _ (?m a b) |- keeps _ (?m _ _) => apply H
  | H : forall a b c, keeps _ (?m a b c) |- keeps _ (?m _ _ _) => apply H
  end.

(** The tokenizer and the dispatcher write the tokenizer's variables, the
    device states, the messages and the log. *)
Hypothesis f_serialBuffer : forall v s, f (set_serialBuffer v s) = f s.
Hypothesis f_serialBufferIndex : forall v s, f (set_serialBufferIndex v s) = f s.
Hypothesis f_currentBufferSegment : forall v s, f (set_currentBufferSegment v s) = f s.
Hypothesis f_currentSegmentNum : forall v s, f (set_currentSegmentNum v s) = f s.
Hypothesis f_readyState : forall v s, f (set_readyState v s) = f s.
Hypothesis f_robotState : forall v s, f (set_robotState v s) = f s.
Hypothesis f_msgs : forall v s, f (set_msgs v s) = f s.
Hypothesis f_published : forall v s, f (set_published v s) = f s.
Hypothesis f_ros_log : forall v s, f (set_ros_log v s) = f s.
Hypothesis f_throttle_asked : forall v s, f (set_throttle_asked v s) = f s.

Ltac f_setters :=
  repeat first
    [ rewrite f_serialBuffer | rewrite f_serialBufferIndex
    | rewrite f_currentBufferSegment | rewrite f_currentSegmentNum
    | rewrite f_readyState | rewrite f_robotState | rewrite f_msgs
    | rewrite f_published | rewrite f_ros_log | rewrite f_throttle_asked ].

Lemma keeps_log (l : Level) (line : LogLine) : keeps f (log l line).
Proof. apply keeps_modify. intros s. f_setters. reflexivity. Qed.

Lemma keeps_log_throttle (period : Z) (l : Level) (line : LogLine) :
  keeps f (log_throttle period l line).
Proof.
  intros s. unfold log_throttle. cbv zeta.
  destruct (throttle_open s (throttle_asked s)); cbn [state_of]; f_setters; reflexivity.
Qed.

Lemma keeps_getNextSegment : keeps f getNextSegment.
Proof.
  intros s. unfold getNextSegment.
  destruct (_ <=? _)%nat; [simpl; f_setters; reflexivity|].
  destruct (find_char _ _ _); simpl; f_setters; reflexivity.
Qed.

Lemma keeps_CHECK_SEGMENT : keeps f CHECK_SEGMENT.
Proof.
  unfold CHECK_SEGMENT, getSegmentNum.
  pose proof keeps_getNextSegment. pose proof keeps_log.
  repeat keeps_step.
Qed.

Lemma keeps_getDeviceTime (t : Z) : keeps f (getDeviceTime t).
Proof. intros s. reflexivity. Qed.

Lemma keeps_assign (k : Slot) (v : Val) : keeps f (assign k v).
Proof. apply keeps_modify. intros s. f_setters. reflexivity. Qed.

Lemma keeps_publish (t : Topic) (l : list Slot) : keeps f (publish t l).
Proof. apply keeps_modify. intros s. f_setters. reflexivity. Qed.

Lemma keeps_on_robotState (g : StructRobotState -> StructRobotState) :
  keeps f (on_robotState g).
Proof. apply keeps_modify. intros s. f_setters. reflexivity. Qed.

Lemma keeps_on_readyState (g : StructReadyState -> StructReadyState) :
  keeps f (on_readyState g).
Proof. apply keeps_modify. intros s. f_setters. reflexivity. Qed.

Ltac keeps_parser :=
  pose proof keeps_CHECK_SEGMENT; pose proof keeps_log; pose proof keeps_getDeviceTime;
  pose proof keeps_assign; pose proof keeps_publish; pose proof keeps_on_robotState;
  pose proof keeps_on_readyState; pose proof keeps_log_throttle;
  unfold seg_stoi, seg_stol, seg_stof, logPacketErrorCode;
  repeat keeps_step.

Lemma keeps_parseDrive : keeps f parseDrive.
Proof. unfold parseDrive. keeps_parser. Qed.

Lemma keeps_parseBumper : keeps f parseBumper.
Proof. unfold parseBumper. keeps_parser. Qed.

Lemma keeps_parseFSR : keeps f parseFSR.
Proof. unfold parseFSR. keeps_parser. Qed.

Lemma keeps_parseGripper : keeps f parseGripper.
Proof. unfold parseGripper. keeps_parser. Qed.

Lemma keeps_parseLinear : keeps f parseLinear.
Proof. unfold parseLinear. keeps_parser. Qed.

Lemma keeps_parseBattery : keeps f parseBattery.
Proof. unfold parseBattery. keeps_parser. Qed.

Lemma keeps_parseTilter : keeps f parseTilter.
Proof. unfold parseTilter. keeps_parser. Qed.

(** The dispatcher leaves alone whatever these writes leave alone: the
    sequence counters, the serial port, the clock. *)
Lemma keeps_processSerialPacket (category : str) : keeps f (processSerialPacket category).
Proof.
  unfold processSerialPacket.
  pose proof keeps_parseDrive. pose proof keeps_parseBumper. pose proof keeps_parseFSR.
  pose proof keeps_parseGripper. pose proof keeps_parseLinear.
  pose proof keeps_parseBattery. pose proof keeps_parseTilter.
  keeps_parser.
Qed.

(** The receiver and the validator also read the port and the clock and
    advance the read counter. *)
Hypothesis f_readPacketNum : forall v s, f (set_readPacketNum v s) = f s.
Hypothesis f_serial_rx : forall v s, f (set_serial_rx v s) = f s.
Hypothesis f_time_reads : forall v s, f (set_time_reads v s) = f s.

Lemma keeps_incr_readPacketNum : keeps f incr_readPacketNum.
Proof. apply keeps_modify. intros s. apply f_readPacketNum. Qed.

Lemma keeps_now : keeps f now.
Proof. intros s. simpl. apply f_time_reads. Qed.

Lemma keeps_available : keeps f available.
Proof. intros s. reflexivity. Qed.

Lemma keeps_read1 : keeps f read1.
Proof.
  intros s. unfold read1. destruct (serial_rx s); simpl; [reflexivity|].
  apply f_serial_rx.
Qed.

Lemma keeps_waitForPacketStart_loop (fuel : nat) :
  forall wait_time c2 msg_buffer,
    keeps f (waitForPacketStart_loop fuel wait_time c2 msg_buffer).
Proof.
  pose proof keeps_now. pose proof keeps_available. pose proof keeps_read1.
  pose proof keeps_log.
  induction fuel as [|fuel IH]; intros wait_time c2 msg_buffer;
    cbn [waitForPacketStart_loop]; repeat keeps_step.
Qed.

Lemma keeps_waitForPacketStart (fuel : nat) : keeps f (waitForPacketStart fuel).
Proof.
  unfold waitForPacketStart.
  pose proof keeps_now. pose proof (keeps_waitForPacketStart_loop fuel).
  repeat keeps_step.
Qed.

Lemma keeps_readSerial_accumulate (fuel : nat) :
  forall recv, keeps f (readSerial_accumulate fuel recv).
Proof.
  pose proof keeps_available. pose proof keeps_read1.
  induction fuel as [|fuel IH]; intros recv;
    cbn [readSerial_accumulate]; repeat keeps_step.
Qed.

Lemma keeps_readSerial_dispatch (category : str) : keeps f (readSerial_dispatch category).
Proof.
  unfold readSerial_dispatch.
  pose proof keeps_processSerialPacket. pose proof keeps_log.
  pose proof keeps_incr_readPacketNum.
  repeat keeps_step.
  apply keeps_modify. intros s. apply f_serialBuffer.
Qed.

Lemma keeps_readSerial_decode (recv : str) : keeps f (readSerial_decode recv).
Proof.
  unfold readSerial_decode, seg_stoi.
  pose proof keeps_readSerial_dispatch. pose proof keeps_log.
  pose proof keeps_incr_readPacketNum. pose proof keeps_getNextSegment.
  repeat keeps_step;
    apply keeps_modify; intros s;
    first [apply f_serialBuffer | apply f_serialBufferIndex | apply f_readPacketNum].
Qed.

Lemma keeps_readSerial (fuel : nat) : keeps f (readSerial fuel).
Proof.
  unfold readSerial.
  pose proof (keeps_waitForPacketStart fuel). pose proof (keeps_readSerial_accumulate fuel).
  pose proof keeps_readSerial_decode.
  repeat keeps_step.
Qed.

End Frame.

(** ** Segment tokenizer *)

Lemma skipn_length_app (pre rest : str) : skipn (length pre) (pre ++ rest) = rest.
Proof. induction pre; simpl; auto. Qed.

Lemma firstn_length_app (a b : str) : firstn (length a) (a ++ b) = a.
Proof. induction a; simpl; [destruct b|]; congruence. Qed.

Lemma ascii_eqb_refl (c : ascii) : ascii_eqb c c = true.
Proof. apply Ascii.eqb_refl. Qed.

Lemma ascii_eqb_neq (a b : ascii) : a <> b -> ascii_eqb a b = false.
Proof. intros H. apply Ascii.eqb_neq. assumption. Qed.

Lemma find_char_here (c : ascii) (seg rest : str) :
  ~ In c seg -> find_char c 0 (seg ++ c :: rest) = Some (length seg).
Proof.
  induction seg as [|x seg IH]; intros Hin; simpl.
  - rewrite ascii_eqb_refl. reflexivity.
  - rewrite ascii_eqb_neq by (intros ->; apply Hin; left; reflexivity).
    rewrite IH by (intros H; apply Hin; right; assumption). reflexivity.
Qed.

Lemma find_char_absent (c : ascii) (seg : str) :
  ~ In c seg -> find_char c 0 seg = None.
Proof.
  induction seg as [|x seg IH]; intros Hin; simpl; [reflexivity|].
  rewrite ascii_eqb_neq by (intros ->; apply Hin; left; reflexivity).
  rewrite IH by (intros H; apply Hin; right; assumption). reflexivity.
Qed.

Lemma find_char_skip (c : ascii) (pre rest : str) :
  find_char c (length pre) (pre ++ rest)
  = option_map (Nat.add (length pre)) (find_char c 0 rest).
Proof.
  induction pre as [|x pre IH]; simpl.
  - destruct (find_char c 0 rest); reflexivity.
  - rewrite IH. destruct (find_char c 0 rest); reflexivity.
Qed.

Section Tokenizer.
Context {FM : FloatModel}.

(** With a separator ahead, the segment is the text up to it and the cursor
    moves past it. *)
Lemma getNextSegment_field (s : State) (pre seg rest : str) :
  _serialBuffer s = pre ++ seg ++ TAB :: rest ->
  _serialBufferIndex s = length pre ->
  ~ In TAB seg ->
  getNextSegment s = Ret true (advanced s seg (length pre + length seg + 1)).
Proof.
  intros Hb Hi Hseg. unfold getNextSegment. rewrite Hb, Hi.
  replace (length (pre ++ seg ++ TAB :: rest) <=? length pre)%nat with false
    by (symmetry; apply Nat.leb_gt; repeat rewrite length_app; simpl; lia).
  rewrite find_char_skip, find_char_here by assumption.
  cbn [option_map _serialBuffer _serialBufferIndex set_currentSegmentNum].
  rewrite Hb, Hi. unfold advanced, substr.
  rewrite skipn_length_app.
  replace (length pre + length seg - length pre)%nat with (length seg) by lia.
  rewrite firstn_length_app. reflexivity.
Qed.

(** Without one, the segment is the rest of the text. *)
Lemma getNextSegment_last (s : State) (pre seg : str) :
  _serialBuffer s = pre ++ seg ->
  _serialBufferIndex s = length pre ->
  seg <> [] ->
  ~ In TAB seg ->
  getNextSegment s = Ret true (advanced s seg (length (pre ++ seg))).
Proof.
  intros Hb Hi Hne Hseg. unfold getNextSegment. rewrite Hb, Hi.
  replace (length (pre ++ seg) <=? length pre)%nat with false
    by (symmetry; apply Nat.leb_gt; rewrite length_app; destruct seg;
        [congruence | simpl; lia]).
  rewrite find_char_skip, find_char_absent by assumption.
  cbn [option_map _serialBuffer _serialBufferIndex set_currentSegmentNum].
  rewrite Hb, Hi. unfold advanced, substr_from.
  rewrite skipn_length_app. reflexivity.
Qed.

(** At the end of the text there is no segment. *)
Lemma getNextSegment_none (s : State) :
  (length (_serialBuffer s) <= _serialBufferIndex s)%nat ->
  getNextSegment s = Ret false (set_currentSegmentNum (-1) s).
Proof.
  intros H. unfold getNextSegment.
  replace (length (_serialBuffer s) <=? _serialBufferIndex s)%nat with true
    by (symmetry; apply Nat.leb_le; assumption).
  reflexivity.
Qed.

End Tokenizer.

(** ** Decimal output read back *)

Lemma digit_char_decimal (d : Z) :
  0 <= d < 10 ->
  byte_val (digit_char d) = 48 + d /\ digit_val 10 (digit_char d) = Some d.
Proof.
  intros H.
  assert (C : d = 0 \/ d = 1 \/ d = 2 \/ d = 3 \/ d = 4 \/ d = 5 \/ d = 6 \/ d = 7
              \/ d = 8 \/ d = 9) by lia.
  repeat (destruct C as [-> | C]; [split; reflexivity|]). subst; split; reflexivity.
Qed.

Lemma digits_of_S (base : Z) (fuel : nat) (n : Z) (acc : str) :
  digits_of base (S fuel) n acc
  = if n / base =? 0 then digit_char (n mod base) :: acc
    else digits_of base fuel (n / base) (digit_char (n mod base) :: acc).
Proof. reflexivity. Qed.

Lemma digits_of_decimal (fuel : nat) :
  forall (n : Z) (acc : str),
    0 <= n < 10 ^ Z.of_nat (S fuel) ->
    exists D,
      digits_of 10 (S fuel) n acc = D ++ acc
      /\ D <> []
      /\ Forall (fun c => is_decimal_digit c = true) D
      /\ forall a rest,
           scan_digits_from 10 a (D ++ rest)
           = scan_digits_from 10 (a * 10 ^ Z.of_nat (length D) + n) rest.
Proof.
  induction fuel as [|fuel IH]; intros n acc Hn.
  - change (10 ^ Z.of_nat 1) with 10 in Hn.
    destruct (digit_char_decimal (n mod 10)) as [Hb Hd];
      [apply Z.mod_pos_bound; lia|].
    exists [digit_char (n mod 10)]. cbn [digits_of].
    destruct (n / 10 =? 0); (split; [reflexivity|]); (split; [discriminate|]);
      (split; [constructor; [unfold is_decimal_digit; rewrite Hb;
                 pose proof (Z.mod_pos_bound n 10); lia | constructor]|]);
      intros a rest; cbn [app scan_digits_from length]; rewrite Hd;
      rewrite Z.mod_small by lia; reflexivity.
  - rewrite digits_of_S.
    destruct (digit_char_decimal (n mod 10)) as [Hb Hd];
      [apply Z.mod_pos_bound; lia|].
    destruct (n / 10 =? 0) eqn:Hq.
    + apply Z.eqb_eq in Hq.
      exists [digit_char (n mod 10)].
      split; [reflexivity|]. split; [discriminate|].
      split; [constructor; [unfold is_decimal_digit; rewrite Hb;
                pose proof (Z.mod_pos_bound n 10); lia | constructor]|].
      intros a rest. cbn [app scan_digits_from length]. rewrite Hd.
      f_equal. change (10 ^ Z.of_nat 1) with 10.
      pose proof (Z.div_mod n 10). lia.
    + assert (Hn' : 0 <= n / 10 < 10 ^ Z.of_nat (S fuel)).
      { split; [apply Z.div_pos; lia|].
        apply Z.div_lt_upper_bound; [lia|].
        replace (10 * 10 ^ Z.of_nat (S fuel)) with (10 ^ Z.of_nat (S (S fuel))); [lia|].
        rewrite (Nat2Z.inj_succ (S fuel)), Z.pow_succ_r by lia. reflexivity. }
      destruct (IH (n / 10) (digit_char (n mod 10) :: acc) Hn')
        as (D & HD & Hne & Hall & Hscan).
      exists (D ++ [digit_char (n mod 10)]).
      split; [rewrite HD, <- app_assoc; reflexivity|].
      split; [destruct D; discriminate|].
      split.
      { apply Forall_app. split; [assumption|].
        constructor; [|constructor]. unfold is_decimal_digit. rewrite Hb.
        pose proof (Z.mod_pos_bound n 10). lia. }
      intros a rest. rewrite <- app_assoc. cbn [app].
      rewrite Hscan. cbn [scan_digits_from]. rewrite Hd. f_equal.
      rewrite length_app. cbn [length].
      replace (Z.of_nat (length D + 1)) with (Z.succ (Z.of_nat (length D))) by lia.
      rewrite Z.pow_succ_r by lia.
      pose proof (Z.div_mod n 10). lia.
Qed.

Lemma digit_fuel_enough (n : Z) : 0 <= n -> n < 10 ^ Z.of_nat (digit_fuel n).
Proof.
  intros Hn. unfold digit_fuel.
  rewrite Nat2Z.inj_succ, Z2Nat.id by apply Z.log2_nonneg.
  destruct (Z.eq_dec n 0) as [->|Hz]; [reflexivity|].
  pose proof (Z.log2_spec n ltac:(lia)) as [_ Hlt].
  apply Z.lt_le_trans with (2 ^ Z.succ (Z.log2 n)); [assumption|].
  apply Z.pow_le_mono_l. lia.
Qed.

(** The decimal text of a non-negative number: digits only, at least one,
    and scanning them gives the number back. *)
Lemma put_unsigned_digits (n : Z) :
  0 <= n ->
  put_unsigned n <> []
  /\ Forall (fun c => is_decimal_digit c = true) (put_unsigned n)
  /\ forall a rest,
       scan_digits_from 10 a (put_unsigned n ++ rest)
       = scan_digits_from 10 (a * 10 ^ Z.of_nat (length (put_unsigned n)) + n) rest.
Proof.
  intros Hn. unfold put_unsigned.
  pose proof (digit_fuel_enough n Hn) as Hf. unfold digit_fuel in *.
  destruct (digits_of_decimal (Z.to_nat (Z.log2 n)) n [] (conj Hn Hf))
    as (D & HD & Hne & Hall & Hscan).
  rewrite app_nil_r in HD. rewrite HD. auto.
Qed.









(** ** The encoder's texts are the described ones *)

Lemma two_hex_digits_hex2 (c : Z) : 0 <= c < 256 -> two_hex_digits c = hex2 c.
Proof.
  intros Hc.
  pose proof (below_256 (fun c => str_eqb (two_hex_digits c) (hex2 c))) as H.
  specialize (H ltac:(vm_compute; reflexivity) c Hc). cbv beta in H.
  unfold str_eqb in H. destruct (list_eq_dec _ _ _) as [E|]; [exact E | discriminate].
Qed.

Lemma str_eqb_refl (t : str) : str_eqb t t = true.
Proof. unfold str_eqb. destruct (list_eq_dec _ _ _); [reflexivity | contradiction]. Qed.

(** Scanning a text of decimal digits gives the number it stands for. *)
Lemma scan_decimal_value (t : str) :
  Forall (fun c => is_decimal_digit c = true) t ->
  forall a, scan_digits_from 10 a t
            = fold_left (fun a c => 10 * a + (byte_val c - 48)) t a.
Proof.
  induction t as [|c t IH]; intros Hall a; [reflexivity|].
  pose proof (Forall_inv Hall) as Hc. apply Forall_inv_tail in Hall.
  cbn [scan_digits_from fold_left].
  assert (Hd : digit_val 10 c = Some (byte_val c - 48)).
  { unfold is_decimal_digit in Hc. apply andb_true_iff in Hc. destruct Hc as [H1 H2].
    apply Z.leb_le in H1. apply Z.leb_le in H2.
    unfold digit_val. cbv zeta.
    replace (48 <=? byte_val c) with true by (symmetry; apply Z.leb_le; lia).
    replace (byte_val c <=? 57) with true by (symmetry; apply Z.leb_le; lia).
    cbn [andb].
    replace (byte_val c - 48 <? 10) with true by (symmetry; apply Z.ltb_lt; lia).
    reflexivity. }
  rewrite Hd, (IH Hall). f_equal. lia.
Qed.

(** The first digit the stream writes for a positive number is not a zero. *)
Lemma digits_of_leading (fuel : nat) :
  forall (n : Z) (acc : str),
    0 < n < 10 ^ Z.of_nat (S fuel) ->
    exists c D, digits_of 10 (S fuel) n acc = c :: D /\ c <> "0"%char.
Proof.
  induction fuel as [|fuel IH]; intros n acc Hn.
  - change (10 ^ Z.of_nat 1) with 10 in Hn.
    cbn [digits_of].
    destruct (digit_char_decimal (n mod 10)) as [Hb _];
      [apply Z.mod_pos_bound; lia|].
    rewrite Z.mod_small in Hb by lia.
    assert (Hz : digit_char (n mod 10) <> "0"%char).
    { rewrite Z.mod_small by lia. intros E. rewrite E in Hb.
      change (byte_val "0") with 48 in Hb. lia. }
    destruct (n / 10 =? 0); eexists _, _; (split; [reflexivity | exact Hz]).
  - rewrite digits_of_S.
    destruct (n / 10 =? 0) eqn:Hq.
    + apply Z.eqb_eq in Hq.
      assert (Hs : 0 < n < 10).
      { pose proof (Z.div_mod n 10 ltac:(lia)).
        pose proof (Z.mod_pos_bound n 10 ltac:(lia)). lia. }
      destruct (digit_char_decimal (n mod 10)) as [Hb _];
        [apply Z.mod_pos_bound; lia|].
      eexists _, _. split; [reflexivity|].
      rewrite Z.mod_small in * by lia. intros E. rewrite E in Hb.
      change (byte_val "0") with 48 in Hb. lia.
    + apply Z.eqb_neq in Hq.
      apply IH. split.
      * pose proof (Z.div_pos n 10 ltac:(lia) ltac:(lia)). lia.
      * apply Z.div_lt_upper_bound; [lia|].
        replace (10 * 10 ^ Z.of_nat (S fuel)) with (10 ^ Z.of_nat (S (S fuel))); [lia|].
        rewrite (Nat2Z.inj_succ (S fuel)), Z.pow_succ_r by lia. reflexivity.
Qed.

Lemma put_unsigned_numeral (n : Z) : 0 <= n -> is_numeral n (put_unsigned n) = true.
Proof.
  intros Hn.
  destruct (put_unsigned_digits n Hn) as (Hne & Hall & Hscan).
  specialize (Hscan 0 []). rewrite app_nil_r, Z.mul_0_l, Z.add_0_l in Hscan.
  change (scan_digits_from 10 n []) with n in Hscan.
  rewrite (scan_decimal_value _ Hall) in Hscan.
  assert (Hlead : exists c D, put_unsigned n = c :: D
                              /\ (c <> "0"%char \/ D = [])).
  { destruct (Z.eq_dec n 0) as [->|Hz].
    - eexists _, _. split; [reflexivity | right; reflexivity].
    - unfold put_unsigned, digit_fuel.
      destruct (digits_of_leading (Z.to_nat (Z.log2 n)) n []) as (c & D & E & Hc).
      + pose proof (digit_fuel_enough n Hn) as Hf. unfold digit_fuel in Hf. lia.
      + exists c, D. split; [exact E | left; exact Hc]. }
  destruct Hlead as (c & D & E & Hlead).
  rewrite E in *. unfold is_numeral.
  apply andb_true_iff. split; [apply andb_true_iff; split|].
  - apply forallb_forall. rewrite Forall_forall in Hall. exact Hall.
  - destruct Hlead as [Hc | ->]; [|apply orb_true_r].
    rewrite ascii_eqb_neq by exact Hc. reflexivity.
  - apply Z.eqb_eq. exact Hscan.
Qed.

Lemma put_int_numeral (i : Z) : is_signed_numeral i (put_int i) = true.
Proof.
  unfold is_signed_numeral, put_int. destruct (i <? 0) eqn:Hneg.
  - apply Z.ltb_lt in Hneg. rewrite ascii_eqb_refl.
    apply put_unsigned_numeral. lia.
  - apply Z.ltb_ge in Hneg. apply put_unsigned_numeral. assumption.
Qed.

Lemma str_eqb_cons (c : ascii) (a b : str) :
  str_eqb a b = true -> str_eqb (c :: a) (c :: b) = true.
Proof.
  unfold str_eqb. destruct (list_eq_dec _ a b) as [->|]; [|discriminate].
  intros _. destruct (list_eq_dec _ _ _); [reflexivity | contradiction].
Qed.

Lemma c_str_is_c_string (s : str) : is_c_string_of s (c_str s) = true.
Proof.
  induction s as [|c s IH]; [reflexivity|].
  cbn [c_str]. destruct (ascii_eqb c NUL) eqn:Hc.
  - unfold is_c_string_of. cbn [forallb length firstn nth_error andb].
    rewrite Hc. reflexivity.
  - unfold is_c_string_of in *.
    apply andb_true_iff in IH. destruct IH as [IH H3].
    apply andb_true_iff in IH. destruct IH as [H1 H2].
    cbn [forallb length firstn nth_error]. rewrite Hc, H1, H3.
    rewrite (str_eqb_cons c _ _ H2). reflexivity.
Qed.

Section Described_texts.
Context {FM : FloatModel}.

Lemma arg_text_described (a : Arg) : fits_tag a = true -> described_arg a (arg_text a) = true.
Proof.
  intros H. destruct a as [i|u|t|f|c]; cbn [described_arg arg_text fits_tag] in *.
  - apply put_int_numeral.
  - apply andb_true_iff in H. destruct H as [H _]. apply Z.leb_le in H.
    apply put_unsigned_numeral. assumption.
  - apply c_str_is_c_string.
  - apply str_eqb_refl.
  - reflexivity.
Qed.

Lemma arg_texts_described (args : list Arg) :
  forallb fits_tag args = true -> described_args args (map arg_text args) = true.
Proof.
  induction args as [|a args IH]; intros H; [reflexivity|].
  cbn [forallb] in H. apply andb_true_iff in H. destruct H as [Ha H].
  cbn [map described_args]. rewrite (arg_text_described a Ha), (IH H). reflexivity.
Qed.

(** The frame the encoder hands the port is the frame of section 4.7. *)
Lemma described_frame_is_described (num : Z) (name : str) (args : list Arg) :
  0 <= num ->
  forallb fits_tag args = true ->
  is_described_frame num name args (described_frame num name args).
Proof.
  intros Hn Hargs. exists (put_unsigned num), (map arg_text args).
  split; [apply put_unsigned_numeral; assumption|].
  split; [apply arg_texts_described; assumption|].
  unfold described_frame, frame_of, described_payload. cbv zeta.
  rewrite map_map. cbn [app].
  rewrite two_hex_digits_hex2 by (apply Z.mod_pos_bound; lia).
  reflexivity.
Qed.

(** The encoder on a port whose write throws. *)
Lemma writeSerial_through_failure (name : str) (args : list Arg) (s : State) :
  writeSerial_through serial_write_fails name args s
  = Throw (Std serial_failure) (set_ros_log (format_errors args (ros_log s)) s).
Proof.
  unfold writeSerial_through.
  unfold bind at 1. unfold gets at 1. cbv beta iota.
  unfold bind at 1. rewrite writeSerial_formats_text. cbv beta iota zeta.
  reflexivity.
Qed.

(** C5, as amended: for every command name and every list of arguments
    that hold values of their tags' types, [writeSerial] hands the port the
    two start markers, the decimal numeral of the current write sequence
    number, a separator, the name, a separator and the formatted text for
    each argument, the sum modulo 256 of every byte after the start markers
    as two hexadecimal digits (zero-padded), and the stop marker; and the
    write sequence counter is one more afterwards, whatever count the port
    reports for the transmission.  If the port's write throws, the exception
    leaves the encoder: nothing was handed over and the counter is as it
    was. *)
Theorem writeSerial_frame (name : str) (args : list Arg) (s : State) :
  0 <= _writePacketNum s ->
  forallb fits_tag args = true ->
  (exists s' frame,
      writeSerial name args s = Ret tt s'
      /\ is_described_frame (_writePacketNum s) name args frame
      /\ serial_tx s' = (frame, serial_accepts s frame) :: serial_tx s
      /\ _writePacketNum s' = wrap 64 (_writePacketNum s + 1)
      /\ _readPacketNum s' = _readPacketNum s)
  /\ (exists s',
        writeSerial_through serial_write_fails name args s
        = Throw (Std serial_failure) s'
        /\ serial_tx s' = serial_tx s
        /\ _writePacketNum s' = _writePacketNum s).
Proof.
  intros Hn Hargs. split.
  - rewrite writeSerial_effect. eexists _, _. split; [reflexivity|].
    split; [apply described_frame_is_described; assumption|].
    repeat split; reflexivity.
  - rewrite writeSerial_through_failure. eexists. split; [reflexivity|].
    split; reflexivity.
Qed.

End Described_texts.

(** C5 as stated fails when the transmission fails by an exception: the
    write counter is not incremented. *)
Lemma failed_write_keeps_write_counter :
  ~ (forall (write : str -> M unit) (name : str) (args : list (@Arg text_floats))
            (s : @State text_floats),
        write = serial_write \/ write = serial_write_fails ->
        _writePacketNum (state_of (writeSerial_through write name args s))
        = wrap 64 (_writePacketNum s + 1)).
Proof.
  intros H.
  specialize (H serial_write_fails (lit "?") [ArgS (lit "dodobot")] (bench [])
                ltac:(right; reflexivity)).
  vm_compute in H. discriminate H.
Qed.

Lemma writeSerial_frame_witness :
  exists s' frame,
    @writeSerial text_floats (lit "grip") [ArgU 1500; ArgD (-5)] (bench []) = Ret tt s'
    /\ @is_described_frame text_floats 0 (lit "grip") [ArgU 1500; ArgD (-5)] frame
    /\ serial_tx s' = [(frame, length frame)]
    /\ _writePacketNum s' = 1.
Proof.
  destruct (@writeSerial_frame text_floats (lit "grip") [ArgU 1500; ArgD (-5)] (bench []))
    as [(s' & frame & E & F & T & N & _) _].
  - simpl. lia.
  - reflexivity.
  - exists s', frame. split; [exact E|]. split; [exact F|]. split; [exact T | exact N].
Defined.

(** ** Frame receiver *)

Section Receiver.
Context {FM : FloatModel}.


(** With a start pair at the head of the port's buffer and a clock that has
    not run past the window, the start is found. *)
Lemma waitForPacketStart_found (fuel : nat) (s : State) (rest : str) :
  serial_rx s = PACKET_START_0 :: PACKET_START_1 :: rest ->
  ros_time s (S (time_reads s)) - ros_time s (time_reads s) <= wait_timeout ->
  waitForPacketStart (S fuel) s
  = Ret true (set_serial_rx rest (set_time_reads (S (S (time_reads s))) s)).
Proof.
  intros Hrx Hclock.
  unfold waitForPacketStart. unfold bind at 1, now. unfold bind at 1, gets.
  cbn [waitForPacketStart_loop]. unfold bind at 1, now.
  cbn [ros_time time_reads set_time_reads].
  replace (_ >? wait_timeout) with false
    by (symmetry; rewrite Z.gtb_ltb; apply Z.ltb_ge; lia).
  unfold bind at 1, available, gets. cbn [serial_rx set_time_reads]. rewrite Hrx.
  cbn [length]. replace (S (S _) <? 2)%nat with false by reflexivity.
  unfold bind at 1, read1. cbn [serial_rx set_time_reads]. rewrite Hrx.
  rewrite ascii_eqb_refl.
  unfold bind at 1. cbn [serial_rx set_serial_rx]. rewrite ascii_eqb_refl.
  reflexivity.
Qed.


End Receiver.

(** ** Packet validator *)

Section Validator.
Context {FM : FloatModel}.

Lemma processSerialPacket_keeps_readPacketNum (category : str) :
  keeps _readPacketNum (processSerialPacket category).
Proof. apply keeps_processSerialPacket; intros; reflexivity. Qed.

(** The first segment the tokenizer hands out of a fresh buffer. *)
Lemma getNextSegment_first (s : State) :
  _serialBufferIndex s = 0%nat ->
  (0 < length (_serialBuffer s))%nat ->
  exists index,
    getNextSegment s = Ret true (advanced s (first_segment (_serialBuffer s)) index).
Proof.
  intros Hi Hlen. unfold getNextSegment. rewrite Hi.
  replace (length (_serialBuffer s) <=? 0)%nat with false
    by (symmetry; apply Nat.leb_gt; assumption).
  cbn [_serialBuffer _serialBufferIndex set_currentSegmentNum]. rewrite Hi.
  unfold first_segment, advanced, substr_from, substr.
  destruct (find_char TAB 0 (_serialBuffer s)) as [k|].
  - exists (k + 1)%nat. rewrite Nat.sub_0_r. reflexivity.
  - exists (length (_serialBuffer s)). reflexivity.
Qed.

(** How the end of [readSerial] leaves the read counter. *)
Lemma readSerial_dispatch_counter (category : str) (s s' : State) (r : bool) :
  readSerial_dispatch category s = Ret r s' ->
  if r then _readPacketNum s' = wrap 64 (_readPacketNum s + 1)
  else _readPacketNum s' = _readPacketNum s
       /\ exists e, hd_error (ros_log s') = Some (ERROR, ProcessPacketException e).
Proof.
  unfold readSerial_dispatch.
  cbv [bind try_catch ret incr_readPacketNum modify log].
  set (s1 := set_serialBuffer _ s).
  pose proof (processSerialPacket_keeps_readPacketNum category s1) as Hk.
  destruct (processSerialPacket category s1) as [[] s2|[e|] s2|s2|s2|s2];
    cbn [state_of] in Hk;
    intros H; try discriminate H; inversion H; subst r s'; cbn.
  - rewrite Hk. reflexivity.
  - rewrite Hk. split; [reflexivity | eexists; reflexivity].
Qed.

(** The validator, branch by branch. *)

Lemma decode_short (recv : str) (s : State) :
  (length (c_str recv) < 5)%nat ->
  readSerial_decode recv s
  = Ret false
      (set_readPacketNum (wrap 64 (_readPacketNum s + 1))
         (set_ros_log ((ERROR, InvalidLength (c_str recv)) :: ros_log s)
            (set_serialBuffer (c_str recv) s))).
Proof.
  intros Hlen. unfold readSerial_decode.
  unfold bind at 1, modify at 1. unfold bind at 1, gets at 1.
  cbn [_serialBuffer set_serialBuffer].
  replace (length (c_str recv) <? 5)%nat with true
    by (symmetry; apply Nat.ltb_lt; assumption).
  reflexivity.
Qed.

Lemma decode_checksum_unparsed (recv : str) (s : State) (e : exn) :
  (5 <= length (c_str recv))%nat ->
  stoul 16 (checksum_field (c_str recv)) = inl e ->
  readSerial_decode recv s
  = Ret false
      (set_ros_log ((ERROR, ChecksumParseFailed (c_str recv) e) :: ros_log s)
         (set_serialBufferIndex 0 (set_serialBuffer (c_str recv) s))).
Proof.
  intros Hlen Hparse. unfold readSerial_decode.
  unfold bind at 1, modify at 1. unfold bind at 1, gets at 1.
  cbn [_serialBuffer set_serialBuffer].
  replace (length (c_str recv) <? 5)%nat with false
    by (symmetry; apply Nat.ltb_ge; assumption).
  unfold bind at 1, modify at 1. cbv zeta.
  unfold checksum_field in Hparse. rewrite Hparse.
  reflexivity.
Qed.

Lemma decode_checksum_mismatch (recv : str) (s : State) (v : Z) :
  (5 <= length (c_str recv))%nat ->
  stoul 16 (checksum_field (c_str recv)) = inr v ->
  sum_bytes (checksummed_part (c_str recv)) mod 256 <> u16 v ->
  readSerial_decode recv s
  = Ret false
      (set_readPacketNum (wrap 64 (_readPacketNum s + 1))
         (set_ros_log
            ((ERROR, BufferDump (c_str recv))
               :: (ERROR, ChecksumFailed
                            (sum_bytes (checksummed_part (c_str recv)) mod 256) (u16 v))
               :: ros_log s)
            (set_serialBufferIndex 0 (set_serialBuffer (c_str recv) s)))).
Proof.
  intros Hlen Hparse Hsum. unfold readSerial_decode.
  unfold bind at 1, modify at 1. unfold bind at 1, gets at 1.
  cbn [_serialBuffer set_serialBuffer].
  replace (length (c_str recv) <? 5)%nat with false
    by (symmetry; apply Nat.ltb_ge; assumption).
  unfold bind at 1, modify at 1. cbv zeta.
  unfold checksum_field in Hparse. rewrite Hparse.
  rewrite checksum_loop_front.
  replace (_ =? u16 v) with false by (symmetry; apply Z.eqb_neq; assumption).
  reflexivity.
Qed.

Lemma resynced_readPacketNum (n : Z) (s : State) : _readPacketNum (resynced n s) = n.
Proof.
  unfold resynced. destruct (n =? _readPacketNum s) eqn:E; [|reflexivity].
  apply Z.eqb_eq in E. congruence.
Qed.

Lemma decode_checked_at (recv : str) (s : State) (v : Z) (seg : str) (index : nat) :
  (5 <= length (c_str recv))%nat ->
  stoul 16 (checksum_field (c_str recv)) = inr v ->
  sum_bytes (checksummed_part (c_str recv)) mod 256 = u16 v ->
  getNextSegment (set_serialBufferIndex 0 (set_serialBuffer (c_str recv) s))
  = Ret true
      (advanced (set_serialBufferIndex 0 (set_serialBuffer (c_str recv) s)) seg index) ->
  readSerial_decode recv s
  = match stoi seg with
    | inl e =>
        Throw (Std e)
          (advanced (set_serialBufferIndex 0 (set_serialBuffer (c_str recv) s)) seg index)
    | inr n =>
        readSerial_category (c_str recv)
          (resynced (u32 n)
             (advanced (set_serialBufferIndex 0 (set_serialBuffer (c_str recv) s))
                seg index))
    end.
Proof.
  intros Hlen Hparse Hsum Hseg.
  unfold readSerial_decode.
  unfold bind at 1, modify at 1. unfold bind at 1, gets at 1.
  cbn [_serialBuffer set_serialBuffer].
  replace (length (c_str recv) <? 5)%nat with false
    by (symmetry; apply Nat.ltb_ge; assumption).
  unfold bind at 1, modify at 1. cbv zeta.
  unfold checksum_field in Hparse. rewrite Hparse.
  rewrite checksum_loop_front.
  replace (_ =? u16 v) with true by (symmetry; apply Z.eqb_eq; assumption).
  cbn [negb]. unfold bind at 1. rewrite Hseg. cbn [negb].
  unfold bind at 1, seg_stoi, bind at 1, gets at 1.
  cbn [_currentBufferSegment advanced set_serialBufferIndex set_currentBufferSegment].
  destruct (stoi seg) as [e|n]; [reflexivity|].
  cbn [lift ret]. unfold bind at 1, gets at 1.
  unfold bind at 1.
  unfold resynced, readSerial_category.
  cbn [_readPacketNum advanced set_serialBufferIndex set_currentBufferSegment
       set_currentSegmentNum set_serialBuffer].
  destruct (u32 n =? _readPacketNum s); reflexivity.
Qed.

Lemma decode_checked (recv : str) (s : State) (v : Z) :
  (5 <= length (c_str recv))%nat ->
  stoul 16 (checksum_field (c_str recv)) = inr v ->
  sum_bytes (checksummed_part (c_str recv)) mod 256 = u16 v ->
  exists index,
    readSerial_decode recv s
    = match stoi (first_segment (c_str recv)) with
      | inl e =>
          Throw (Std e)
            (advanced (set_serialBufferIndex 0 (set_serialBuffer (c_str recv) s))
               (first_segment (c_str recv)) index)
      | inr n =>
          readSerial_category (c_str recv)
            (resynced (u32 n)
               (advanced (set_serialBufferIndex 0 (set_serialBuffer (c_str recv) s))
                  (first_segment (c_str recv)) index))
      end.
Proof.
  intros Hlen Hparse Hsum.
  destruct (getNextSegment_first
              (set_serialBufferIndex 0 (set_serialBuffer (c_str recv) s)))
    as [index Hseg]; [reflexivity | cbn; lia |].
  cbn [_serialBuffer set_serialBufferIndex set_serialBuffer] in Hseg.
  exists index. apply (decode_checked_at recv s v _ index); assumption.
Qed.




End Validator.

(** ** The validator on particular frames *)


(** C2 at the failing inputs.  A frame with the expected number 0 and a
    valid checksum whose state field is no number: [std::stoi] throws in the
    dispatcher, the catch logs it and returns false, and the read counter is
    still 0, not 1.  A payload whose last two characters are no hexadecimal
    number: the catch around [std::stoul] returns false, and the read counter
    is still 0, not 1.  A payload with a wrong checksum, for comparison,
    leaves it at 1. *)
Theorem caught_exception_skips_read_counter :
  let r := readSerial 64 (bench state_frame_0_bad) in
  let u := readSerial_decode (lit "123zz") (bench []) in
  let m := readSerial_decode (lit "12345") (bench []) in
  (returned r = Some false
   /\ ros_log (state_of r) = [(ERROR, ProcessPacketException invalid_argument)]
   /\ _readPacketNum (state_of r) = 0)
  /\ (returned u = Some false
      /\ ros_log (state_of u)
         = [(ERROR, ChecksumParseFailed (lit "123zz") invalid_argument)]
      /\ _readPacketNum (state_of u) = 0)
  /\ (returned m = Some false /\ _readPacketNum (state_of m) = 1).
Proof. vm_compute. repeat split; reflexivity. Qed.

(** C3 at the failing input: the local counter is 0 and the frame numbered
    5; the desync and the buffer are logged and the counter set to 5,
    [std::stoi] throws in the dispatcher, the catch logs it and returns false,
    and the counter stays at 5: the next sequence number expected is 5, not
    6. *)
Theorem desync_then_exception_expects_received_number_again :
  let r := readSerial 64 (bench state_frame_5_bad) in
  returned r = Some false
  /\ ros_log (state_of r)
     = [(ERROR, ProcessPacketException invalid_argument);
        (ERROR, BufferDump (with_checksum (tabbed ["5"; "state"; "x"]%string)));
        (ERROR, PacketNumMismatch 5 0)]
  /\ _readPacketNum (state_of r) = 5.
Proof. vm_compute. repeat split; reflexivity. Qed.

(** C4 at the failing input: [std::stoi] throws on the packet number
    segment, nothing in [readSerial] catches it, it reaches the handler in
    [run], and the driving loop ends with exit code 1 although [ros::ok()]
    still holds; the attempt logged nothing of its own and did not advance the
    read counter. *)
Theorem unparsed_packet_number_ends_run :
  let s := bench frame_without_number in
  let r := run_loop 64 s in
  returned r = Some 1
  /\ ros_log (state_of r) = [(ERROR, MainLoopException invalid_argument)]
  /\ _readPacketNum (state_of r) = 0
  /\ ros_ok (state_of r) (ok_reads (state_of r)) = true.
Proof. vm_compute. repeat split; reflexivity. Qed.

(** ** Clock offset *)

Section ClockOffset.
Context {FM : FloatModel}.

(** C10: [getDeviceTime] subtracts the reference device milliseconds from
    the incoming ones in unsigned 32-bit arithmetic: the milliseconds added
    to the host reference are the difference modulo 2^32 and never negative,
    and for a device time below the reference they are 2^32 less the
    distance, so the host time lies after the reference, not before it. *)
Theorem getDeviceTime_wraps (s : State) (time_ms : Z) :
  exists d,
    getDeviceTime time_ms s = Ret d s
    /\ host_reference d = deviceStartTime s
    /\ plus_ms d = (time_ms - offsetTimeMs s) mod 2 ^ 32
    /\ 0 <= plus_ms d < 2 ^ 32
    /\ (0 <= time_ms -> time_ms < offsetTimeMs s -> offsetTimeMs s < 2 ^ 32 ->
        plus_ms d = 2 ^ 32 - (offsetTimeMs s - time_ms) /\ 0 < plus_ms d).
Proof.
  eexists. split; [reflexivity|]. cbn [host_reference plus_ms].
  split; [reflexivity|]. split; [reflexivity|].
  split; [apply Z.mod_pos_bound; lia|].
  intros H0 Hlt Href. unfold wrap, OFFSET_BITS.
  assert (E : (time_ms - offsetTimeMs s) mod 2 ^ 32
              = 2 ^ 32 - (offsetTimeMs s - time_ms)).
  { symmetry. apply Z.mod_unique with (q := -1); lia. }
  rewrite E. lia.
Qed.

End ClockOffset.

(** ** The receiver without a stop byte *)

Section Starved.
Context {FM : FloatModel}.

Lemma no_stop_not_in (payload : str) :
  forallb (fun c => negb (ascii_eqb c PACKET_STOP)) payload = true ->
  ~ In PACKET_STOP payload.
Proof.
  intros H Hin. rewrite forallb_forall in H. specialize (H _ Hin).
  rewrite ascii_eqb_refl in H. discriminate H.
Qed.

(** Once the port's buffer holds no stop byte and nothing further arrives,
    the accumulation loop only polls: it is still running after any number
    of steps. *)
Lemma readSerial_accumulate_starves (fuel : nat) :
  forall (payload recv : str) (s : State),
    serial_rx s = payload ->
    ~ In PACKET_STOP payload ->
    (length recv + length payload <= RECV_BUFFER_SIZE)%nat ->
    exists s', readSerial_accumulate fuel recv s = Running s'.
Proof.
  induction fuel as [|fuel IH]; intros payload recv s Hrx Hstop Hsize.
  - exists s. reflexivity.
  - cbn [readSerial_accumulate]. unfold bind at 1, available, gets. rewrite Hrx.
    destruct payload as [|c payload].
    + cbn [length]. replace (0 <? 0)%nat with false by reflexivity.
      apply (IH [] recv s); assumption.
    + cbn [length]. replace (0 <? S _)%nat with true by reflexivity.
      unfold bind at 1, read1. rewrite Hrx.
      rewrite ascii_eqb_neq by (intros ->; apply Hstop; left; reflexivity).
      replace (length recv <? RECV_BUFFER_SIZE)%nat with true
        by (symmetry; apply Nat.ltb_lt; simpl in Hsize; lia).
      apply (IH payload (recv ++ [c]) (set_serial_rx payload s)).
      * reflexivity.
      * intros H. apply Hstop. right. assumption.
      * rewrite length_app. simpl in *. lia.
Qed.

(** C9 at the failing input: a start pair followed by bytes without a stop
    byte, after which the link is silent.  The start is found within the
    window, and the loop that accumulates the frame, which has no time limit,
    never ends: whatever the number of steps, [readSerial] is still running. *)
Theorem readSerial_without_stop_byte_never_returns
    (fuel : nat) (s : State) (payload : str) :
  serial_rx s = PACKET_START_0 :: PACKET_START_1 :: payload ->
  forallb (fun c => negb (ascii_eqb c PACKET_STOP)) payload = true ->
  (length payload <= RECV_BUFFER_SIZE)%nat ->
  ros_time s (S (time_reads s)) - ros_time s (time_reads s) <= wait_timeout ->
  exists s', readSerial fuel s = Running s'.
Proof.
  intros Hrx Hstop Hsize Hclock. apply no_stop_not_in in Hstop.
  destruct fuel as [|fuel].
  - eexists. reflexivity.
  - unfold readSerial. unfold bind at 1.
    rewrite (waitForPacketStart_found fuel s payload Hrx Hclock). cbn [negb].
    unfold bind at 1.
    destruct (readSerial_accumulate_starves (S fuel) payload []
                (set_serial_rx payload (set_time_reads (S (S (time_reads s))) s)))
      as [s' E]; [reflexivity | assumption | simpl; lia |].
    rewrite E. exists s'. reflexivity.
Qed.

End Starved.

Lemma getDeviceTime_wraps_witness :
  exists d,
    getDeviceTime 500 (set_clock_offset 0 1500 (bench []))
    = Ret d (set_clock_offset 0 1500 (bench []))
    /\ plus_ms d = 4294966296.
Proof.
  destruct (getDeviceTime_wraps (set_clock_offset 0 1500 (bench [])) 500)
    as (d & E & _ & _ & _ & H).
  exists d. split; [exact E|].
  destruct H as [H _]; [lia | simpl; lia | simpl; lia |].
  rewrite H. reflexivity.
Defined.

Lemma readSerial_without_stop_byte_never_returns_witness :
  exists s',
    readSerial 1000 (bench [PACKET_START_0; PACKET_START_1; "a"%char]) = Running s'.
Proof.
  apply (readSerial_without_stop_byte_never_returns 1000
           (bench [PACKET_START_0; PACKET_START_1; "a"%char]) ["a"%char]).
  - reflexivity.
  - reflexivity.
  - unfold RECV_BUFFER_SIZE. simpl. lia.
  - vm_compute. intros X. discriminate X.
Defined.

(** ** Readiness handshake *)

Section Handshake.
Context {FM : FloatModel}.

Lemma probes_added_refl (s : State) : probes_added s s.
Proof. exists []. split; [reflexivity | constructor]. Qed.

Lemma probes_added_trans (s1 s2 s3 : State) :
  probes_added s1 s2 -> probes_added s2 s3 -> probes_added s1 s3.
Proof.
  intros (l1 & E1 & F1) (l2 & E2 & F2). exists (l2 ++ l1). split.
  - rewrite E2, E1, app_assoc. reflexivity.
  - apply Forall_app. split; assumption.
Qed.

Lemma sends_probes_keeps {A : Type} (m : M A) : keeps serial_tx m -> sends_probes m.
Proof.
  intros H s. exists []. split; [apply H | constructor].
Qed.

Lemma sends_probes_bind {A B : Type} (m : M A) (k : A -> M B) :
  sends_probes m -> (forall a, sends_probes (k a)) -> sends_probes (bind m k).
Proof.
  intros Hm Hk s. unfold bind. specialize (Hm s).
  destruct (m s) as [a s'| | | |]; cbn [state_of] in *; try assumption.
  apply probes_added_trans with s'; [assumption | apply Hk].
Qed.

Lemma probe_effect (s : State) :
  writeSerial (lit "?") [ArgS (lit "dodobot")] s
  = Ret tt
      (set_writePacketNum (wrap PACKET_NUM_BITS (_writePacketNum s + 1))
         (set_serial_tx
            ((probe_frame (_writePacketNum s),
              serial_accepts s (probe_frame (_writePacketNum s))) :: serial_tx s) s)).
Proof.
  rewrite writeSerial_effect. cbn [format_errors]. rewrite set_ros_log_same. reflexivity.
Qed.

Lemma sends_probes_probe : sends_probes (writeSerial (lit "?") [ArgS (lit "dodobot")]).
Proof.
  intros s. rewrite probe_effect. cbn [state_of].
  exists [(probe_frame (_writePacketNum s),
           serial_accepts s (probe_frame (_writePacketNum s)))].
  split; [reflexivity|]. constructor; [|constructor]. eexists; reflexivity.
Qed.

Lemma readSerial_keeps_serial_tx (fuel : nat) : keeps serial_tx (readSerial fuel).
Proof. apply keeps_readSerial; intros; reflexivity. Qed.

Lemma checkReady_loop_sends_probes (fuel : nat) :
  forall begin_time write_time,
    sends_probes (checkReady_loop fuel begin_time write_time).
Proof.
  induction fuel as [|fuel IH]; intros begin_time write_time;
    cbn [checkReady_loop].
  - apply sends_probes_keeps. intros s. reflexivity.
  - apply sends_probes_bind; [apply sends_probes_keeps; intros s; reflexivity|].
    intros ready. destruct ready; [apply sends_probes_keeps; intros s; reflexivity|].
    apply sends_probes_bind; [apply sends_probes_keeps; intros s; reflexivity|].
    intros alive. destruct alive; cbn [negb];
      [|apply sends_probes_keeps; intros s; reflexivity].
    apply sends_probes_bind; [apply sends_probes_keeps; intros s; reflexivity|].
    intros t. destruct (_ >? general_timeout);
      [apply sends_probes_keeps; intros s; reflexivity|].
    apply sends_probes_bind; [apply sends_probes_keeps; intros s; reflexivity|].
    intros t'. apply sends_probes_bind.
    { destruct (_ >? write_timeout); [|apply sends_probes_keeps; intros s; reflexivity].
      apply sends_probes_bind; [apply sends_probes_keeps; intros s; reflexivity|].
      intros _. apply sends_probes_bind; [apply sends_probes_probe|].
      intros _. apply sends_probes_keeps; intros s; reflexivity. }
    intros write_time'.
    apply sends_probes_bind; [apply sends_probes_keeps; intros s; reflexivity|].
    intros n. apply sends_probes_bind; [|intros _; apply IH].
    destruct (2 <? n)%nat; [|apply sends_probes_keeps; intros s; reflexivity].
    apply sends_probes_bind;
      [apply sends_probes_keeps, readSerial_keeps_serial_tx
      |intros _; apply sends_probes_keeps; intros s; reflexivity].
Qed.

(** C7, as amended: the first frame [checkReady] hands the port, on entry,
    is the encoding of the command named ["?"] with the single string
    argument ["dodobot"] at the current write sequence number, and every
    frame it hands the port later, on a re-probe, is the encoding of that
    same command. *)
Theorem checkReady_probes (fuel : nat) (s : State) :
  exists later,
    serial_tx (state_of (checkReady fuel s))
    = later
      ++ (described_frame (_writePacketNum s) (lit "?") [ArgS (lit "dodobot")],
          serial_accepts s
            (described_frame (_writePacketNum s) (lit "?") [ArgS (lit "dodobot")]))
      :: serial_tx s
    /\ Forall
         (fun p => exists num,
            fst p = described_frame num (lit "?") [ArgS (lit "dodobot")])
         later.
Proof.
  unfold checkReady. unfold bind at 1, log at 1, modify at 1.
  unfold bind at 1, now. unfold bind at 1, now.
  unfold bind at 1. rewrite probe_effect.
  match goal with
  | |- context [state_of (bind ?m ?k ?s2)] =>
      assert (H : sends_probes (bind m k)); [|destruct (H s2) as (later & E & F)]
  end.
  - apply sends_probes_bind; [apply checkReady_loop_sends_probes|].
    intros _. apply sends_probes_keeps.
    apply keeps_bind; [apply keeps_gets|]. intros ready. destruct ready.
    + apply keeps_bind; [apply keeps_gets|]. intros t.
      apply keeps_bind; [intros x; reflexivity|]. intros _.
      apply keeps_bind; [apply keeps_gets|]. intros name. intros x; reflexivity.
    + intros x; reflexivity.
  - exists later. split; [|exact F]. rewrite E. reflexivity.
Qed.

End Handshake.

(** C7 as stated fails: the frame sent on entry is not the encoding of a
    command named ["s"]; the ["s"] in the call is the format of the argument. *)
Lemma probe_is_not_command_s :
  ~ (forall (fuel : nat) (s : @State text_floats),
        hd [] (written (state_of (checkReady fuel s)))
        = hd [] (written (state_of (writeSerial (lit "s") [ArgS (lit "dodobot")] s)))).
Proof.
  intros H. specialize (H 0%nat (bench [])). vm_compute in H. discriminate H.
Qed.

(** ** Decoding a state packet *)

Section StateDecode.
Context {FM : FloatModel}.

Lemma segment_text_spec (t : str) :
  segment_text t = true -> t <> [] /\ ~ In TAB t.
Proof.
  intros H. destruct t as [|c t]; [discriminate H|].
  split; [discriminate|]. unfold segment_text in H.
  intros Hin. rewrite forallb_forall in H. specialize (H _ Hin).
  rewrite ascii_eqb_refl in H. discriminate H.
Qed.

Lemma CHECK_SEGMENT_field (s : State) (pre seg rest : str) :
  at_cursor s pre (seg ++ TAB :: rest) ->
  ~ In TAB seg ->
  CHECK_SEGMENT s = Ret tt (advanced s seg (length pre + length seg + 1)).
Proof.
  intros [Hb Hi] Hseg. unfold CHECK_SEGMENT, bind.
  rewrite (getNextSegment_field s pre seg rest Hb Hi Hseg). reflexivity.
Qed.

Lemma CHECK_SEGMENT_last (s : State) (pre seg : str) :
  at_cursor s pre seg ->
  seg <> [] ->
  ~ In TAB seg ->
  CHECK_SEGMENT s = Ret tt (advanced s seg (length (pre ++ seg))).
Proof.
  intros [Hb Hi] Hne Hseg. unfold CHECK_SEGMENT, bind.
  rewrite (getNextSegment_last s pre seg Hb Hi Hne Hseg). reflexivity.
Qed.

Lemma CHECK_SEGMENT_none (s : State) (pre : str) :
  at_cursor s pre [] ->
  CHECK_SEGMENT s
  = Leave (set_ros_log ((ERROR, NotEnoughSegments 0 (_serialBuffer s)) :: ros_log s)
             (set_currentSegmentNum (-1) s)).
Proof.
  intros [Hb Hi]. unfold CHECK_SEGMENT, bind.
  rewrite getNextSegment_none by (rewrite Hb, Hi, app_nil_r; lia).
  reflexivity.
Qed.

Lemma at_cursor_field (s : State) (pre seg rest : str) (g : State -> State) :
  at_cursor s pre (seg ++ TAB :: rest) ->
  _serialBuffer (g (advanced s seg (length pre + length seg + 1))) = _serialBuffer s ->
  _serialBufferIndex (g (advanced s seg (length pre + length seg + 1)))
  = (length pre + length seg + 1)%nat ->
  at_cursor (g (advanced s seg (length pre + length seg + 1))) (pre ++ seg ++ [TAB]) rest.
Proof.
  intros [Hb Hi] Eb Ei. split.
  - rewrite Eb, Hb. repeat rewrite <- app_assoc. reflexivity.
  - rewrite Ei. repeat rewrite length_app. simpl. lia.
Qed.

Lemma at_cursor_last (s : State) (pre seg : str) (g : State -> State) :
  at_cursor s pre seg ->
  _serialBuffer (g (advanced s seg (length (pre ++ seg)))) = _serialBuffer s ->
  _serialBufferIndex (g (advanced s seg (length (pre ++ seg)))) = length (pre ++ seg) ->
  at_cursor (g (advanced s seg (length (pre ++ seg)))) (pre ++ seg) [].
Proof.
  intros [Hb Hi] Eb Ei. split.
  - rewrite Eb, Hb, app_nil_r. reflexivity.
  - exact Ei.
Qed.

(** One integer field of a packet: the segment is taken, converted and
    stored, and the decode goes on behind it. *)
Lemma robot_field_step (s : State) (pre seg rest : str) (v : Z)
    (G : Z -> StructRobotState -> StructRobotState) (K : M unit) :
  at_cursor s pre (seg ++ TAB :: rest) ->
  ~ In TAB seg ->
  stoi seg = inr v ->
  exists s1,
    (CHECK_SEGMENT ;; v <- seg_stoi ;; on_robotState (G v) ;; K) s = K s1
    /\ at_cursor s1 (pre ++ seg ++ [TAB]) rest
    /\ robotState s1 = G v (robotState s)
    /\ ros_log s1 = ros_log s
    /\ _serialBuffer s1 = _serialBuffer s.
Proof.
  intros Hc Hseg Hv.
  exists (set_robotState (G v (robotState s))
            (advanced s seg (length pre + length seg + 1))).
  split; [|split; [|repeat split]].
  - unfold bind at 1. rewrite (CHECK_SEGMENT_field s pre seg rest Hc Hseg).
    unfold bind at 1, seg_stoi, bind at 1, gets at 1.
    cbn [_currentBufferSegment advanced set_serialBufferIndex set_currentBufferSegment].
    rewrite Hv. cbn [lift ret]. reflexivity.
  - apply (at_cursor_field s pre seg rest (set_robotState (G v (robotState s))) Hc);
      reflexivity.
Qed.

Lemma robot_field_step_last (s : State) (pre seg : str) (v : Z)
    (G : Z -> StructRobotState -> StructRobotState) (K : M unit) :
  at_cursor s pre seg ->
  seg <> [] ->
  ~ In TAB seg ->
  stoi seg = inr v ->
  exists s1,
    (CHECK_SEGMENT ;; v <- seg_stoi ;; on_robotState (G v) ;; K) s = K s1
    /\ at_cursor s1 (pre ++ seg) []
    /\ robotState s1 = G v (robotState s)
    /\ ros_log s1 = ros_log s
    /\ _serialBuffer s1 = _serialBuffer s.
Proof.
  intros Hc Hne Hseg Hv.
  exists (set_robotState (G v (robotState s)) (advanced s seg (length (pre ++ seg)))).
  split; [|split; [|repeat split]].
  - unfold bind at 1. rewrite (CHECK_SEGMENT_last s pre seg Hc Hne Hseg).
    unfold bind at 1, seg_stoi, bind at 1, gets at 1.
    cbn [_currentBufferSegment advanced set_serialBufferIndex set_currentBufferSegment].
    rewrite Hv. cbn [lift ret]. reflexivity.
  - apply (at_cursor_last s pre seg (set_robotState (G v (robotState s))) Hc);
      reflexivity.
Qed.

Lemma missing_field_step (s : State) (pre : str) (K : M unit) :
  at_cursor s pre [] ->
  exists s1,
    (CHECK_SEGMENT ;; K) s = Leave s1
    /\ robotState s1 = robotState s
    /\ hd_error (ros_log s1) = Some (ERROR, NotEnoughSegments 0 (_serialBuffer s)).
Proof.
  intros Hc. eexists. split; [|split].
  - unfold bind at 1. rewrite (CHECK_SEGMENT_none s pre Hc). reflexivity.
  - reflexivity.
  - reflexivity.
Qed.

(** The last field of a state packet, read with [std::stof]. *)
Lemma loop_rate_step (s : State) (pre seg : str) (f : cfloat) :
  at_cursor s pre seg ->
  seg <> [] ->
  ~ In TAB seg ->
  stof seg = inr f ->
  exists s1,
    (CHECK_SEGMENT ;; f <- seg_stof ;; on_robotState (set_loop_rate (double_of_float f))) s
    = Ret tt s1
    /\ robotState s1 = set_loop_rate (double_of_float f) (robotState s).
Proof.
  intros Hc Hne Hseg Hv. eexists. split.
  - unfold bind at 1. rewrite (CHECK_SEGMENT_last s pre seg Hc Hne Hseg).
    unfold bind at 1, seg_stof, bind at 1, gets at 1.
    cbn [_currentBufferSegment advanced set_serialBufferIndex set_currentBufferSegment].
    rewrite Hv. cbn [lift ret]. reflexivity.
  - reflexivity.
Qed.

Lemma processSerialPacket_state (s : State) :
  processSerialPacket (lit "state") s
  = void_call (
      CHECK_SEGMENT ;; v <- seg_stoi ;; on_robotState (set_state_time_ms (u32 v)) ;;
      CHECK_SEGMENT ;; v <- seg_stoi ;; on_robotState (set_is_active (to_bool v)) ;;
      CHECK_SEGMENT ;; v <- seg_stoi ;; on_robotState (set_battery_ok (to_bool v)) ;;
      CHECK_SEGMENT ;; v <- seg_stoi ;; on_robotState (set_motors_active (to_bool v)) ;;
      CHECK_SEGMENT ;; f <- seg_stof ;; on_robotState (set_loop_rate (double_of_float f)))
      s.
Proof. reflexivity. Qed.

Ltac field_facts H Hs t :=
  let Hne := fresh "Hne" in
  let Hin := fresh "Hin" in
  apply andb_true_iff in H; destruct H as [Hs H];
  destruct (segment_text_spec t Hs) as [Hne Hin].

(** Each step replaces the state by the one behind the field, known only by
    its cursor, its device state, its log and its buffer. *)
Ltac step_more Hc s1 :=
  let E := fresh "E" in
  let R := fresh "R" in
  let L := fresh "L" in
  let B := fresh "B" in
  match type of Hc with
  | at_cursor ?s ?pre (?seg ++ TAB :: ?rest) =>
      match goal with
      | |- context [bind CHECK_SEGMENT ?k s] =>
          match k with
          | (fun _ => bind seg_stoi (fun v => bind (on_robotState (@?G v)) (fun _ => ?K))) =>
              destruct (robot_field_step s pre seg rest _ G K Hc
                          ltac:(assumption) ltac:(eassumption))
                as (s1 & E & Hc' & R & L & B);
              rewrite E; clear E Hc; rename Hc' into Hc
          end
      end
  end.

Ltac step_last Hc s1 :=
  let E := fresh "E" in
  let R := fresh "R" in
  let L := fresh "L" in
  let B := fresh "B" in
  match type of Hc with
  | at_cursor ?s ?pre ?seg =>
      match goal with
      | |- context [bind CHECK_SEGMENT ?k s] =>
          match k with
          | (fun _ => bind seg_stoi (fun v => bind (on_robotState (@?G v)) (fun _ => ?K))) =>
              destruct (robot_field_step_last s pre seg _ G K Hc
                          ltac:(assumption) ltac:(assumption) ltac:(eassumption))
                as (s1 & E & Hc' & R & L & B);
              rewrite E; clear E Hc; rename Hc' into Hc
          end
      end
  end.

Ltac step_missing Hc s1 :=
  let E := fresh "E" in
  let R := fresh "R" in
  let L := fresh "L" in
  match type of Hc with
  | at_cursor ?s ?pre [] =>
      match goal with
      | |- context [bind CHECK_SEGMENT ?k s] =>
          match k with
          | (fun _ => ?K) =>
              destruct (missing_field_step s pre K Hc) as (s1 & E & R & L);
              rewrite E; clear E
          end
      end
  end.

Ltac finish_partial :=
  eexists; split; [reflexivity|]; split;
  [ unfold store_leading; cbn [state_field_setters combine fold_left fst snd]; congruence
  | congruence ].

(** C8, as amended: the decode of a state packet stores its fields one
    after the other in the Device Operational State.  With all five segments
    present and readable, all five fields are overwritten.  With a segment
    missing, the decode ends there, reported as not enough segments: the
    fields decoded before that point are stored and stay, the fields from
    that point on keep the values they had. *)
Theorem state_decode_field_by_field (s : State) (pre : str) (texts : list str) :
  at_cursor s pre (joined texts) ->
  forallb segment_text texts = true ->
  (forall vals,
      (length texts <= 4)%nat ->
      map stoi texts = map inr vals ->
      exists s',
        processSerialPacket (lit "state") s = Ret tt s'
        /\ robotState s' = store_leading vals (robotState s)
        /\ hd_error (ros_log s')
           = Some (ERROR, NotEnoughSegments 0 (_serialBuffer s)))
  /\ (forall t1 t2 t3 t4 t5 v1 v2 v3 v4 f,
        texts = [t1; t2; t3; t4; t5] ->
        stoi t1 = inr v1 -> stoi t2 = inr v2 -> stoi t3 = inr v3 -> stoi t4 = inr v4 ->
        stof t5 = inr f ->
        exists s',
          processSerialPacket (lit "state") s = Ret tt s'
          /\ robotState s'
             = {| state_time_ms := u32 v1; is_active := to_bool v2;
                  battery_ok := to_bool v3; motors_active := to_bool v4;
                  loop_rate := double_of_float f |}).
Proof.
  intros Hc Htexts. split.
  - intros vals Hlen Hvals. rewrite processSerialPacket_state. unfold void_call.
    destruct texts as [|t1 [|t2 [|t3 [|t4 [|t5 more]]]]];
      cbn [joined length map forallb] in *; try lia;
      repeat match goal with
             | H : _ :: _ = map inr ?l |- _ => destruct l; [discriminate H|]; cbn [map] in H
             | H : [] = map inr ?l |- _ => destruct l; [|discriminate H]; clear H
             | H : ?x :: _ = _ :: _ |- _ => injection H as ? H
             end.
    + step_missing Hc sz. finish_partial.
    + field_facts Htexts Hs1 t1.
      step_last Hc sa. step_missing Hc sz. finish_partial.
    + field_facts Htexts Hs1 t1. field_facts Htexts Hs2 t2.
      step_more Hc sa. step_last Hc sb. step_missing Hc sz. finish_partial.
    + field_facts Htexts Hs1 t1. field_facts Htexts Hs2 t2. field_facts Htexts Hs3 t3.
      step_more Hc sa. step_more Hc sb. step_last Hc sc. step_missing Hc sz.
      finish_partial.
    + field_facts Htexts Hs1 t1. field_facts Htexts Hs2 t2. field_facts Htexts Hs3 t3.
      field_facts Htexts Hs4 t4.
      step_more Hc sa. step_more Hc sb. step_more Hc sc. step_last Hc sd.
      step_missing Hc sz. finish_partial.
  - intros t1 t2 t3 t4 t5 v1 v2 v3 v4 f -> H1 H2 H3 H4 H5.
    rewrite processSerialPacket_state. unfold void_call.
    cbn [joined forallb] in *.
    field_facts Htexts Hs1 t1. field_facts Htexts Hs2 t2. field_facts Htexts Hs3 t3.
    field_facts Htexts Hs4 t4. field_facts Htexts Hs5 t5.
    step_more Hc sa. step_more Hc sb. step_more Hc sc. step_more Hc sd.
    destruct (loop_rate_step sd _ t5 f Hc ltac:(assumption) ltac:(assumption) H5)
      as (se & Ee & Re).
    rewrite Ee. exists se. split; [reflexivity|].
    rewrite Re. repeat match goal with H : robotState _ = _ |- _ => rewrite H end.
    reflexivity.
Qed.

End StateDecode.

(** ** An encoded frame fed back to the receiving side *)

Section RoundTrip.
Context {FM : FloatModel}.


Lemma wire_safe_not_in (l : str) (x : ascii) :
  forallb wire_safe l = true ->
  x = TAB \/ x = PACKET_STOP \/ x = NUL ->
  ~ In x l.
Proof.
  intros Hl Hx Hin. rewrite forallb_forall in Hl. specialize (Hl x Hin).
  unfold wire_safe in Hl.
  destruct Hx as [-> | [-> | ->]]; vm_compute in Hl; discriminate Hl.
Qed.

Lemma c_str_no_nul (l : str) : ~ In NUL l -> c_str l = l.
Proof.
  induction l as [|c l IH]; intros H; [reflexivity|].
  cbn [c_str]. rewrite ascii_eqb_neq by (intros ->; apply H; left; reflexivity).
  rewrite IH by (intros Hin; apply H; right; assumption). reflexivity.
Qed.

Lemma hex2_wire_safe (c : Z) : 0 <= c < 256 -> forallb wire_safe (hex2 c) = true.
Proof.
  intros Hc.
  exact (below_256 (fun c => forallb wire_safe (hex2 c))
           ltac:(vm_compute; reflexivity) c Hc).
Qed.


Lemma resynced_serialBuffer (n : Z) (s : State) :
  _serialBuffer (resynced n s) = _serialBuffer s.
Proof. unfold resynced. destruct (_ =? _); reflexivity. Qed.

Lemma resynced_serialBufferIndex (n : Z) (s : State) :
  _serialBufferIndex (resynced n s) = _serialBufferIndex s.
Proof. unfold resynced. destruct (_ =? _); reflexivity. Qed.






(** The end of [readSerial] when the dispatcher returns. *)
Lemma readSerial_dispatch_returns (category : str) (s s2 : State) :
  processSerialPacket category (stripped s) = Ret tt s2 ->
  readSerial_dispatch category s
  = Ret true (set_readPacketNum (wrap PACKET_NUM_BITS (_readPacketNum s2 + 1)) s2).
Proof.
  intros H. unfold readSerial_dispatch.
  unfold bind at 1, modify at 1. fold (stripped s).
  unfold bind at 1, try_catch, bind at 1. rewrite H. reflexivity.
Qed.












End RoundTrip.

(** ** The dispatcher and the round trip on particular frames *)

(** C8 as stated fails on a state frame that stops after its second field:
    the decode ends with the segment reported missing, and the time and the
    active flag it had decoded are in the Device Operational State. *)
Lemma missing_segment_keeps_leading_fields :
  ~ (forall (s s' : @State text_floats) (recv : str) (r : bool) (n : Z) (b : str),
        readSerial_decode recv s = Ret r s' ->
        hd_error (ros_log s') = Some (ERROR, NotEnoughSegments n b) ->
        robotState s' = robotState s).
Proof.
  intros H.
  assert (P : returned (readSerial_decode state_frame_short (bench [])) = Some true
              /\ hd_error (ros_log (state_of (readSerial_decode state_frame_short (bench []))))
                 = Some (ERROR, NotEnoughSegments 0
                           (tabbed ["0"; "state"; "1500"; "1"]%string))
              /\ state_time_ms
                   (robotState (state_of (readSerial_decode state_frame_short (bench []))))
                 = 1500) by (vm_compute; repeat split; reflexivity).
  destruct P as (P1 & P2 & P3).
  destruct (readSerial_decode state_frame_short (bench [])) as [r s'| | | |] eqn:E;
    try discriminate P1.
  cbn [state_of] in P2, P3.
  rewrite (H _ _ _ _ _ _ E P2) in P3. vm_compute in P3. discriminate P3.
Qed.

Lemma state_decode_field_by_field_witness :
  exists s',
    processSerialPacket (lit "state") bench_at_fields = Ret tt s'
    /\ robotState s'
       = {| state_time_ms := 1500; is_active := true; battery_ok := false;
            motors_active := false; loop_rate := @double_zero text_floats |}.
Proof.
  destruct (state_decode_field_by_field bench_at_fields [] [lit "1500"; lit "1"])
    as [H _].
  - split; reflexivity.
  - reflexivity.
  - destruct (H [1500; 1]) as (s' & E & R & _).
    + simpl. lia.
    + reflexivity.
    + exists s'. split; [exact E | exact R].
Defined.

(** C6 at the failing input: a ready command encoded with the device time
    3000000000, which the unsigned tag holds.  The receiver and the validator
    accept the frame, [std::stoi] throws on the time in the dispatcher, the
    catch returns false, and the Readiness State is as it was.  A grip command
    encoded with the same time, read with [std::stol], is decoded. *)
Theorem ready_time_above_int_is_not_decoded :
  let r := readSerial 64 (bench (ready_frame 3000000000)) in
  let g := readSerial 64 (bench (grip_frame 3000000000)) in
  (returned r = Some false
   /\ ros_log (state_of r) = [(ERROR, ProcessPacketException out_of_range)]
   /\ readyState (state_of r) = readyState (bench []))
  /\ (returned g = Some true
      /\ published (state_of g)
         = [(gripper_pub,
             [VStamp {| host_reference := 0; plus_ms := 3000000000 |}; VInt 5])]).
Proof. vm_compute. repeat split; reflexivity. Qed.


(** ** More on the segment tokenizer *)

Lemma find_char_from_spec (c : ascii) (s : str) :
  forall from : nat,
    (from <= length s)%nat ->
    match find_char c from s with
    | Some k => exists seg rest,
                  skipn from s = seg ++ c :: rest /\ ~ In c seg
                  /\ k = (from + length seg)%nat
    | None => ~ In c (skipn from s)
    end.
Proof.
  induction s as [|x t IH]; intros from Hfrom.
  - destruct from; [|simpl in Hfrom; lia]. cbn. tauto.
  - destruct from as [|from]; cbn [find_char skipn].
    + destruct (ascii_eqb x c) eqn:E.
      * apply Ascii.eqb_eq in E. subst x. exists [], t. cbn. tauto.
      * apply Ascii.eqb_neq in E. specialize (IH 0%nat ltac:(lia)). cbn [skipn] in IH.
        destruct (find_char c 0 t) as [k|]; cbn [option_map].
        -- destruct IH as (seg & rest & E1 & E2 & E3).
           exists (x :: seg), rest. rewrite E1. cbn. split; [reflexivity|]. split; [|lia].
           intros [H|H]; [congruence | contradiction].
        -- intros [H|H]; [congruence | contradiction].
    + specialize (IH from ltac:(simpl in Hfrom; lia)).
      destruct (find_char c from t) as [k|]; cbn [option_map]; [|exact IH].
      destruct IH as (seg & rest & E1 & E2 & E3).
      exists seg, rest. split; [assumption|]. split; [assumption | lia].
Qed.

Section TokenizerMore.
Context {FM : FloatModel}.

(** X1: with the cursor inside the text, [getNextSegment] hands out the
    text from the cursor to the next separator, or to the end when there is
    none; the segment holds no separator, the cursor moves forward and stays
    within the text, the ordinal goes up by one and the text is left as it
    is.  With the cursor at or behind the end it returns false and resets the
    ordinal. *)
Theorem getNextSegment_takes_one_segment (s : State) :
  ((length (_serialBuffer s) <= _serialBufferIndex s)%nat ->
   getNextSegment s = Ret false (set_currentSegmentNum (-1) s))
  /\ ((_serialBufferIndex s < length (_serialBuffer s))%nat ->
      exists s',
        getNextSegment s = Ret true s'
        /\ _serialBuffer s' = _serialBuffer s
        /\ _currentSegmentNum s' = _currentSegmentNum s + 1
        /\ ~ In TAB (_currentBufferSegment s')
        /\ (_serialBufferIndex s < _serialBufferIndex s' <= length (_serialBuffer s))%nat
        /\ (skipn (_serialBufferIndex s) (_serialBuffer s)
            = _currentBufferSegment s'
              ++ TAB :: skipn (_serialBufferIndex s') (_serialBuffer s)
            \/ skipn (_serialBufferIndex s) (_serialBuffer s) = _currentBufferSegment s'
               /\ _serialBufferIndex s' = length (_serialBuffer s))).
Proof.
  split; [apply getNextSegment_none|].
  intros Hlt. unfold getNextSegment.
  replace (length (_serialBuffer s) <=? _serialBufferIndex s)%nat with false
    by (symmetry; apply Nat.leb_gt; assumption).
  cbn [_serialBuffer _serialBufferIndex set_currentSegmentNum].
  pose proof (find_char_from_spec TAB (_serialBuffer s) (_serialBufferIndex s)
                ltac:(lia)) as Hf.
  set (buf := _serialBuffer s) in *. set (i := _serialBufferIndex s) in *.
  assert (Hsplit : buf = firstn i buf ++ skipn i buf) by (symmetry; apply firstn_skipn).
  assert (Hfi : length (firstn i buf) = i) by (rewrite length_firstn; lia).
  destruct (find_char TAB i buf) as [k|].
  - destruct Hf as (seg & rest & E1 & E2 & E3).
    eexists. split; [reflexivity|].
    cbn [_serialBuffer _serialBufferIndex _currentSegmentNum _currentBufferSegment
         set_serialBufferIndex set_currentBufferSegment set_currentSegmentNum].
    fold buf. fold i.
    assert (Hlen : length buf = (i + length seg + 1 + length rest)%nat).
    { rewrite Hsplit, length_app, Hfi, E1, length_app. simpl. lia. }
    assert (Hseg : substr buf i (k - i) = seg).
    { unfold substr. rewrite E1.
      replace (k - i)%nat with (length seg) by lia. apply firstn_length_app. }
    assert (Hrest : skipn (k + 1) buf = rest).
    { rewrite Hsplit, E1.
      replace (firstn i buf ++ seg ++ TAB :: rest)
        with ((firstn i buf ++ seg ++ [TAB]) ++ rest)
        by (repeat rewrite <- app_assoc; reflexivity).
      replace (k + 1)%nat with (length (firstn i buf ++ seg ++ [TAB]))
        by (repeat rewrite length_app; rewrite Hfi; simpl; lia).
      apply skipn_length_app. }
    rewrite Hseg, Hrest.
    repeat split; try assumption; try lia. left. assumption.
  - eexists. split; [reflexivity|].
    cbn [_serialBuffer _serialBufferIndex _currentSegmentNum _currentBufferSegment
         set_serialBufferIndex set_currentBufferSegment set_currentSegmentNum].
    fold buf. fold i. unfold substr_from.
    repeat split; try assumption; try lia. right. split; reflexivity.
Qed.

Lemma delivered_cons (t u : str) (r : list str) :
  delivered (t :: u :: r) = t :: delivered (u :: r).
Proof.
  unfold delivered.
  change (last (t :: u :: r) [TAB]) with (last (u :: r) [TAB]).
  change (removelast (t :: u :: r)) with (t :: removelast (u :: r)).
  destruct (last (u :: r) [TAB]); reflexivity.
Qed.

(** X2: a consumer that takes segments until there is none gets, out of
    texts joined by separators, the texts in order, empty ones in the middle
    included; an empty text at the end is not delivered.  The ordinal is
    reset at the end. *)
Theorem remaining_segments_joined (texts : list str) :
  forall (fuel : nat) (s : State) (pre : str),
    at_cursor s pre (joined texts) ->
    forallb tab_free texts = true ->
    (length texts < fuel)%nat ->
    exists s',
      remaining_segments fuel s = Ret (delivered texts) s'
      /\ _currentSegmentNum s' = -1
      /\ _serialBuffer s' = _serialBuffer s.
Proof.
  induction texts as [|t r IH]; intros fuel s pre Hc Hfree Hfuel;
    (destruct fuel as [|fuel]; [simpl in Hfuel; lia|]);
    cbn [remaining_segments]; unfold bind at 1.
  - destruct Hc as [Hb Hi].
    rewrite getNextSegment_none by (rewrite Hb, Hi, app_nil_r; cbn; lia).
    eexists. split; [reflexivity|]. split; reflexivity.
  - cbn [forallb] in Hfree. apply andb_true_iff in Hfree. destruct Hfree as [Ht Hr].
    assert (Hin : ~ In TAB t).
    { intros Hin. unfold tab_free in Ht. rewrite forallb_forall in Ht.
      specialize (Ht _ Hin). rewrite ascii_eqb_refl in Ht. discriminate Ht. }
    destruct r as [|u r].
    + cbn [joined] in Hc. destruct t as [|c t].
      * destruct Hc as [Hb Hi].
        rewrite getNextSegment_none by (rewrite Hb, Hi, app_nil_r; cbn; lia).
        eexists. split; [reflexivity|]. split; reflexivity.
      * destruct Hc as [Hb Hi].
        rewrite (getNextSegment_last s pre (c :: t) Hb Hi ltac:(discriminate) Hin).
        unfold bind at 1, gets at 1. unfold bind at 1.
        destruct (IH fuel (advanced s (c :: t) (length (pre ++ c :: t))) (pre ++ c :: t))
          as (s' & E & N & B).
        -- split; [cbn; rewrite Hb, app_nil_r; reflexivity | reflexivity].
        -- reflexivity.
        -- simpl in *. lia.
        -- rewrite E. exists s'. split; [reflexivity|]. split; [exact N|].
           rewrite B. reflexivity.
    + change (joined (t :: u :: r)) with (t ++ TAB :: joined (u :: r)) in Hc.
      rewrite delivered_cons.
      pose proof Hc as [Hb Hi].
      rewrite (getNextSegment_field s pre t (joined (u :: r)) Hb Hi Hin).
      unfold bind at 1, gets at 1. unfold bind at 1.
      destruct (IH fuel (advanced s t (length pre + length t + 1)) (pre ++ t ++ [TAB]))
        as (s' & E & N & B).
      * apply (at_cursor_field s pre t (joined (u :: r)) (fun x => x) Hc); reflexivity.
      * exact Hr.
      * simpl in *. lia.
      * rewrite E. exists s'. split; [reflexivity|]. split; [exact N|].
        rewrite B. reflexivity.
Qed.

End TokenizerMore.

(** ** More on the frame receiver *)

Section ReceiverMore.
Context {FM : FloatModel}.

Lemma waitForPacketStart_loop_returns (k : nat) :
  forall (s : State) (wait_time : Z) (c2 : ascii) (msg_buffer : str),
    ros_time s (time_reads s + k) - wait_time > wait_timeout ->
    exists b s',
      waitForPacketStart_loop (S k) wait_time c2 msg_buffer s = Ret b s'
      /\ (time_reads s' <= time_reads s + S k)%nat
      /\ exists consumed, serial_rx s = consumed ++ serial_rx s'.
Proof.
  induction k as [|k IH]; intros s wait_time c2 msg_buffer Hclock.
  - rewrite Nat.add_0_r in Hclock.
    cbn [waitForPacketStart_loop]. unfold bind at 1, now.
    replace (_ >? wait_timeout) with true
      by (symmetry; rewrite Z.gtb_ltb; apply Z.ltb_lt; lia).
    eexists _, _. split; [reflexivity|]. split; [cbn; lia|]. exists []. reflexivity.
  - remember (S k) as fuel eqn:Hfuel in |- *.
    cbn [waitForPacketStart_loop]. unfold bind at 1, now.
    destruct (_ >? wait_timeout).
    { eexists _, _. split; [reflexivity|]. split; [cbn; lia|]. exists []. reflexivity. }
    unfold bind at 1, available, gets.
    cbn [serial_rx set_time_reads].
    assert (Hnext : forall s1 : State,
              ros_time s1 = ros_time s -> time_reads s1 = S (time_reads s) ->
              ros_time s1 (time_reads s1 + k) - wait_time > wait_timeout).
    { intros s1 E1 E2. rewrite E1, E2.
      replace (S (time_reads s) + k)%nat with (time_reads s + S k)%nat by lia.
      exact Hclock. }
    destruct (serial_rx s) as [|c1 [|c2' rest]] eqn:Hrx.
    + cbn [length]. replace (0 <? 2)%nat with true by reflexivity. subst fuel.
      destruct (IH (set_time_reads (S (time_reads s)) s) wait_time c2 msg_buffer)
        as (b & s' & E & T & consumed & C); [apply Hnext; reflexivity|].
      exists b, s'. split; [exact E|]. split; [cbn in T; lia|].
      exists consumed. cbn in C. rewrite Hrx in C. exact C.
    + cbn [length]. replace (1 <? 2)%nat with true by reflexivity. subst fuel.
      destruct (IH (set_time_reads (S (time_reads s)) s) wait_time c2 msg_buffer)
        as (b & s' & E & T & consumed & C); [apply Hnext; reflexivity|].
      exists b, s'. split; [exact E|]. split; [cbn in T; lia|].
      exists consumed. cbn in C. rewrite Hrx in C. exact C.
    + cbn [length]. replace (S (S _) <? 2)%nat with false by reflexivity.
      unfold bind at 1, read1. cbn [serial_rx set_time_reads]. rewrite Hrx.
      destruct (ascii_eqb c1 PACKET_START_0).
      * unfold bind at 1, read1. cbn [serial_rx set_serial_rx].
        destruct (ascii_eqb c2' PACKET_START_1).
        -- eexists _, _. split; [reflexivity|]. split; [cbn; lia|].
           exists [c1; c2']. reflexivity.
        -- subst fuel.
           destruct (IH (set_serial_rx rest
                           (set_serial_rx (c2' :: rest)
                              (set_time_reads (S (time_reads s)) s)))
                        wait_time c2' msg_buffer)
             as (b & s' & E & T & consumed & C); [apply Hnext; reflexivity|].
           exists b, s'. split; [exact E|]. split; [cbn in T; lia|].
           exists (c1 :: c2' :: consumed). cbn in C. rewrite C. reflexivity.
      * destruct (ascii_eqb c1 PACKET_STOP || ascii_eqb c2 PACKET_STOP).
        -- eexists _, _. split; [reflexivity|]. split; [cbn; lia|].
           exists [c1]. reflexivity.
        -- subst fuel.
           destruct (IH (set_serial_rx (c2' :: rest)
                           (set_time_reads (S (time_reads s)) s))
                        wait_time c2 (msg_buffer ++ [c1]))
             as (b & s' & E & T & consumed & C); [apply Hnext; reflexivity|].
           exists b, s'. split; [exact E|]. split; [cbn in T; lia|].
           exists (c1 :: consumed). cbn in C. rewrite C. reflexivity.
Qed.

(** X3: the search for a packet start ends.  If the clock is past the
    window at its k-th reading after the first, [waitForPacketStart] has
    returned after at most k turns of its loop, whatever the port holds; it
    read the clock at most k + 1 times, and what it left on the port is a
    tail of what was there. *)
Theorem waitForPacketStart_returns (k : nat) (s : State) :
  ros_time s (time_reads s + S k) - ros_time s (time_reads s) > wait_timeout ->
  exists b s',
    waitForPacketStart (S k) s = Ret b s'
    /\ (time_reads s' <= time_reads s + S (S k))%nat
    /\ exists consumed, serial_rx s = consumed ++ serial_rx s'.
Proof.
  intros Hclock. unfold waitForPacketStart.
  unfold bind at 1, now. unfold bind at 1, gets at 1.
  destruct (waitForPacketStart_loop_returns k (set_time_reads (S (time_reads s)) s)
              (ros_time s (time_reads s)) (uninit_c2 (set_time_reads (S (time_reads s)) s))
              [])
    as (b & s' & E & T & consumed & C).
  - cbn [ros_time time_reads set_time_reads].
    replace (S (time_reads s) + k)%nat with (time_reads s + S k)%nat by lia.
    exact Hclock.
  - exists b, s'. split; [exact E|]. split; [cbn in T; lia|].
    exists consumed. exact C.
Qed.

Lemma waitForPacketStart_loop_true (fuel : nat) :
  forall (s s' : State) (wait_time : Z) (c2 : ascii) (msg_buffer : str),
    waitForPacketStart_loop fuel wait_time c2 msg_buffer s = Ret true s' ->
    ros_log s' = ros_log s
    /\ exists junk,
         serial_rx s = junk ++ PACKET_START_0 :: PACKET_START_1 :: serial_rx s'.
Proof.
  induction fuel as [|fuel IH]; intros s s' wait_time c2 msg_buffer;
    cbn [waitForPacketStart_loop]; [discriminate|].
  unfold bind at 1, now.
  destruct (_ >? wait_timeout); [discriminate|].
  unfold bind at 1, available, gets. cbn [serial_rx set_time_reads].
  destruct (serial_rx s) as [|c1 [|c2' rest]] eqn:Hrx; cbn [length].
  - replace (0 <? 2)%nat with true by reflexivity. intros H.
    apply IH in H. cbn in H. rewrite Hrx in H. exact H.
  - replace (1 <? 2)%nat with true by reflexivity. intros H.
    apply IH in H. cbn in H. rewrite Hrx in H. exact H.
  - replace (S (S _) <? 2)%nat with false by reflexivity.
    unfold bind at 1, read1. cbn [serial_rx set_time_reads]. rewrite Hrx.
    destruct (ascii_eqb c1 PACKET_START_0) eqn:E1.
    + apply Ascii.eqb_eq in E1. subst c1.
      unfold bind at 1, read1. cbn [serial_rx set_serial_rx].
      destruct (ascii_eqb c2' PACKET_START_1) eqn:E2.
      * apply Ascii.eqb_eq in E2. subst c2'. intros H. inversion H; subst s'.
        split; [reflexivity|]. exists []. reflexivity.
      * intros H. apply IH in H. cbn in H. destruct H as [L [junk J]].
        split; [exact L|]. exists (PACKET_START_0 :: c2' :: junk). rewrite J. reflexivity.
    + destruct (ascii_eqb c1 PACKET_STOP || ascii_eqb c2 PACKET_STOP).
      * cbv [bind log modify ret]. discriminate.
      * intros H. apply IH in H. cbn in H. destruct H as [L [junk J]].
        split; [exact L|]. exists (c1 :: junk). rewrite J. reflexivity.
Qed.

(** X4: [waitForPacketStart] returns true only right behind a start pair:
    the two markers were the last bytes it read, what it read before them is
    dropped, what follows them is still on the port, and nothing was logged. *)
Theorem waitForPacketStart_true_behind_start_pair (fuel : nat) (s s' : State) :
  waitForPacketStart fuel s = Ret true s' ->
  ros_log s' = ros_log s
  /\ exists junk,
       serial_rx s = junk ++ PACKET_START_0 :: PACKET_START_1 :: serial_rx s'.
Proof.
  unfold waitForPacketStart. unfold bind at 1, now. unfold bind at 1, gets at 1.
  intros H. apply waitForPacketStart_loop_true in H. exact H.
Qed.

Lemma waitForPacketStart_loop_line (line : str) :
  forall (msg_buffer : str) (s : State) (wait_time : Z) (c2 c : ascii) (rest : str)
         (fuel : nat),
    (length line < fuel)%nat ->
    serial_rx s = line ++ PACKET_STOP :: c :: rest ->
    forallb line_char line = true ->
    ascii_eqb c2 PACKET_STOP = false ->
    (forall i, (i <= length line)%nat ->
               ros_time s (time_reads s + i) - wait_time <= wait_timeout) ->
    exists s',
      waitForPacketStart_loop fuel wait_time c2 msg_buffer s = Ret false s'
      /\ serial_rx s' = c :: rest
      /\ ros_log s' = (INFO, DeviceMessage (msg_buffer ++ line)) :: ros_log s.
Proof.
  induction line as [|x line IH];
    intros msg_buffer s wait_time c2 c rest fuel Hfuel Hrx Hline Hc2 Hclock;
    (destruct fuel as [|fuel]; [simpl in Hfuel; lia|]);
    cbn [waitForPacketStart_loop]; unfold bind at 1, now;
    (replace (_ >? wait_timeout) with false
       by (symmetry; rewrite Z.gtb_ltb; apply Z.ltb_ge;
           specialize (Hclock 0%nat ltac:(lia)); rewrite Nat.add_0_r in Hclock; lia));
    unfold bind at 1, available, gets; cbn [serial_rx set_time_reads]; rewrite Hrx;
    (replace (length (_ ++ PACKET_STOP :: c :: rest) <? 2)%nat with false
       by (symmetry; apply Nat.ltb_ge; rewrite length_app; simpl; lia));
    unfold bind at 1, read1; cbn [serial_rx set_time_reads]; rewrite Hrx; cbn [app].
  - replace (ascii_eqb PACKET_STOP PACKET_START_0) with false by reflexivity.
    rewrite ascii_eqb_refl. cbn [orb].
    eexists. split; [reflexivity|]. split; [reflexivity|].
    cbn. rewrite app_nil_r. reflexivity.
  - cbn [forallb] in Hline. apply andb_true_iff in Hline. destruct Hline as [Hx Hline].
    unfold line_char in Hx. apply andb_true_iff in Hx. destruct Hx as [Hx0 Hx1].
    apply negb_true_iff in Hx0. apply negb_true_iff in Hx1.
    rewrite Hx0, Hx1, Hc2. cbn [orb].
    destruct (IH (msg_buffer ++ [x])
                (set_serial_rx (line ++ PACKET_STOP :: c :: rest)
                   (set_time_reads (S (time_reads s)) s))
                wait_time c2 c rest fuel)
      as (s' & E & R & L).
    + simpl in Hfuel. lia.
    + reflexivity.
    + exact Hline.
    + exact Hc2.
    + intros i Hi. cbn [ros_time time_reads set_serial_rx set_time_reads].
      replace (S (time_reads s) + i)%nat with (time_reads s + S i)%nat by lia.
      apply Hclock. simpl. lia.
    + exists s'. split; [exact E|]. split; [exact R|].
      rewrite L. rewrite <- app_assoc. reflexivity.
Qed.

(** X5: a plain line of text from the device, ended by the stop byte and
    followed by at least one more byte, is taken off the port and logged as a
    device message, and the search returns false.  The line holds no first
    start marker, the local [c2] did not start out as the stop byte, and the
    clock stays within the window while the line is read. *)
Theorem waitForPacketStart_logs_device_line
    (fuel : nat) (s : State) (line : str) (c : ascii) (rest : str) :
  serial_rx s = line ++ PACKET_STOP :: c :: rest ->
  forallb line_char line = true ->
  ascii_eqb (uninit_c2 s) PACKET_STOP = false ->
  (forall i, (i <= S (length line))%nat ->
             ros_time s (time_reads s + i) - ros_time s (time_reads s) <= wait_timeout) ->
  (length line < fuel)%nat ->
  exists s',
    waitForPacketStart fuel s = Ret false s'
    /\ serial_rx s' = c :: rest
    /\ ros_log s' = (INFO, DeviceMessage line) :: ros_log s.
Proof.
  intros Hrx Hline Hc2 Hclock Hfuel.
  unfold waitForPacketStart. unfold bind at 1, now. unfold bind at 1, gets at 1.
  destruct (waitForPacketStart_loop_line line [] (set_time_reads (S (time_reads s)) s)
              (ros_time s (time_reads s))
              (uninit_c2 (set_time_reads (S (time_reads s)) s)) c rest fuel)
    as (s' & E & R & L).
  - exact Hfuel.
  - exact Hrx.
  - exact Hline.
  - exact Hc2.
  - intros i Hi. cbn [ros_time time_reads set_time_reads].
    replace (S (time_reads s) + i)%nat with (time_reads s + S i)%nat by lia.
    apply Hclock. lia.
  - exists s'. split; [exact E|]. split; [exact R | exact L].
Qed.

Lemma waitForPacketStart_loop_idle (k : nat) :
  forall (s : State) (wait_time : Z) (c2 : ascii) (msg_buffer : str),
    (length (serial_rx s) < 2)%nat ->
    ros_time s (time_reads s + k) - wait_time > wait_timeout ->
    exists s',
      waitForPacketStart_loop (S k) wait_time c2 msg_buffer s = Ret false s'
      /\ serial_rx s' = serial_rx s
      /\ ros_log s' = ros_log s.
Proof.
  induction k as [|k IH]; intros s wait_time c2 msg_buffer Hrx Hclock.
  - rewrite Nat.add_0_r in Hclock.
    cbn [waitForPacketStart_loop]. unfold bind at 1, now.
    replace (_ >? wait_timeout) with true
      by (symmetry; rewrite Z.gtb_ltb; apply Z.ltb_lt; lia).
    eexists. split; [reflexivity|]. split; reflexivity.
  - remember (S k) as fuel eqn:Hfuel in |- *.
    cbn [waitForPacketStart_loop]. unfold bind at 1, now.
    destruct (_ >? wait_timeout).
    { eexists. split; [reflexivity|]. split; reflexivity. }
    unfold bind at 1, available, gets. cbn [serial_rx set_time_reads].
    replace (length (serial_rx s) <? 2)%nat with true
      by (symmetry; apply Nat.ltb_lt; assumption).
    subst fuel.
    destruct (IH (set_time_reads (S (time_reads s)) s) wait_time c2 msg_buffer)
      as (s' & E & R & L).
    + exact Hrx.
    + cbn [ros_time time_reads set_time_reads].
      replace (S (time_reads s) + k)%nat with (time_reads s + S k)%nat by lia.
      exact Hclock.
    + exists s'. split; [exact E|]. split; [exact R | exact L].
Qed.

(** X6: with fewer than two bytes on the port the search reads none of
    them: it polls until the window is over and returns false, the port and
    the log as they were.  A single byte, such as the stop byte that ends the
    device's last line, stays unread. *)
Theorem waitForPacketStart_leaves_single_byte (k : nat) (s : State) :
  (length (serial_rx s) < 2)%nat ->
  ros_time s (time_reads s + S k) - ros_time s (time_reads s) > wait_timeout ->
  exists s',
    waitForPacketStart (S k) s = Ret false s'
    /\ serial_rx s' = serial_rx s
    /\ ros_log s' = ros_log s.
Proof.
  intros Hrx Hclock. unfold waitForPacketStart.
  unfold bind at 1, now. unfold bind at 1, gets at 1.
  destruct (waitForPacketStart_loop_idle k (set_time_reads (S (time_reads s)) s)
              (ros_time s (time_reads s))
              (uninit_c2 (set_time_reads (S (time_reads s)) s)) [])
    as (s' & E & R & L).
  - exact Hrx.
  - cbn [ros_time time_reads set_time_reads].
    replace (S (time_reads s) + k)%nat with (time_reads s + S k)%nat by lia.
    exact Hclock.
  - exists s'. split; [exact E|]. split; [exact R | exact L].
Qed.

Lemma readSerial_accumulate_overruns (body : str) :
  forall (recv : str) (fuel : nat) (s : State) (c : ascii) (rest : str),
    serial_rx s = body ++ c :: rest ->
    ~ In PACKET_STOP body ->
    (length recv + length body = RECV_BUFFER_SIZE)%nat ->
    (length body < fuel)%nat ->
    exists s', readSerial_accumulate fuel recv s = Overrun s'.
Proof.
  induction body as [|x body IH]; intros recv fuel s c rest Hrx Hstop Hsize Hfuel;
    (destruct fuel as [|fuel]; [simpl in Hfuel; lia|]);
    cbn [readSerial_accumulate]; unfold bind at 1, available, gets; rewrite Hrx;
    cbn [app length]; replace (0 <? S _)%nat with true by reflexivity;
    unfold bind at 1, read1; rewrite Hrx; cbn [app].
  - replace (length recv <? RECV_BUFFER_SIZE)%nat with false
      by (symmetry; apply Nat.ltb_ge; simpl in Hsize; lia).
    destruct (ascii_eqb c PACKET_STOP); eexists; reflexivity.
  - rewrite ascii_eqb_neq by (intros ->; apply Hstop; left; reflexivity).
    replace (length recv <? RECV_BUFFER_SIZE)%nat with true
      by (symmetry; apply Nat.ltb_lt; simpl in Hsize; lia).
    apply (IH (recv ++ [x]) fuel (set_serial_rx (body ++ c :: rest) s) c rest).
    + reflexivity.
    + intros H. apply Hstop. right. assumption.
    + rewrite length_app. simpl in *. lia.
    + simpl in Hfuel. lia.
Qed.

(** X7: a frame of as many characters as [_recvCharBuffer] has, or more,
    makes [readSerial] write past the end of the buffer: after the start pair
    and 4095 bytes without a stop byte, the next byte, stop byte or not, is
    stored or terminated at index 4095. *)
Theorem readSerial_overruns_on_long_frame
    (fuel : nat) (s : State) (body : str) (c : ascii) (rest : str) :
  serial_rx s = PACKET_START_0 :: PACKET_START_1 :: body ++ c :: rest ->
  forallb (fun x => negb (ascii_eqb x PACKET_STOP)) body = true ->
  length body = RECV_BUFFER_SIZE ->
  ros_time s (S (time_reads s)) - ros_time s (time_reads s) <= wait_timeout ->
  (length body < fuel)%nat ->
  exists s', readSerial fuel s = Overrun s'.
Proof.
  intros Hrx Hstop Hsize Hclock Hfuel. apply no_stop_not_in in Hstop.
  destruct fuel as [|fuel]; [lia|].
  unfold readSerial. unfold bind at 1.
  rewrite (waitForPacketStart_found fuel s _ Hrx Hclock). cbn [negb].
  unfold bind at 1.
  destruct (readSerial_accumulate_overruns body [] (S fuel)
              (set_serial_rx (body ++ c :: rest)
                 (set_time_reads (S (S (time_reads s))) s)) c rest)
    as [s' E]; [reflexivity | assumption | simpl; lia | lia |].
  rewrite E. exists s'. reflexivity.
Qed.

End ReceiverMore.

(** ** More on the validator and the dispatcher *)

Section Outcomes.
Context {FM : FloatModel}.

Lemma returns_or_throws_stays {A : Type} (m : M A) :
  returns_or_throws_always m -> stays_in_function m.
Proof.
  intros H s. specialize (H s).
  destruct (m s) as [| [|] | | |]; first [exact H | contradiction].
Qed.

Lemma stays_bind {A B : Type} (m : M A) (k : A -> M B) :
  stays_in_function m -> (forall a, stays_in_function (k a)) ->
  stays_in_function (bind m k).
Proof.
  intros Hm Hk s. unfold bind. specialize (Hm s).
  destruct (m s) as [a s'| [|] | | |]; try exact Hm. apply Hk.
Qed.

Lemma stays_ret {A : Type} (a : A) : stays_in_function (ret a).
Proof. intros s. exact I. Qed.

Lemma stays_gets {A : Type} (g : State -> A) : stays_in_function (gets g).
Proof. intros s. exact I. Qed.

Lemma stays_modify (g : State -> State) : stays_in_function (modify g).
Proof. intros s. exact I. Qed.

Lemma stays_leave {A : Type} : stays_in_function (@leave _ A).
Proof. intros s. exact I. Qed.

Lemma stays_lift {A : Type} (r : exn + A) : stays_in_function (lift r).
Proof. destruct r; intros s; exact I. Qed.

Lemma stays_getNextSegment : stays_in_function getNextSegment.
Proof.
  intros s. unfold getNextSegment. destruct (_ <=? _)%nat; [exact I|].
  destruct (find_char _ _ _); exact I.
Qed.

Lemma void_call_returns_or_throws (m : M unit) :
  stays_in_function m -> returns_or_throws_always (void_call m).
Proof.
  intros H s. unfold void_call. specialize (H s).
  destruct (m s) as [| [|] | | |]; exact H.
Qed.

Ltac stays_step :=
  cbv zeta;
  match goal with
  | |- stays_in_function (bind _ _) => apply stays_bind; [| intros ?]
  | |- stays_in_function (ret _) => apply stays_ret
  | |- stays_in_function (gets _) => apply stays_gets
  | |- stays_in_function (modify _) => apply stays_modify
  | |- stays_in_function (log _ _) => apply stays_modify
  | |- stays_in_function (assign _ _) => apply stays_modify
  | |- stays_in_function (publish _ _) => apply stays_modify
  | |- stays_in_function (on_robotState _) => apply stays_modify
  | |- stays_in_function (on_readyState _) => apply stays_modify
  | |- stays_in_function (getDeviceTime _) => intros ?; exact I
  | |- stays_in_function (log_throttle _ _ _) =>
      let s := fresh "s" in
      intros s; unfold log_throttle; cbv zeta;
      destruct (throttle_open s (throttle_asked s)); exact I
  | |- stays_in_function leave => apply stays_leave
  | |- stays_in_function (lift _) => apply stays_lift
  | |- stays_in_function getNextSegment => apply stays_getNextSegment
  | |- stays_in_function (void_call _) =>
      apply returns_or_throws_stays, void_call_returns_or_throws
  | |- stays_in_function (if ?b then _ else _) => destruct b
  | H : stays_in_function ?m |- stays_in_function ?m => exact H
  end.

Lemma stays_CHECK_SEGMENT : stays_in_function CHECK_SEGMENT.
Proof. unfold CHECK_SEGMENT, getSegmentNum. repeat stays_step. Qed.

Ltac stays_parser :=
  pose proof stays_CHECK_SEGMENT;
  unfold seg_stoi, seg_stol, seg_stof, logPacketErrorCode;
  repeat stays_step.

(** The dispatcher ends by returning or by an exception of [std::stoi],
    [std::stol] or [std::stof]; the [return] of a missing segment does not
    leave it. *)
Lemma processSerialPacket_returns_or_throws (category : str) :
  returns_or_throws_always (processSerialPacket category).
Proof.
  unfold processSerialPacket. apply void_call_returns_or_throws.
  unfold parseDrive, parseBumper, parseFSR, parseGripper, parseLinear, parseBattery,
    parseTilter.
  stays_parser.
Qed.

Lemma readSerial_dispatch_ends_by_returning (category : str) (s : State) :
  exists r s', readSerial_dispatch category s = Ret r s'.
Proof.
  unfold readSerial_dispatch. unfold bind at 1, modify at 1.
  unfold bind at 1, try_catch, bind at 1.
  match goal with
  | |- context [processSerialPacket category ?s1] =>
      pose proof (processSerialPacket_returns_or_throws category s1) as H;
      destruct (processSerialPacket category s1) as [[] s2|[e|] s2|s2|s2|s2];
      try contradiction
  end.
  - eexists _, _. reflexivity.
  - eexists _, _. reflexivity.
Qed.

(** X8: whatever the category and the fields, the dispatch at the end of
    [readSerial] returns: an exception thrown while a packet is processed is
    caught there.  It returns true with the read counter advanced by one, or
    false with the exception as the last log line and the read counter as it
    was. *)
Theorem readSerial_dispatch_catches (category : str) (s : State) :
  exists r s',
    readSerial_dispatch category s = Ret r s'
    /\ if r then _readPacketNum s' = wrap 64 (_readPacketNum s + 1)
       else _readPacketNum s' = _readPacketNum s
            /\ exists e, hd_error (ros_log s') = Some (ERROR, ProcessPacketException e).
Proof.
  destruct (readSerial_dispatch_ends_by_returning category s) as (r & s' & E).
  exists r, s'. split; [exact E|].
  exact (readSerial_dispatch_counter category s s' r E).
Qed.

Lemma readSerial_category_returns (buffer : str) (s : State) :
  exists r s', readSerial_category buffer s = Ret r s'.
Proof.
  unfold readSerial_category. unfold bind at 1.
  pose proof (stays_getNextSegment s) as H.
  assert (Hg : exists b s1, getNextSegment s = Ret b s1).
  { unfold getNextSegment. destruct (_ <=? _)%nat; [eexists _, _; reflexivity|].
    destruct (find_char _ _ _); eexists _, _; reflexivity. }
  destruct Hg as (b & s1 & E). rewrite E. destruct b; cbn [negb].
  - unfold bind at 1, gets at 1. apply readSerial_dispatch_ends_by_returning.
  - eexists _, _. reflexivity.
Qed.

(** X9: the validator and the dispatcher, run on any received text, either
    return or throw the exception of the [std::stoi] that reads the packet
    number; this one conversion is the only place an exception leaves
    [readSerial] from. *)
Theorem readSerial_decode_throws_only_for_packet_number (recv : str) (s : State) :
  match readSerial_decode recv s with
  | Ret _ _ => True
  | Throw (Std e) _ => stoi (first_segment (c_str recv)) = inl e
  | _ => False
  end.
Proof.
  destruct (le_lt_dec 5 (length (c_str recv))) as [Hlen|Hlen];
    [|rewrite decode_short by assumption; exact I].
  destruct (stoul 16 (checksum_field (c_str recv))) as [e|v] eqn:Hparse;
    [rewrite (decode_checksum_unparsed recv s e) by assumption; exact I|].
  destruct (Z.eq_dec (sum_bytes (checksummed_part (c_str recv)) mod 256) (u16 v))
    as [E|E]; [|rewrite (decode_checksum_mismatch recv s v) by assumption; exact I].
  destruct (decode_checked recv s v Hlen Hparse E) as [index Hd].
  rewrite Hd.
  destruct (stoi (first_segment (c_str recv))) as [e|n]; [reflexivity|].
  match goal with
  | |- context [readSerial_category ?b ?s1] =>
      destruct (readSerial_category_returns b s1) as (r & s' & Hr); rewrite Hr
  end.
  exact I.
Qed.

Lemma c_str_idempotent (l : str) : c_str (c_str l) = c_str l.
Proof.
  induction l as [|c l IH]; [reflexivity|]. cbn [c_str].
  destruct (ascii_eqb c NUL) eqn:E; [reflexivity|].
  cbn [c_str]. rewrite E, IH. reflexivity.
Qed.

Lemma c_str_cut (pre post : str) :
  forallb (fun c => negb (ascii_eqb c NUL)) pre = true ->
  c_str (pre ++ NUL :: post) = pre.
Proof.
  induction pre as [|c pre IH]; intros H; cbn [app c_str].
  - rewrite ascii_eqb_refl. reflexivity.
  - cbn [forallb] in H. apply andb_true_iff in H. destruct H as [Hc H].
    apply negb_true_iff in Hc. rewrite Hc, IH by assumption. reflexivity.
Qed.

Lemma readSerial_decode_c_str (a b : str) (s : State) :
  c_str a = c_str b -> readSerial_decode a s = readSerial_decode b s.
Proof. intros H. unfold readSerial_decode. rewrite H. reflexivity. Qed.

(** X10: a NUL among the received bytes ends the packet for the validator:
    the bytes from it on, the real checksum among them, are not looked at,
    and the text before it is validated and processed as if it were the whole
    frame. *)
Theorem readSerial_decode_stops_at_NUL (pre post : str) (s : State) :
  forallb (fun c => negb (ascii_eqb c NUL)) pre = true ->
  readSerial_decode (pre ++ NUL :: post) s = readSerial_decode pre s.
Proof.
  intros H. apply readSerial_decode_c_str.
  rewrite (c_str_cut pre post H).
  rewrite <- (c_str_cut pre [] H) at 2. rewrite c_str_idempotent.
  rewrite (c_str_cut pre [] H). reflexivity.
Qed.

(** X11: when [std::stoul] finds no hexadecimal number in the last two
    characters of a payload of five or more, the attempt ends with that error
    alone: [readSerial] returns false and, unlike for a checksum that is read
    and differs, the read counter is not advanced. *)
Theorem unparsed_checksum_keeps_read_counter (recv : str) (s : State) (e : exn) :
  (5 <= length (c_str recv))%nat ->
  stoul 16 (checksum_field (c_str recv)) = inl e ->
  exists s',
    readSerial_decode recv s = Ret false s'
    /\ ros_log s' = (ERROR, ChecksumParseFailed (c_str recv) e) :: ros_log s
    /\ _readPacketNum s' = _readPacketNum s
    /\ readyState s' = readyState s
    /\ robotState s' = robotState s
    /\ published s' = published s.
Proof.
  intros Hlen Hparse. rewrite (decode_checksum_unparsed recv s e Hlen Hparse).
  eexists. split; [reflexivity|]. repeat split; reflexivity.
Qed.

End Outcomes.

(** ** Packets that are not decoded, and what decoding never undoes *)

Lemma last_two_app (l : str) (a b : ascii) : last_two (l ++ [a; b]) = Some (a, b).
Proof.
  induction l as [|x l IH]; [reflexivity|].
  destruct l as [|y l]; [reflexivity|].
  destruct l as [|z l]; [reflexivity|].
  exact IH.
Qed.

Lemma hex2_hex_digits (c : Z) :
  0 <= c < 256 -> forallb is_hex_digit (hex2 c) = true.
Proof.
  intros Hc.
  exact (below_256 (fun c => forallb is_hex_digit (hex2 c))
           ltac:(vm_compute; reflexivity) c Hc).
Qed.

Lemma str_eqb_neq (a b : str) : a <> b -> str_eqb a b = false.
Proof. intros H. unfold str_eqb. destruct (list_eq_dec _ _ _); [contradiction | reflexivity]. Qed.

(** No category of the dispatcher ends in two hexadecimal digits. *)
Lemma hex_tail_not_known (category : str) (h1 h2 : ascii) :
  last_two category = Some (h1, h2) ->
  is_hex_digit h1 && is_hex_digit h2 = true ->
  Forall (fun k => str_eqb category k = false) known_categories.
Proof.
  intros Hlast Hhex. unfold known_categories. cbn [map].
  repeat constructor;
    apply str_eqb_neq; intros ->; vm_compute in Hlast;
    injection Hlast as <- <-; vm_compute in Hhex; discriminate Hhex.
Qed.

Section Ignored.
Context {FM : FloatModel}.

Lemma processSerialPacket_unknown (category : str) (s : State) :
  Forall (fun k => str_eqb category k = false) known_categories ->
  processSerialPacket category s = Ret tt s.
Proof.
  intros H. unfold known_categories in H. cbn [map] in H.
  repeat match goal with
         | H : Forall _ (_ :: _) |- _ =>
             let E := fresh "E" in
             apply Forall_cons_iff in H; destruct H as [E H]
         end.
  unfold processSerialPacket.
  rewrite E, E0, E1, E2, E3, E4, E5, E6, E7, E8. reflexivity.
Qed.

(** X12: a packet that ends behind its category, with no field, is
    accepted and not decoded, whatever its category: the category segment is
    taken before the checksum is removed and so ends in the two checksum
    digits, which no category of the dispatcher does.  [readSerial] returns
    true, the read counter ends one above the packet's number, and the device
    states and the published messages are as before. *)
Theorem packet_without_fields_is_ignored (s : State) (seq name : str) (n : Z) :
  forallb wire_safe seq = true ->
  forallb wire_safe name = true ->
  stoi seq = inr n ->
  (2 <= length seq + length name)%nat ->
  exists s',
    readSerial_decode (with_checksum (seq ++ TAB :: name)) s = Ret true s'
    /\ _readPacketNum s' = wrap 64 (u32 n + 1)
    /\ readyState s' = readyState s
    /\ robotState s' = robotState s
    /\ published s' = published s.
Proof.
  intros Hseq Hname Hn Hlen2.
  set (P := seq ++ TAB :: name).
  set (c := sum_bytes P mod 256).
  assert (Hcr : 0 <= c < 256) by (apply Z.mod_pos_bound; lia).
  set (buffer := with_checksum P).
  assert (Hbuf : buffer = P ++ hex2 c) by reflexivity.
  assert (Hnul : ~ In NUL buffer).
  { rewrite Hbuf. unfold P. intros Hin.
    repeat (apply in_app_or in Hin; destruct Hin as [Hin|Hin]).
    - exact (wire_safe_not_in _ NUL Hseq ltac:(tauto) Hin).
    - destruct Hin as [Hin|Hin]; [discriminate Hin|].
      exact (wire_safe_not_in _ NUL Hname ltac:(tauto) Hin).
    - exact (wire_safe_not_in _ NUL (hex2_wire_safe c Hcr) ltac:(tauto) Hin). }
  assert (Hc : c_str buffer = buffer) by (apply c_str_no_nul; assumption).
  assert (Hlen : (5 <= length buffer)%nat).
  { rewrite Hbuf. unfold P, hex2. repeat (rewrite length_app; cbn [length]). lia. }
  assert (Hfield : checksum_field buffer = hex2 c).
  { unfold checksum_field, substr_from. rewrite Hbuf at 2.
    replace (length buffer - 2)%nat with (length P)
      by (rewrite Hbuf, length_app; simpl; lia).
    apply skipn_length_app. }
  assert (Hpart : checksummed_part buffer = P).
  { unfold checksummed_part. rewrite Hbuf at 2.
    replace (length buffer - 2)%nat with (length P)
      by (rewrite Hbuf, length_app; simpl; lia).
    apply firstn_length_app. }
  assert (Hseq' : ~ In TAB seq) by (apply wire_safe_not_in; tauto).
  assert (Hname' : ~ In TAB (name ++ hex2 c)).
  { intros Hin. apply in_app_or in Hin. destruct Hin as [Hin|Hin].
    - exact (wire_safe_not_in _ TAB Hname ltac:(tauto) Hin).
    - exact (wire_safe_not_in _ TAB (hex2_wire_safe c Hcr) ltac:(tauto) Hin). }
  rewrite (decode_checked_at buffer s c seq (length seq + 1)).
  - rewrite Hn, Hc. unfold readSerial_category. unfold bind at 1.
    rewrite (getNextSegment_last _ (seq ++ [TAB]) (name ++ hex2 c)).
    + cbn [negb]. unfold bind at 1, gets at 1.
      cbn [_currentBufferSegment advanced set_serialBufferIndex set_currentBufferSegment].
      match goal with
      | |- context [readSerial_dispatch ?cat ?s1] =>
          rewrite (readSerial_dispatch_returns cat s1 (stripped s1))
      end.
      * eexists. split; [reflexivity|].
        unfold stripped.
        cbn [_readPacketNum readyState robotState published set_readPacketNum
             set_serialBuffer advanced set_serialBufferIndex set_currentBufferSegment
             set_currentSegmentNum].
        rewrite resynced_readPacketNum.
        unfold resynced.
        destruct (u32 n =? _); repeat split; reflexivity.
      * apply processSerialPacket_unknown.
        apply (hex_tail_not_known _ (digit_char (c / 16)) (digit_char (c mod 16))).
        -- unfold hex2. apply last_two_app.
        -- pose proof (hex2_hex_digits c Hcr) as Hh. unfold hex2 in Hh.
           cbn [forallb] in Hh. rewrite andb_true_r in Hh. exact Hh.
    + rewrite resynced_serialBuffer.
      cbn [_serialBuffer advanced set_serialBufferIndex set_currentBufferSegment
           set_currentSegmentNum set_serialBuffer].
      rewrite Hbuf. unfold P. repeat rewrite <- app_assoc. reflexivity.
    + rewrite resynced_serialBufferIndex.
      cbn [_serialBufferIndex advanced set_serialBufferIndex set_currentBufferSegment
           set_currentSegmentNum set_serialBuffer].
      rewrite length_app. reflexivity.
    + unfold hex2. destruct name; discriminate.
    + exact Hname'.
  - rewrite Hc. assumption.
  - rewrite Hc, Hfield. apply stoul_hex2. assumption.
  - rewrite Hc, Hpart. fold c. symmetry. apply wrap_small. lia.
  - rewrite Hc.
    apply (getNextSegment_field _ [] seq (name ++ hex2 c)).
    + cbn [_serialBuffer set_serialBufferIndex set_serialBuffer app].
      rewrite Hbuf. unfold P. repeat rewrite <- app_assoc. reflexivity.
    + reflexivity.
    + assumption.
Qed.

End Ignored.

(** ** What receiving never does *)

Section ReceiveOnly.
Context {FM : FloatModel}.

Lemma keeps_loop_drain {X : Type} (f : State -> X) :
  (forall fuel, keeps f (readSerial fuel)) ->
  forall fuel, keeps f (loop_drain fuel).
Proof.
  intros Hread.
  induction fuel as [|fuel IH]; cbn [loop_drain]; [apply keeps_running|].
  apply keeps_bind; [apply keeps_available | intros n].
  destruct (0 <? n)%nat; [|apply keeps_ret].
  apply keeps_bind; [apply Hread | intros _; exact IH].
Qed.

Lemma keeps_loop {X : Type} (f : State -> X) :
  (forall fuel, keeps f (readSerial fuel)) ->
  (forall period l line, keeps f (log_throttle period l line)) ->
  forall fuel, keeps f (loop fuel).
Proof.
  intros Hread Hlog fuel. unfold loop.
  apply keeps_bind; [apply keeps_available | intros n].
  apply keeps_bind;
    [destruct (2 <? n)%nat; [apply keeps_loop_drain; exact Hread | apply keeps_ret]|].
  intros _. apply keeps_bind; [apply keeps_gets | intros num; apply Hlog].
Qed.

(** X13: the dispatcher writes the tokenizer's variables, the device
    states, the messages and the log, and nothing else: the two sequence
    counters, the bytes waiting on the port, the frames sent and the clock
    offset are after [processSerialPacket] what they were before it, whatever
    the category and the segments, and whether it returns or throws. *)
Theorem processSerialPacket_keeps_counters_and_port (category : str) (s : State) :
  let s' := state_of (processSerialPacket category s) in
  _readPacketNum s' = _readPacketNum s
  /\ _writePacketNum s' = _writePacketNum s
  /\ serial_rx s' = serial_rx s
  /\ serial_tx s' = serial_tx s
  /\ deviceStartTime s' = deviceStartTime s
  /\ offsetTimeMs s' = offsetTimeMs s
  /\ time_reads s' = time_reads s.
Proof.
  pose (f := fun s : State =>
               (_readPacketNum s, _writePacketNum s, serial_rx s, serial_tx s,
                deviceStartTime s, offsetTimeMs s, time_reads s)).
  assert (H : keeps f (processSerialPacket category))
    by (apply keeps_processSerialPacket; intros; reflexivity).
  specialize (H s). unfold f in H. cbv zeta.
  injection H as H1 H2 H3 H4 H5 H6 H7. repeat split; assumption.
Qed.

(** X14: receiving never transmits.  One pass of [loop], with whatever
    bytes are on the port and however it ends, leaves the frames sent, the
    write counter and the clock offset as they were: no packet is answered or
    acknowledged from the receiving side. *)
Theorem loop_never_transmits (fuel : nat) (s : State) :
  let s' := state_of (loop fuel s) in
  serial_tx s' = serial_tx s
  /\ _writePacketNum s' = _writePacketNum s
  /\ deviceStartTime s' = deviceStartTime s
  /\ offsetTimeMs s' = offsetTimeMs s.
Proof.
  pose (f := fun s : State =>
               (serial_tx s, _writePacketNum s, deviceStartTime s, offsetTimeMs s)).
  assert (H : keeps f (loop fuel)).
  { apply keeps_loop.
    - intros fuel'. apply keeps_readSerial; intros; reflexivity.
    - intros period l line. apply keeps_log_throttle; intros; reflexivity. }
  specialize (H s). unfold f in H. cbv zeta.
  injection H as H1 H2 H3 H4. repeat split; assumption.
Qed.

End ReceiveOnly.

(** ** Readiness is never taken back *)

Section Readiness.
Context {FM : FloatModel}.

Local Notation "'is_up'" := (fun s : State => is_ready (readyState s) = true) (only parsing).

Lemma preserves_bind {A B : Type} (P : State -> Prop) (m : M A) (k : A -> M B) :
  preserves P m -> (forall a, preserves P (k a)) -> preserves P (bind m k).
Proof.
  intros Hm Hk s Hs. unfold bind. specialize (Hm s Hs).
  destruct (m s) as [a s'| | | |]; simpl in *; try assumption.
  apply Hk. assumption.
Qed.

Lemma preserves_still {A : Type} (P : State -> Prop) (m : M A) :
  (forall s, state_of (m s) = s) -> preserves P m.
Proof. intros H s Hs. rewrite H. assumption. Qed.

Lemma preserves_modify (P : State -> Prop) (g : State -> State) :
  (forall s, P s -> P (g s)) -> preserves P (modify g).
Proof. intros H s Hs. apply H. assumption. Qed.

Lemma preserves_void_call (P : State -> Prop) (m : M unit) :
  preserves P m -> preserves P (void_call m).
Proof.
  intros H s Hs. unfold void_call. specialize (H s Hs).
  destruct (m s); simpl in *; assumption.
Qed.

Lemma preserves_try_catch {A : Type} (P : State -> Prop) (m : M A) (h : exn -> M A) :
  preserves P m -> (forall e, preserves P (h e)) -> preserves P (try_catch m h).
Proof.
  intros Hm Hh s Hs. unfold try_catch. specialize (Hm s Hs).
  destruct (m s) as [| [e|] s' | | |]; simpl in *; try assumption.
  apply Hh. assumption.
Qed.

Lemma is_up_getNextSegment : preserves is_up getNextSegment.
Proof.
  intros s Hs. unfold getNextSegment.
  destruct (_ <=? _)%nat; [exact Hs|].
  destruct (find_char _ _ _); exact Hs.
Qed.

Lemma is_up_read1 : preserves is_up read1.
Proof. intros s Hs. unfold read1. destruct (serial_rx s); exact Hs. Qed.

Ltac is_up_step :=
  cbv zeta;
  match goal with
  | |- preserves _ (bind _ _) => apply preserves_bind; [| intros ?]
  | |- preserves _ (ret _) => apply preserves_still; reflexivity
  | |- preserves _ (throw _) => apply preserves_still; reflexivity
  | |- preserves _ leave => apply preserves_still; reflexivity
  | |- preserves _ running => apply preserves_still; reflexivity
  | |- preserves _ overrun => apply preserves_still; reflexivity
  | |- preserves _ (gets _) => apply preserves_still; reflexivity
  | |- preserves _ (getDeviceTime _) => apply preserves_still; reflexivity
  | |- preserves _ available => apply preserves_still; reflexivity
  | |- preserves _ (lift ?r) => apply preserves_still; destruct r; reflexivity
  | |- preserves _ (void_call _) => apply preserves_void_call
  | |- preserves _ (try_catch _ _) => apply preserves_try_catch; [| intros ?]
  | |- preserves _ getNextSegment => apply is_up_getNextSegment
  | |- preserves _ read1 => apply is_up_read1
  | |- preserves _ (modify _) =>
      apply preserves_modify; intros ? ?; first [assumption | reflexivity]
  | |- preserves _ (log _ _) =>
      apply preserves_modify; intros ? ?; assumption
  | |- preserves _ (assign _ _) =>
      apply preserves_modify; intros ? ?; assumption
  | |- preserves _ (publish _ _) =>
      apply preserves_modify; intros ? ?; assumption
  | |- preserves _ (on_robotState _) =>
      apply preserves_modify; intros ? ?; assumption
  | |- preserves _ (on_readyState _) =>
      apply preserves_modify; intros ? ?; first [assumption | reflexivity]
  | |- preserves _ incr_readPacketNum =>
      apply preserves_modify; intros ? ?; assumption
  | |- preserves _ now => intros ? ?; assumption
  | |- preserves _ (log_throttle _ _ _) =>
      let s := fresh "s" in
      intros s ?; unfold log_throttle; cbv zeta;
      destruct (throttle_open s (throttle_asked s)); assumption
  | |- preserves _ (if ?b then _ else _) => destruct b
  | |- preserves _ (match ?x with _ => _ end) => destruct x
  | H : preserves _ ?m |- preserves _ ?m => exact H
  | H : forall a, preserves _ (?m a) |- preserves _ (?m _) => apply H
  | H : forall a b, preserves _ (?m a b) |- preserves _ (?m _ _) => apply H
  | H : forall a b c, preserves _ (?m a b c) |- preserves _ (?m _ _ _) => apply H
  end.

Ltac is_up_parser :=
  unfold CHECK_SEGMENT, getSegmentNum, seg_stoi, seg_stol, seg_stof, logPacketErrorCode;
  repeat is_up_step.

Lemma is_up_processSerialPacket (category : str) :
  preserves is_up (processSerialPacket category).
Proof.
  unfold processSerialPacket, parseDrive, parseBumper, parseFSR, parseGripper,
    parseLinear, parseBattery, parseTilter.
  is_up_parser.
Qed.

Lemma is_up_readSerial_decode (recv : str) : preserves is_up (readSerial_decode recv).
Proof.
  unfold readSerial_decode, readSerial_dispatch, seg_stoi.
  pose proof is_up_processSerialPacket.
  repeat is_up_step.
Qed.

Lemma is_up_waitForPacketStart_loop (fuel : nat) :
  forall wait_time c2 msg_buffer,
    preserves is_up (waitForPacketStart_loop fuel wait_time c2 msg_buffer).
Proof.
  induction fuel as [|fuel IH]; intros wait_time c2 msg_buffer;
    cbn [waitForPacketStart_loop]; repeat is_up_step.
Qed.

Lemma is_up_readSerial_accumulate (fuel : nat) :
  forall recv, preserves is_up (readSerial_accumulate fuel recv).
Proof.
  induction fuel as [|fuel IH]; intros recv;
    cbn [readSerial_accumulate]; repeat is_up_step.
Qed.

Lemma is_up_readSerial (fuel : nat) : preserves is_up (readSerial fuel).
Proof.
  unfold readSerial, waitForPacketStart.
  pose proof (is_up_waitForPacketStart_loop fuel).
  pose proof (is_up_readSerial_accumulate fuel).
  pose proof is_up_readSerial_decode.
  repeat is_up_step.
Qed.

Lemma is_up_loop_drain (fuel : nat) : preserves is_up (loop_drain fuel).
Proof.
  pose proof is_up_readSerial.
  induction fuel as [|fuel IH]; cbn [loop_drain]; repeat is_up_step.
Qed.

(** X15: readiness is never taken back.  No packet, of whatever category
    and content, and no error on the way, clears [readyState->is_ready]: once
    the ready packet has been seen, the flag is still set after every call of
    the dispatcher, of [readSerial] and of [loop], however the call ends. *)
Theorem is_ready_is_never_cleared (fuel : nat) (category : str) (s : State) :
  is_ready (readyState s) = true ->
  is_ready (readyState (state_of (processSerialPacket category s))) = true
  /\ is_ready (readyState (state_of (readSerial fuel s))) = true
  /\ is_ready (readyState (state_of (loop fuel s))) = true.
Proof.
  intros Hs. split; [|split].
  - exact (is_up_processSerialPacket category s Hs).
  - exact (is_up_readSerial fuel s Hs).
  - assert (H : preserves is_up (loop fuel)).
    { unfold loop. pose proof (is_up_loop_drain fuel). repeat is_up_step. }
    exact (H s Hs).
Qed.

End Readiness.

(** ** Commands *)

Section CommandFrames.
Context {FM : FloatModel}.

Lemma wrap_add_l (w a b : Z) : wrap w (wrap w a + b) = wrap w (a + b).
Proof. unfold wrap. apply Zplus_mod_idemp_l. Qed.

(** One call of the encoder, with the bridge after it left abstract. *)
Lemma writeSerial_step (name : str) (args : list Arg) (s : State) :
  exists s1,
    writeSerial name args s = Ret tt s1
    /\ written s1 = written s ++ [described_frame (_writePacketNum s) name args]
    /\ _writePacketNum s1 = wrap 64 (_writePacketNum s + 1)
    /\ ros_log s1 = format_errors args (ros_log s).
Proof.
  rewrite writeSerial_effect. eexists. split; [reflexivity|].
  repeat split; reflexivity.
Qed.

(** X16: frames follow one another in number.  Two calls of the encoder
    in a row return, hand the port the two described frames in the order of
    the calls, the second numbered one above the first (from 2^64-1 on to 0),
    leave the counter two above where it was, and leave the receiving side
    alone. *)
Theorem writeSerial_frames_follow_in_number
    (name1 name2 : str) (args1 args2 : list Arg) (s : State) :
  exists s',
    (writeSerial name1 args1 ;; writeSerial name2 args2) s = Ret tt s'
    /\ written s'
       = written s
           ++ [described_frame (_writePacketNum s) name1 args1;
               described_frame (wrap 64 (_writePacketNum s + 1)) name2 args2]
    /\ _writePacketNum s' = wrap 64 (_writePacketNum s + 2)
    /\ _readPacketNum s' = _readPacketNum s
    /\ serial_rx s' = serial_rx s
    /\ readyState s' = readyState s
    /\ robotState s' = robotState s.
Proof.
  unfold bind. rewrite writeSerial_effect. rewrite writeSerial_effect.
  eexists. split; [reflexivity|].
  cbn [written serial_tx _writePacketNum _readPacketNum serial_rx readyState robotState
       set_writePacketNum set_serial_tx set_ros_log map rev fst].
  split; [|split].
  - unfold written. rewrite <- app_assoc. reflexivity.
  - change PACKET_NUM_BITS with 64. rewrite wrap_add_l. f_equal. lia.
  - repeat split; reflexivity.
Qed.

(** X17: a motor command given while the motors are not ready is dropped.
    If the device has not reported ready, or is not active, or its motors are
    off, [writeTilter], [writeGripper] and [writeDriveChassis] warn and
    return with the bridge as it was: nothing is sent and no sequence number
    is used up.  [writeK] asks for readiness only. *)
Theorem motor_commands_skipped_when_not_ready
    (s : State) (command value : Z) (speedA speedB : cfloat) :
  is_ready (readyState s) && is_active (robotState s) && motors_active (robotState s)
  = false ->
  writeTilter command value s = Ret [MotorsNotReady "writeTilter"] s
  /\ writeGripper command value s = Ret [MotorsNotReady "writeGripper"] s
  /\ writeDriveChassis speedA speedB s = Ret [MotorsNotReady "writeDriveChassis"] s
  /\ (is_ready (readyState s) = false ->
      forall kp_A ki_A kd_A kp_B ki_B kd_B speed_kA speed_kB,
        writeK kp_A ki_A kd_A kp_B ki_B kd_B speed_kA speed_kB s
        = Ret [RobotNotReady "writeK"] s).
Proof.
  intros H.
  unfold writeTilter, writeGripper, writeDriveChassis, writeK, motorsReady, robotReady.
  repeat split; try (unfold bind at 1, gets at 1; rewrite H; reflexivity).
  intros Hr. intros. unfold bind at 1, gets at 1. rewrite Hr. reflexivity.
Qed.

(** X18: with the motors ready, [writeTilter] sends one frame named
    tilter and warns of nothing.  Command and position are taken as unsigned
    bytes; a command of at most 2 (up, down, toggle) goes out alone, and only
    a greater one is followed by the position. *)
Theorem writeTilter_frame (s : State) (command position : Z) :
  is_ready (readyState s) && is_active (robotState s) && motors_active (robotState s)
  = true ->
  exists s',
    writeTilter command position s = Ret [] s'
    /\ serial_tx s'
       = (let frame :=
            described_frame (_writePacketNum s) (lit "tilter")
              (if command mod 256 <=? 2 then [ArgD (command mod 256)]
               else [ArgD (command mod 256); ArgD (position mod 256)]) in
          (frame, serial_accepts s frame) :: serial_tx s)
    /\ _writePacketNum s' = wrap 64 (_writePacketNum s + 1)
    /\ ros_log s' = ros_log s.
Proof.
  intros H. unfold writeTilter, motorsReady.
  unfold bind at 1, gets at 1. rewrite H. cbn [negb].
  change (u8 command) with (command mod 256).
  change (u8 position) with (position mod 256).
  destruct (command mod 256 <=? 2); unfold bind; rewrite writeSerial_effect;
    (eexists; split; [reflexivity|]); repeat split; reflexivity.
Qed.

(** X19: with the motors ready, [writeGripper] sends one frame named
    grip: command 0 (open) goes out alone, every other command is followed by
    the force threshold; both are taken as unsigned bytes, so a command of
    256 opens the gripper. *)
Theorem writeGripper_frame (s : State) (command force_threshold : Z) :
  is_ready (readyState s) && is_active (robotState s) && motors_active (robotState s)
  = true ->
  exists s',
    writeGripper command force_threshold s = Ret [] s'
    /\ serial_tx s'
       = (let frame :=
            described_frame (_writePacketNum s) (lit "grip")
              (if command mod 256 =? 0 then [ArgD 0]
               else [ArgD (command mod 256); ArgD (force_threshold mod 256)]) in
          (frame, serial_accepts s frame) :: serial_tx s)
    /\ _writePacketNum s' = wrap 64 (_writePacketNum s + 1)
    /\ ros_log s' = ros_log s.
Proof.
  intros H. unfold writeGripper, motorsReady.
  unfold bind at 1, gets at 1. rewrite H. cbn [negb].
  change (u8 command) with (command mod 256).
  change (u8 force_threshold) with (force_threshold mod 256).
  destruct (command mod 256 =? 0) eqn:E; unfold bind; rewrite writeSerial_effect;
    (eexists; split; [reflexivity|]); repeat split; try reflexivity.
  apply Z.eqb_eq in E. rewrite E. reflexivity.
Qed.

(** X20: with the device ready, [writeK] sends the eight gains as eight
    frames named ks, each with the gain's index 0 to 7 and its value, in the
    order kp_A, ki_A, kd_A, kp_B, ki_B, kd_B, speed_kA, speed_kB and under
    eight consecutive sequence numbers; whether the device is active or its
    motors are on is not asked. *)
Theorem writeK_frames
    (s : State) (kp_A ki_A kd_A kp_B ki_B kd_B speed_kA speed_kB : cfloat) :
  is_ready (readyState s) = true ->
  0 <= _writePacketNum s < 2 ^ 64 ->
  exists s',
    writeK kp_A ki_A kd_A kp_B ki_B kd_B speed_kA speed_kB s = Ret [] s'
    /\ written s'
       = written s
           ++ gain_frames (_writePacketNum s)
                [kp_A; ki_A; kd_A; kp_B; ki_B; kd_B; speed_kA; speed_kB]
    /\ _writePacketNum s' = wrap 64 (_writePacketNum s + 8)
    /\ ros_log s' = ros_log s.
Proof.
  intros H Hn.
  set (n := _writePacketNum s) in *.
  destruct (writeSerial_step (lit "ks") [ArgD 0; ArgF (double_of_float kp_A)] s)
    as (s1 & E1 & W1 & N1 & L1).
  destruct (writeSerial_step (lit "ks") [ArgD 1; ArgF (double_of_float ki_A)] s1)
    as (s2 & E2 & W2 & N2 & L2).
  destruct (writeSerial_step (lit "ks") [ArgD 2; ArgF (double_of_float kd_A)] s2)
    as (s3 & E3 & W3 & N3 & L3).
  destruct (writeSerial_step (lit "ks") [ArgD 3; ArgF (double_of_float kp_B)] s3)
    as (s4 & E4 & W4 & N4 & L4).
  destruct (writeSerial_step (lit "ks") [ArgD 4; ArgF (double_of_float ki_B)] s4)
    as (s5 & E5 & W5 & N5 & L5).
  destruct (writeSerial_step (lit "ks") [ArgD 5; ArgF (double_of_float kd_B)] s5)
    as (s6 & E6 & W6 & N6 & L6).
  destruct (writeSerial_step (lit "ks") [ArgD 6; ArgF (double_of_float speed_kA)] s6)
    as (s7 & E7 & W7 & N7 & L7).
  destruct (writeSerial_step (lit "ks") [ArgD 7; ArgF (double_of_float speed_kB)] s7)
    as (s8 & E8 & W8 & N8 & L8).
  fold n in W1, N1.
  rewrite N1, wrap_add_l in N2. rewrite N2, wrap_add_l in N3.
  rewrite N3, wrap_add_l in N4. rewrite N4, wrap_add_l in N5.
  rewrite N5, wrap_add_l in N6. rewrite N6, wrap_add_l in N7.
  rewrite N7, wrap_add_l in N8.
  exists s8. split; [|split; [|split]].
  - unfold writeK, robotReady. unfold bind at 1, gets at 1. rewrite H. cbn [negb].
    unfold bind. rewrite E1, E2, E3, E4, E5, E6, E7, E8. reflexivity.
  - rewrite W8, W7, W6, W5, W4, W3, W2, W1, N7, N6, N5, N4, N3, N2, N1.
    unfold gain_frames.
    cbn [length seq combine map fst snd Z.of_nat Pos.of_succ_nat Pos.succ].
    change PACKET_NUM_BITS with 64.
    rewrite (Z.add_0_r n), (wrap_small 64 n Hn).
    repeat rewrite <- app_assoc. cbn [app].
    replace (n + 1 + 1) with (n + 2) by lia.
    replace (n + 2 + 1) with (n + 3) by lia.
    replace (n + 3 + 1) with (n + 4) by lia.
    replace (n + 4 + 1) with (n + 5) by lia.
    replace (n + 5 + 1) with (n + 6) by lia.
    replace (n + 6 + 1) with (n + 7) by lia.
    reflexivity.
  - rewrite N8. f_equal. lia.
  - rewrite L8, L7, L6, L5, L4, L3, L2, L1. reflexivity.
Qed.

End CommandFrames.

(** ** Clock offset, handshake and driving loop *)

Section Startup.
Context {FM : FloatModel}.

(** X21: the clock offset taken and used.  After [setStartTime] with the
    device's milliseconds [t0], [getDeviceTime] of [t] is the host time read
    by [setStartTime] plus the milliseconds from [t0] to [t], counted modulo
    2^32: a device time at the reference maps to the host reference itself,
    and a later one, also one behind a wrap of the device's counter, to as
    many milliseconds behind it as have passed. *)
Theorem setStartTime_then_getDeviceTime (s : State) (t0 t : Z) :
  exists d s',
    (setStartTime t0 ;; getDeviceTime t) s = Ret d s'
    /\ host_reference d = ros_time s (time_reads s)
    /\ plus_ms d = (t - t0) mod 2 ^ 32
    /\ (t = t0 -> plus_ms d = 0)
    /\ (0 <= t - t0 < 2 ^ 32 -> plus_ms d = t - t0)
    /\ (0 <= t < t0 -> t0 < 2 ^ 32 -> plus_ms d = t + 2 ^ 32 - t0)
    /\ time_reads s' = S (time_reads s).
Proof.
  eexists. eexists. split; [reflexivity|].
  cbn [host_reference plus_ms deviceStartTime offsetTimeMs set_clock_offset
       time_reads set_time_reads].
  assert (E : wrap OFFSET_BITS (t - wrap OFFSET_BITS t0) = (t - t0) mod 2 ^ 32).
  { unfold wrap, OFFSET_BITS. apply Zminus_mod_idemp_r. }
  rewrite E. repeat split.
  - intros ->. rewrite Z.sub_diag. reflexivity.
  - intros H. apply Z.mod_small. assumption.
  - intros H1 H2. symmetry. apply Z.mod_unique with (q := -1); lia.
Qed.

Lemma checkReady_loop_unanswered (fuel : nat) :
  forall (begin_time write_time : Z) (s0 s : State),
    unanswered s0 s ->
    (length (serial_rx s0) <= 2)%nat ->
    ends_unanswered s0 (checkReady_loop fuel begin_time write_time s).
Proof.
  induction fuel as [|fuel IH]; intros begin_time write_time s0 s Hu Hlen;
    cbn [checkReady_loop]; [exact Hu|].
  pose proof Hu as (Hr & Hrx & Hd & Ho).
  unfold bind at 1, gets at 1. rewrite Hr.
  unfold bind at 1, ok at 1.
  destruct (ros_ok s (ok_reads s)); cbn [negb];
    [|unfold ret, ends_unanswered, unanswered; simpl; repeat split; assumption].
  unfold bind at 1, now at 1.
  destruct (_ >? general_timeout);
    [unfold throw, ends_unanswered, unanswered; simpl; repeat split; assumption|].
  unfold bind at 1, now at 1.
  unfold bind at 1.
  destruct (_ >? write_timeout).
  - unfold bind at 1, log at 1, modify at 1.
    unfold bind at 1. rewrite probe_effect. unfold now at 1.
    unfold bind at 1, available at 1, gets at 1.
    cbn [serial_rx set_time_reads set_writePacketNum set_serial_tx set_ros_log
         set_ok_reads].
    rewrite Hrx.
    replace (2 <? length (serial_rx s0))%nat with false
      by (symmetry; apply Nat.ltb_ge; assumption).
    unfold bind at 1, ret at 1.
    apply IH; [|assumption].
    unfold unanswered; simpl; repeat split; assumption.
  - unfold ret at 1.
    unfold bind at 1, available at 1, gets at 1.
    cbn [serial_rx set_time_reads set_ok_reads].
    rewrite Hrx.
    replace (2 <? length (serial_rx s0))%nat with false
      by (symmetry; apply Nat.ltb_ge; assumption).
    unfold bind at 1, ret at 1.
    apply IH; [|assumption].
    unfold unanswered; simpl; repeat split; assumption.
Qed.

(** X22: the handshake does not read a port on which at most two bytes
    wait.  Begun with the device not reported ready, [checkReady] then ends in
    one of three ways only: by the timeout exception, with its step budget, or
    by returning after [ros::ok()] turned false, and then its last log line is
    the failure to receive the ready signal.  In each the waiting bytes are
    still on the port, the device is still not reported ready and the clock
    offset is not set. *)
Theorem checkReady_unanswered (fuel : nat) (s : State) :
  is_ready (readyState s) = false ->
  (length (serial_rx s) <= 2)%nat ->
  match checkReady fuel s with
  | Ret _ s' => unanswered s s' /\ hd_error (ros_log s') = Some (ERROR, NoReadySignal)
  | Throw ReadyTimeoutException s' => unanswered s s'
  | Running s' => unanswered s s'
  | _ => False
  end.
Proof.
  intros Hr Hlen. unfold checkReady.
  unfold bind at 1, log at 1, modify at 1.
  unfold bind at 1, now at 1. unfold bind at 1, now at 1.
  unfold bind at 1. rewrite probe_effect.
  unfold bind at 1.
  match goal with
  | |- context [checkReady_loop fuel ?b ?w ?s1] =>
      pose proof (checkReady_loop_unanswered fuel b w s s1) as HL;
      destruct (checkReady_loop fuel b w s1) as [[] s2 | [e|] s2 | s2 | s2 | s2]
  end;
    cbn [ends_unanswered] in HL;
    try (specialize (HL ltac:(unfold unanswered; simpl; repeat split;
                              (assumption || reflexivity)) Hlen));
    try contradiction; try exact HL.
  destruct HL as (Hr2 & Hrx2 & Hd2 & Ho2).
  unfold bind at 1, gets at 1. rewrite Hr2. unfold log, modify. split.
  - unfold unanswered. simpl. repeat split; assumption.
  - reflexivity.
Qed.

(** One pass of [loop] over an idle port: nothing but the throttled line. *)
Lemma idle_loop (fuel : nat) (s : State) :
  (length (serial_rx s) <= 2)%nat ->
  loop fuel s
  = log_throttle 15 INFO (ReadPacketNum (_readPacketNum s)) s.
Proof.
  intros Hlen. unfold loop. unfold bind at 1, available, gets at 1.
  replace (2 <? length (serial_rx s))%nat with false
    by (symmetry; apply Nat.ltb_ge; assumption).
  reflexivity.
Qed.

Lemma repeat_shift {A : Type} (a : A) (n : nat) (l : list A) :
  repeat a n ++ a :: l = a :: repeat a n ++ l.
Proof. induction n as [|n IH]; [reflexivity|]. cbn [repeat app]. rewrite IH. reflexivity. Qed.

Local Notation "'idle_view'" :=
  (fun s : State =>
     (serial_rx s, serial_tx s, _readPacketNum s, _writePacketNum s, time_reads s,
      ros_ok s, throttle_open s)) (only parsing).

Lemma run_loop_idle_passes (k : nat) :
  forall (fuel : nat) (s : State),
    (length (serial_rx s) <= 2)%nat ->
    (forall i, (i < k)%nat -> ros_ok s (ok_reads s + i) = true) ->
    ros_ok s (ok_reads s + k) = false ->
    (k < fuel)%nat ->
    exists s',
      run_loop fuel s = Ret 0 s'
      /\ idle_view s' = idle_view s
      /\ ok_reads s' = S (ok_reads s + k)
      /\ throttle_asked s' = (throttle_asked s + k)%nat
      /\ ros_log s'
         = repeat (INFO, ReadPacketNum (_readPacketNum s))
             (length (filter (throttle_open s) (seq (throttle_asked s) k)))
           ++ ros_log s.
Proof.
  induction k as [|k IH]; intros fuel s Hlen Htrue Hfalse Hfuel;
    (destruct fuel as [|fuel]; [lia|]); cbn [run_loop];
    unfold bind at 1, ok at 1.
  - rewrite Nat.add_0_r in Hfalse. rewrite Hfalse. cbn [negb].
    eexists. split; [reflexivity|].
    cbn [ok_reads throttle_asked ros_log set_ok_reads seq filter length repeat app].
    rewrite !Nat.add_0_r. repeat split; reflexivity.
  - pose proof (Htrue 0%nat ltac:(lia)) as H0. rewrite Nat.add_0_r in H0.
    rewrite H0. cbn [negb].
    unfold bind at 1, try_catch at 1, bind at 1.
    rewrite idle_loop by exact Hlen.
    remember (set_ok_reads (S (ok_reads s)) s) as s0 eqn:Es0.
    assert (F0 : idle_view s0 = idle_view s /\ ok_reads s0 = S (ok_reads s)
                 /\ throttle_asked s0 = throttle_asked s /\ ros_log s0 = ros_log s)
      by (rewrite Es0; repeat split; reflexivity).
    clear Es0. destruct F0 as (V0 & O0 & A0 & L0).
    injection V0 as R1 R2 R3 R4 R5 R6 R7.
    assert (Hpass : exists s1,
               log_throttle 15 INFO (ReadPacketNum (_readPacketNum s0)) s0 = Ret tt s1
               /\ idle_view s1 = idle_view s /\ ok_reads s1 = S (ok_reads s)
               /\ throttle_asked s1 = S (throttle_asked s)
               /\ ros_log s1
                  = (if throttle_open s (throttle_asked s)
                     then [(INFO, ReadPacketNum (_readPacketNum s))] else [])
                    ++ ros_log s).
    { unfold log_throttle. cbv zeta. rewrite R7, A0, R3.
      destruct (throttle_open s (throttle_asked s)); eexists; (split; [reflexivity|]);
        cbn [serial_rx serial_tx _readPacketNum _writePacketNum time_reads ros_ok
             throttle_open ok_reads throttle_asked ros_log set_ros_log
             set_throttle_asked app];
        rewrite R1, R2, R3, R4, R5, R6, R7, O0, L0; repeat split; reflexivity. }
    destruct Hpass as (s1 & E1 & V1 & O1 & A1 & L1). rewrite E1.
    injection V1 as Q1 Q2 Q3 Q4 Q5 Q6 Q7.
    unfold ret at 1.
    destruct (IH fuel s1) as (s' & E & V & O & A & L).
    + rewrite Q1. exact Hlen.
    + intros i Hi. rewrite Q6, O1.
      specialize (Htrue (S i) ltac:(lia)). rewrite Nat.add_succ_r in Htrue. exact Htrue.
    + rewrite Q6, O1. rewrite Nat.add_succ_r in Hfalse. exact Hfalse.
    + lia.
    + exists s'. split; [exact E|].
      injection V as P1 P2 P3 P4 P5 P6 P7.
      rewrite P1, P2, P3, P4, P5, P6, P7, Q1, Q2, Q3, Q4, Q5, Q6, Q7.
      split; [reflexivity|].
      split; [rewrite O, O1, Nat.add_succ_r; reflexivity|].
      split; [rewrite A, A1, Nat.add_succ_r; reflexivity|].
      rewrite L, L1, Q3, Q7, A1. cbn [seq filter].
      destruct (throttle_open s (throttle_asked s)); cbn [length repeat app].
      * apply repeat_shift.
      * reflexivity.
Qed.

(** X23: an idle bridge shuts down cleanly.  With at most two bytes
    waiting on the port and no callback run in between, the loop of [run]
    goes round for as long as [ros::ok()] is true and, at its first false
    answer, ends with exit code 0.  In all that time nothing is read off the
    port or sent and no counter moves; each pass hands rosconsole the
    throttled line with the read counter, and the log gains that line once
    for each pass on which the throttle let it through, and nothing else. *)
Theorem run_loop_idles_until_shutdown (k : nat) :
  forall (fuel : nat) (s : State),
    (length (serial_rx s) <= 2)%nat ->
    (forall i, (i < k)%nat -> ros_ok s (ok_reads s + i) = true) ->
    ros_ok s (ok_reads s + k) = false ->
    (k < fuel)%nat ->
    exists s',
      run_loop fuel s = Ret 0 s'
      /\ serial_rx s' = serial_rx s
      /\ serial_tx s' = serial_tx s
      /\ _readPacketNum s' = _readPacketNum s
      /\ _writePacketNum s' = _writePacketNum s
      /\ ok_reads s' = S (ok_reads s + k)
      /\ throttle_asked s' = (throttle_asked s + k)%nat
      /\ ros_log s'
         = repeat (INFO, ReadPacketNum (_readPacketNum s))
             (length (filter (throttle_open s) (seq (throttle_asked s) k)))
           ++ ros_log s.
Proof.
  intros fuel s Hlen Htrue Hfalse Hfuel.
  destruct (run_loop_idle_passes k fuel s Hlen Htrue Hfalse Hfuel)
    as (s' & E & V & O & A & L).
  injection V as P1 P2 P3 P4 P5 P6 P7.
  exists s'. repeat split; assumption.
Qed.

(** X24: [setup] starts the device whenever the handshake returns.  If
    [checkReady] returns, with the device ready or given up because
    [ros::ok()] turned false, [setup] goes on to send the activation frame,
    named <> with argument 1, and then the reporting frame, named [] with
    argument 1, under the next two sequence numbers; if [checkReady] throws,
    [setup] throws the same and sends neither. *)
Theorem setup_activates_then_reports (fuel : nat) (s : State) :
  match checkReady fuel s with
  | Ret _ s1 =>
      exists s',
        setup fuel s = Ret tt s'
        /\ written s'
           = written s1
               ++ [described_frame (_writePacketNum s1) (lit "<>") [ArgD 1];
                   described_frame (wrap 64 (_writePacketNum s1 + 1)) (lit "[]") [ArgD 1]]
        /\ _writePacketNum s' = wrap 64 (_writePacketNum s1 + 2)
  | Throw e s1 => setup fuel s = Throw e s1
  | Leave s1 => setup fuel s = Leave s1
  | Running s1 => setup fuel s = Running s1
  | Overrun s1 => setup fuel s = Overrun s1
  end.
Proof.
  unfold setup, bind.
  destruct (checkReady fuel s) as [[] s1 | e s1 | s1 | s1 | s1]; try reflexivity.
  cbn [setActive setReporting].
  destruct (writeSerial_step (lit "<>") [ArgD 1] s1) as (s2 & E2 & W2 & N2 & L2).
  destruct (writeSerial_step (lit "[]") [ArgD 1] s2) as (s3 & E3 & W3 & N3 & L3).
  exists s3. split; [|split].
  - rewrite E2, E3. reflexivity.
  - rewrite W3, W2, N2, <- app_assoc. reflexivity.
  - rewrite N3, N2, wrap_add_l. f_equal. lia.
Qed.

End Startup.

(** ** The handshake answered *)

Section Answered.
Context {FM : FloatModel}.






End Answered.

(** ** Decoders of the sensor packets *)

Section Decoders.
Context {FM : FloatModel}.

(** What a decoder leaves alone when it takes a segment or sets a field of
    a message. *)
Local Notation "'beside_messages'" :=
  (fun s : State =>
     (published s, ros_log s, deviceStartTime s, offsetTimeMs s, robotState s,
      readyState s, _readPacketNum s, throttle_open s, throttle_asked s))
  (only parsing).

(** A segment that is not the last one is taken; the bridge behind it is
    known by its tokenizer and by what was left alone. *)
Lemma segment_step (s : State) (pre seg rest : str) (K : M unit) :
  at_cursor s pre (seg ++ TAB :: rest) ->
  ~ In TAB seg ->
  exists s1,
    (CHECK_SEGMENT ;; K) s = K s1
    /\ _currentBufferSegment s1 = seg
    /\ at_cursor s1 (pre ++ seg ++ [TAB]) rest
    /\ beside_messages s1 = beside_messages s
    /\ msgs s1 = msgs s.
Proof.
  intros Hc Hseg. exists (advanced s seg (length pre + length seg + 1)).
  split; [|split; [|split; [|split]]]; try reflexivity.
  - unfold bind at 1. rewrite (CHECK_SEGMENT_field s pre seg rest Hc Hseg). reflexivity.
  - apply (at_cursor_field s pre seg rest (fun x => x) Hc); reflexivity.
Qed.

Lemma segment_step_last (s : State) (pre seg : str) (K : M unit) :
  at_cursor s pre seg ->
  seg <> [] ->
  ~ In TAB seg ->
  exists s1,
    (CHECK_SEGMENT ;; K) s = K s1
    /\ _currentBufferSegment s1 = seg
    /\ beside_messages s1 = beside_messages s
    /\ msgs s1 = msgs s.
Proof.
  intros Hc Hne Hseg. exists (advanced s seg (length (pre ++ seg))).
  split; [|split; [|split]]; try reflexivity.
  unfold bind at 1. rewrite (CHECK_SEGMENT_last s pre seg Hc Hne Hseg). reflexivity.
Qed.

Lemma stol_step (s : State) (seg : str) (v : Z) (K : Z -> M unit) :
  _currentBufferSegment s = seg ->
  stol seg = inr v ->
  (x <- seg_stol ;; K x) s = K v s.
Proof.
  intros Hs Hv. unfold bind at 1, seg_stol, bind at 1, gets at 1.
  rewrite Hs, Hv. reflexivity.
Qed.

Lemma stoi_step (s : State) (seg : str) (v : Z) (K : Z -> M unit) :
  _currentBufferSegment s = seg ->
  stoi seg = inr v ->
  (x <- seg_stoi ;; K x) s = K v s.
Proof.
  intros Hs Hv. unfold bind at 1, seg_stoi, bind at 1, gets at 1.
  rewrite Hs, Hv. reflexivity.
Qed.

Lemma stof_step (s : State) (seg : str) (v : cfloat) (K : cfloat -> M unit) :
  _currentBufferSegment s = seg ->
  stof seg = inr v ->
  (x <- seg_stof ;; K x) s = K v s.
Proof.
  intros Hs Hv. unfold bind at 1, seg_stof, bind at 1, gets at 1.
  rewrite Hs, Hv. reflexivity.
Qed.

Lemma getDeviceTime_step (s : State) (t : Z) (K : DeviceTime -> M unit) :
  (d <- getDeviceTime t ;; K d) s
  = K {| host_reference := deviceStartTime s;
         plus_ms := wrap OFFSET_BITS (t - offsetTimeMs s) |} s.
Proof. reflexivity. Qed.

(** A field of a message is set: the tokenizer and the rest stay. *)
Lemma assign_step (s : State) (k : Slot) (v : Val) (K : M unit) :
  exists s1,
    (assign k v ;; K) s = K s1
    /\ (forall pre rest, at_cursor s pre rest -> at_cursor s1 pre rest)
    /\ beside_messages s1 = beside_messages s
    /\ msgs s1 = (fun k' => if (slot_index k' =? slot_index k)%nat then v else msgs s k').
Proof.
  eexists. split; [reflexivity|]. split; [|split]; try reflexivity.
  intros pre rest Hc. exact Hc.
Qed.

Lemma publish_step (s : State) (t : Topic) (fields : list Slot) :
  publish t fields s
  = Ret tt (set_published ((t, map (msgs s) fields) :: published s) s).
Proof. reflexivity. Qed.

(** A throttled line: let through or not, nothing else changes. *)
Lemma throttle_step (s : State) (period : Z) (l : Level) (line : LogLine) (K : M unit) :
  exists s1,
    (log_throttle period l line ;; K) s = K s1
    /\ msgs s1 = msgs s
    /\ published s1 = published s
    /\ ros_log s1
       = (if throttle_open s (throttle_asked s) then [(l, line)] else []) ++ ros_log s.
Proof.
  unfold bind, log_throttle. cbv zeta.
  destruct (throttle_open s (throttle_asked s));
    (eexists; split; [reflexivity|]); repeat split; reflexivity.
Qed.

Ltac take_segment Hc s1 E C F Ms :=
  match type of Hc with
  | at_cursor ?s ?pre (?seg ++ TAB :: ?rest) =>
      match goal with
      | |- context [bind CHECK_SEGMENT (fun _ => ?K) s] =>
          let Hc' := fresh "Hc" in
          destruct (segment_step s pre seg rest K Hc ltac:(assumption))
            as (s1 & E & C & Hc' & F & Ms);
          rewrite E; clear E; clear Hc; rename Hc' into Hc
      end
  end.

Ltac take_last_segment Hc s1 E C F Ms :=
  match type of Hc with
  | at_cursor ?s ?pre ?seg =>
      match goal with
      | |- context [bind CHECK_SEGMENT (fun _ => ?K) s] =>
          destruct (segment_step_last s pre seg K Hc ltac:(assumption) ltac:(assumption))
            as (s1 & E & C & F & Ms);
          rewrite E; clear E; clear Hc
      end
  end.

Ltac set_field Hc s0 s1 E F Ms :=
  match goal with
  | |- context [bind (assign ?k ?v) (fun _ => ?K) s0] =>
      let Hk := fresh "Hk" in
      destruct (assign_step s0 k v K) as (s1 & E & Hk & F & Ms);
      rewrite E; clear E;
      try (apply Hk in Hc); clear Hk
  end.

(** X26: the bumper packet goes out in the encoder message.  A bump
    packet with its three fields sets the stamp and the two bumper fields of
    the one drive message and publishes that message on the bumper topic: the
    ticks and speeds it carries are those of the last encoder packet, and the
    drive message's stamp is now the bumper packet's. *)
Theorem bumper_packet_publishes_drive_message
    (s : State) (pre tseg seg1 seg2 : str) (t b1 b2 : Z) :
  at_cursor s pre (tseg ++ TAB :: seg1 ++ TAB :: seg2) ->
  ~ In TAB tseg -> ~ In TAB seg1 -> ~ In TAB seg2 -> seg2 <> [] ->
  stol tseg = inr t -> stol seg1 = inr b1 -> stol seg2 = inr b2 ->
  exists s',
    processSerialPacket (lit "bump") s = Ret tt s'
    /\ published s'
       = (bumper_pub,
          [VStamp {| host_reference := deviceStartTime s;
                     plus_ms := (t mod 2 ^ 32 - offsetTimeMs s) mod 2 ^ 32 |};
           msgs s drive_left_ticks; msgs s drive_right_ticks;
           msgs s drive_left_speed_ticks_per_s; msgs s drive_right_speed_ticks_per_s;
           VInt b1; VInt b2]) :: published s
    /\ msgs s' drive_stamp
       = VStamp {| host_reference := deviceStartTime s;
                   plus_ms := (t mod 2 ^ 32 - offsetTimeMs s) mod 2 ^ 32 |}
    /\ ros_log s' = ros_log s.
Proof.
  intros Hc Ht1 Ht2 Ht3 Hne Ht Hb1 Hb2.
  change (processSerialPacket (lit "bump") s) with (void_call parseBumper s).
  unfold void_call at 1, parseBumper, void_call at 1.
  take_segment Hc s1 E1 C1 F1 M1.
  rewrite (stol_step s1 tseg t _ C1 Ht), getDeviceTime_step.
  set_field Hc s1 s2 E2 F2 M2.
  take_segment Hc s3 E3 C3 F3 M3.
  rewrite (stol_step s3 seg1 b1 _ C3 Hb1).
  set_field Hc s3 s4 E4 F4 M4.
  take_last_segment Hc s5 E5 C5 F5 M5.
  rewrite (stol_step s5 seg2 b2 _ C5 Hb2).
  set_field Hc s5 s6 E6 F6 M6.
  rewrite publish_step.
  pose proof (eq_trans F6 (eq_trans F5 (eq_trans F4 (eq_trans F3 (eq_trans F2 F1))))) as F.
  injection F as P1 P2 P3 P4 P5 P6 P7 P8 P9.
  injection F1 as Q1 Q2 Q3 Q4 Q5 Q6 Q7 Q8 Q9.
  eexists. split; [reflexivity|].
  cbn [published msgs ros_log set_published map drive_msg].
  rewrite P1, P2, M6, M5, M4, M3, M2, M1, Q3, Q4.
  cbn [slot_index Nat.eqb]. repeat split; reflexivity.
Qed.

(** X27: the third field of a battery packet is passed over.  The
    decoder takes four segments and converts the first, the second and the
    fourth: whatever the third one holds, a number or not, the message
    published on the battery topic carries the stamp, the current of the
    second segment and the voltage of the fourth.  Before publishing it hands
    rosconsole the throttled line with this voltage and current, which is the
    one line the log gains if the throttle lets it through. *)
Theorem battery_packet_skips_third_field
    (s : State) (pre tseg cseg pseg vseg : str) (t : Z) (current voltage : cfloat) :
  at_cursor s pre (tseg ++ TAB :: cseg ++ TAB :: pseg ++ TAB :: vseg) ->
  ~ In TAB tseg -> ~ In TAB cseg -> ~ In TAB pseg -> ~ In TAB vseg -> vseg <> [] ->
  stol tseg = inr t -> stof cseg = inr current -> stof vseg = inr voltage ->
  exists s',
    processSerialPacket (lit "batt") s = Ret tt s'
    /\ published s'
       = (battery_pub,
          [VStamp {| host_reference := deviceStartTime s;
                     plus_ms := (t mod 2 ^ 32 - offsetTimeMs s) mod 2 ^ 32 |};
           VFloat current; VFloat voltage]) :: published s
    /\ ros_log s'
       = (if throttle_open s (throttle_asked s)
          then [(INFO, VoltageCurrent (VFloat voltage) (VFloat current))]
          else [])
         ++ ros_log s.
Proof.
  intros Hc Ht1 Ht2 Ht3 Ht4 Hne Ht Hcur Hvol.
  change (processSerialPacket (lit "batt") s) with (void_call parseBattery s).
  unfold void_call at 1, parseBattery, void_call at 1.
  take_segment Hc s1 E1 C1 F1 M1.
  rewrite (stol_step s1 tseg t _ C1 Ht), getDeviceTime_step.
  set_field Hc s1 s2 E2 F2 M2.
  take_segment Hc s3 E3 C3 F3 M3.
  rewrite (stof_step s3 cseg current _ C3 Hcur).
  set_field Hc s3 s4 E4 F4 M4.
  take_segment Hc s5 E5 C5 F5 M5.
  take_last_segment Hc s6 E6 C6 F6 M6.
  rewrite (stof_step s6 vseg voltage _ C6 Hvol).
  set_field Hc s6 s7 E7 F7 M7.
  unfold bind at 1, gets at 1. unfold bind at 1, gets at 1.
  match goal with
  | |- context [bind (log_throttle ?p ?l ?line) (fun _ => ?K) s7] =>
      destruct (throttle_step s7 p l line K) as (s8 & E8 & M8 & B8 & L8); rewrite E8
  end.
  rewrite publish_step.
  pose proof (eq_trans F7 (eq_trans F6 (eq_trans F5 (eq_trans F4 (eq_trans F3
                (eq_trans F2 F1)))))) as F.
  injection F as P1 P2 P3 P4 P5 P6 P7 P8 P9.
  injection F1 as Q1 Q2 Q3 Q4 Q5 Q6 Q7 Q8 Q9.
  eexists. split; [reflexivity|].
  cbn [published msgs ros_log set_published map battery_msg].
  rewrite B8, L8, P1, P2, P8, P9, M8, M7, M6, M5, M4, M3, M2, Q3, Q4.
  cbn [slot_index Nat.eqb]. repeat split; reflexivity.
Qed.

(** X28: the device's report on a packet of the bridge.  A txrx packet
    with error code 0 is taken without a trace; with any other code the
    bridge warns that the packet numbered in the first field returned an
    error, and adds the reason for the codes 1 to 8 only.  Nothing is
    published and neither device state changes. *)
Theorem txrx_packet_is_logged
    (s : State) (pre nseg eseg : str) (n e : Z) :
  at_cursor s pre (nseg ++ TAB :: eseg) ->
  ~ In TAB nseg -> ~ In TAB eseg -> eseg <> [] ->
  stol nseg = inr n -> stoi eseg = inr e ->
  exists s',
    processSerialPacket (lit "txrx") s = Ret tt s'
    /\ ros_log s'
       = (if e =? 0 then []
          else (if (1 <=? e) && (e <=? 8) then [(WARN, PacketErrorReason e)] else [])
                 ++ [(WARN, PacketReturnedError (n mod 2 ^ 64))])
           ++ ros_log s
    /\ published s' = published s
    /\ robotState s' = robotState s
    /\ readyState s' = readyState s.
Proof.
  intros Hc Ht1 Ht2 Hne Hn He.
  change (processSerialPacket (lit "txrx") s)
    with (void_call (
            CHECK_SEGMENT ;; n <- seg_stol ;; let packet_num := u64 n in
            CHECK_SEGMENT ;; error_code <- seg_stoi ;;
            if negb (error_code =? 0) then logPacketErrorCode error_code packet_num
            else ret tt) s).
  unfold void_call at 1. cbv zeta.
  take_segment Hc s1 E1 C1 F1 M1.
  rewrite (stol_step s1 nseg n _ C1 Hn).
  take_last_segment Hc s2 E2 C2 F2 M2.
  rewrite (stoi_step s2 eseg e _ C2 He).
  pose proof (eq_trans F2 F1) as F. injection F as P1 P2 P3 P4 P5 P6 P7 P8 P9.
  unfold logPacketErrorCode, bind, log, modify, ret.
  destruct (e =? 0); cbn [negb]; [|destruct ((1 <=? e) && (e <=? 8))];
    (eexists; split; [reflexivity|]);
    cbn [ros_log published robotState readyState set_ros_log app];
    rewrite P1, P2, P5, P6; repeat split; reflexivity.
Qed.

End Decoders.

(** ** The properties above on the bench *)

Lemma getNextSegment_takes_one_segment_witness :
  exists s',
    getNextSegment bench_at_fields = Ret true s'
    /\ _currentSegmentNum s' = 0
    /\ ~ In TAB (_currentBufferSegment s').
Proof.
  destruct (getNextSegment_takes_one_segment bench_at_fields) as [_ H].
  destruct H as (s' & E & _ & N & T & _).
  - simpl. lia.
  - exists s'. split; [exact E|]. split; [rewrite N; reflexivity | exact T].
Defined.

Lemma remaining_segments_joined_witness :
  exists s',
    remaining_segments 3 bench_at_fields = Ret [lit "1500"; lit "1"] s'
    /\ _currentSegmentNum s' = -1.
Proof.
  destruct (remaining_segments_joined [lit "1500"; lit "1"] 3 bench_at_fields [])
    as (s' & E & N & _).
  - split; reflexivity.
  - reflexivity.
  - simpl. lia.
  - exists s'. split; [exact E | exact N].
Defined.

Lemma waitForPacketStart_returns_witness :
  exists b s', waitForPacketStart 51 (bench []) = Ret b s'.
Proof.
  destruct (waitForPacketStart_returns 50 (bench [])) as (b & s' & E & _).
  - vm_compute. reflexivity.
  - exists b, s'. exact E.
Defined.

Lemma waitForPacketStart_true_behind_start_pair_witness :
  exists junk,
    [PACKET_START_0; PACKET_START_1; "x"%char]
    = junk ++ [PACKET_START_0; PACKET_START_1; "x"%char].
Proof.
  destruct (waitForPacketStart_true_behind_start_pair 2
              (bench [PACKET_START_0; PACKET_START_1; "x"%char])
              (set_serial_rx ["x"%char]
                 (set_time_reads 3 (bench [PACKET_START_0; PACKET_START_1; "x"%char]))))
    as [_ H].
  - reflexivity.
  - exact H.
Defined.

Lemma waitForPacketStart_logs_device_line_witness :
  exists s',
    waitForPacketStart 3 (bench (lit "hi" ++ [PACKET_STOP; "x"%char])) = Ret false s'
    /\ serial_rx s' = ["x"%char]
    /\ ros_log s' = [(INFO, DeviceMessage (lit "hi"))].
Proof.
  apply (waitForPacketStart_logs_device_line 3
           (bench (lit "hi" ++ [PACKET_STOP; "x"%char])) (lit "hi") "x"%char []).
  - reflexivity.
  - reflexivity.
  - reflexivity.
  - intros i Hi. unfold wait_timeout, bench, DodobotSerialBridge.
    cbn [ros_time time_reads length app lit] in Hi |- *. simpl length in Hi. lia.
  - simpl. lia.
Defined.

Lemma waitForPacketStart_leaves_single_byte_witness :
  exists s',
    waitForPacketStart 51 (bench [PACKET_START_0]) = Ret false s'
    /\ serial_rx s' = [PACKET_START_0].
Proof.
  destruct (waitForPacketStart_leaves_single_byte 50 (bench [PACKET_START_0]))
    as (s' & E & R & _).
  - simpl. lia.
  - vm_compute. reflexivity.
  - exists s'. split; [exact E | exact R].
Defined.

Lemma readSerial_overruns_on_long_frame_witness :
  exists s',
    readSerial 4096
      (bench (PACKET_START_0 :: PACKET_START_1 :: long_body ++ [PACKET_STOP]))
    = Overrun s'.
Proof.
  apply (readSerial_overruns_on_long_frame 4096 _ long_body PACKET_STOP []).
  - reflexivity.
  - vm_compute. reflexivity.
  - vm_compute. reflexivity.
  - vm_compute. intros X. discriminate X.
  - apply Nat.ltb_lt. vm_compute. reflexivity.
Defined.

Lemma readSerial_decode_stops_at_NUL_witness :
  readSerial_decode (lit "12345" ++ NUL :: lit "zz") (bench [])
  = readSerial_decode (lit "12345") (bench []).
Proof.
  apply (readSerial_decode_stops_at_NUL (lit "12345") (lit "zz") (bench [])).
  reflexivity.
Defined.

Lemma unparsed_checksum_keeps_read_counter_witness :
  exists s',
    readSerial_decode (lit "123zz") (bench []) = Ret false s'
    /\ _readPacketNum s' = 0.
Proof.
  destruct (unparsed_checksum_keeps_read_counter (lit "123zz") (bench []) invalid_argument)
    as (s' & E & _ & N & _).
  - simpl. lia.
  - reflexivity.
  - exists s'. split; [exact E | exact N].
Defined.

Lemma packet_without_fields_is_ignored_witness :
  exists s',
    readSerial_decode (with_checksum (lit "0" ++ TAB :: lit "state")) (bench [])
    = Ret true s'
    /\ _readPacketNum s' = 1
    /\ robotState s' = robotState (bench []).
Proof.
  destruct (packet_without_fields_is_ignored (bench []) (lit "0") (lit "state") 0)
    as (s' & E & N & _ & R & _).
  - reflexivity.
  - reflexivity.
  - reflexivity.
  - simpl. lia.
  - exists s'. split; [exact E|]. split; [exact N | exact R].
Defined.

Lemma is_ready_is_never_cleared_witness :
  is_ready (readyState (state_of (processSerialPacket (lit "state") bench_motors_on)))
  = true.
Proof.
  destruct (is_ready_is_never_cleared 1 (lit "state") bench_motors_on) as [H _].
  - reflexivity.
  - exact H.
Defined.

Lemma motor_commands_skipped_when_not_ready_witness :
  writeTilter 3 90 (bench []) = Ret [MotorsNotReady "writeTilter"] (bench []).
Proof.
  destruct (@motor_commands_skipped_when_not_ready text_floats (bench []) 3 90
              (lit "1") (lit "1"))
    as [H _].
  - reflexivity.
  - exact H.
Defined.

Lemma writeTilter_frame_witness :
  exists s',
    writeTilter 3 90 bench_motors_on = Ret [] s'
    /\ _writePacketNum s' = 1.
Proof.
  destruct (writeTilter_frame bench_motors_on 3 90) as (s' & E & _ & N & _).
  - reflexivity.
  - exists s'. split; [exact E | exact N].
Defined.

Lemma writeGripper_frame_witness :
  exists s',
    writeGripper 256 40 bench_motors_on = Ret [] s'
    /\ _writePacketNum s' = 1.
Proof.
  destruct (writeGripper_frame bench_motors_on 256 40) as (s' & E & _ & N & _).
  - reflexivity.
  - exists s'. split; [exact E | exact N].
Defined.

Lemma writeK_frames_witness :
  exists s',
    @writeK text_floats (lit "1") (lit "2") (lit "3") (lit "4") (lit "5") (lit "6") (lit "7")
      (lit "8") bench_motors_on = Ret [] s'
    /\ _writePacketNum s' = 8.
Proof.
  destruct (@writeK_frames text_floats bench_motors_on (lit "1") (lit "2") (lit "3") (lit "4")
              (lit "5") (lit "6") (lit "7") (lit "8")) as (s' & E & _ & N & _).
  - reflexivity.
  - simpl. lia.
  - exists s'. split; [exact E | exact N].
Defined.

Lemma setStartTime_then_getDeviceTime_witness :
  exists d s',
    (setStartTime 4294967000 ;; getDeviceTime 704) (bench []) = Ret d s'
    /\ plus_ms d = 1000.
Proof.
  destruct (setStartTime_then_getDeviceTime (bench []) 4294967000 704)
    as (d & s' & E & _ & _ & _ & _ & H & _).
  exists d, s'. split; [exact E|]. rewrite H; [reflexivity | lia | lia].
Defined.

Lemma checkReady_unanswered_witness :
  match checkReady 10 (bench []) with
  | Ret _ s' =>
      unanswered (bench []) s' /\ hd_error (ros_log s') = Some (ERROR, NoReadySignal)
  | Throw ReadyTimeoutException s' => unanswered (bench []) s'
  | Running s' => unanswered (bench []) s'
  | _ => False
  end.
Proof.
  apply (checkReady_unanswered 10 (bench [])).
  - reflexivity.
  - simpl. lia.
Defined.

Lemma run_loop_idles_until_shutdown_witness :
  exists s',
    run_loop 4 (bench_until 3) = Ret 0 s'
    /\ ros_log s' = [(INFO, ReadPacketNum 0)]
    /\ ok_reads s' = 4%nat.
Proof.
  destruct (run_loop_idles_until_shutdown 3 4 (bench_until 3))
    as (s' & E & _ & _ & _ & _ & O & _ & L).
  - simpl. lia.
  - intros i Hi. do 3 (destruct i as [|i]; [reflexivity|]). lia.
  - reflexivity.
  - lia.
  - exists s'. split; [exact E|]. split; [rewrite L; reflexivity | exact O].
Defined.


Lemma bumper_packet_publishes_drive_message_witness :
  exists s',
    processSerialPacket (lit "bump") (bench_at ["100"; "1"; "0"]%string) = Ret tt s'
    /\ published s'
       = [(bumper_pub,
           [VStamp {| host_reference := 0; plus_ms := 100 |};
            VUnset; VUnset; VUnset; VUnset; VInt 1; VInt 0])].
Proof.
  destruct (bumper_packet_publishes_drive_message (bench_at ["100"; "1"; "0"]%string)
              [] (lit "100") (lit "1") (lit "0") 100 1 0) as (s' & E & P & _).
  - split; reflexivity.
  - intros H. simpl in H. intuition discriminate.
  - intros H. simpl in H. intuition discriminate.
  - intros H. simpl in H. intuition discriminate.
  - discriminate.
  - reflexivity.
  - reflexivity.
  - reflexivity.
  - exists s'. split; [exact E | exact P].
Defined.

Lemma battery_packet_skips_third_field_witness :
  exists s',
    processSerialPacket (lit "batt") (bench_at ["100"; "250.0"; "watts"; "7.4"]%string)
    = Ret tt s'
    /\ published s'
       = [(battery_pub,
           [VStamp {| host_reference := 0; plus_ms := 100 |};
            @VFloat text_floats (lit "250.0"); @VFloat text_floats (lit "7.4")])]
    /\ ros_log s'
       = [(INFO, VoltageCurrent (@VFloat text_floats (lit "7.4"))
                   (@VFloat text_floats (lit "250.0")))].
Proof.
  destruct (@battery_packet_skips_third_field text_floats
              (bench_at ["100"; "250.0"; "watts"; "7.4"]%string)
              [] (lit "100") (lit "250.0") (lit "watts") (lit "7.4") 100
              (lit "250.0") (lit "7.4")) as (s' & E & P & L).
  - split; reflexivity.
  - intros H. simpl in H. intuition discriminate.
  - intros H. simpl in H. intuition discriminate.
  - intros H. simpl in H. intuition discriminate.
  - intros H. simpl in H. intuition discriminate.
  - discriminate.
  - reflexivity.
  - reflexivity.
  - reflexivity.
  - exists s'. split; [exact E|]. split; [exact P | rewrite L; reflexivity].
Defined.

Lemma txrx_packet_is_logged_witness :
  exists s',
    processSerialPacket (lit "txrx") (bench_at ["12"; "4"]%string) = Ret tt s'
    /\ ros_log s' = [(WARN, PacketErrorReason 4); (WARN, PacketReturnedError 12)].
Proof.
  destruct (txrx_packet_is_logged (bench_at ["12"; "4"]%string)
              [] (lit "12") (lit "4") 12 4) as (s' & E & L & _).
  - split; reflexivity.
  - intros H. simpl in H. intuition discriminate.
  - intros H. simpl in H. intuition discriminate.
  - discriminate.
  - reflexivity.
  - reflexivity.
  - exists s'. split; [exact E | exact L].
Defined.
